(** * Permit protocol of fogo-ambient: envelope codec, signer and exchange adapter

    A shallow embedding of [app/ambient/permit/types.ts], [signer.ts],
    [hyperliquid.ts], [builder.ts] and [instructions.ts], and of the signing
    helpers of [app/ambient/clients.ts].  JavaScript values are modelled as
    follows:
    - a [bigint] is a [Z];
    - a [number] that the code computes with or hands to [BigInt] (the leverage
      multiplier and its basis points, the nonce of a request) is a [number]:
      an integer, or a binary64 datum that is no integer; the other numbers
      (enum codes, market indices, sides, clock readings) are integral and
      held as [Z];
    - strings are [string] (their UTF-8 bytes);
    - [Uint8Array], [Buffer] and [PublicKey] are lists of bytes, a byte being a
      [Z] in [0, 256);
    - [undefined] and [null] are [None];
    - a thrown exception is [Throw e] in the [Result] monad. *)

From Stdlib Require Import ZArith List String Ascii Bool Lia.
From Stdlib Require Import DecimalString DecimalZ Sorted FinFun SpecFloat.
Import ListNotations.
Local Open Scope string_scope.
Local Open Scope list_scope.
Local Open Scope Z_scope.
Local Set Warnings "-register-all".
Local Set Warnings "-at-level-200-changed".


(** ** Exceptions *)

(** A string-or-number JSON scalar ([string | number] in the adapter's types). *)
Inductive NumOrStr : Type :=
| Num (n : Z)
| Str (s : string).

Inductive JsError : Type :=
| SyntaxError (s : string)
| TypeError
| RangeError
| UnknownMarketIndex (index : Z)
| UnknownMarketSymbol (symbol : option string)
| UnsupportedTimeInForce (tif : string)
| CancelByCloidFields
| InvalidPublicKeyInput
| InvalidFaucetRequest (cause : JsError)
| DerivationExhausted.

Inductive Result (A : Type) : Type :=
| Ok (a : A)
| Throw (e : JsError).
Arguments Ok {A} a.
Arguments Throw {A} e.

Definition bind {A B : Type} (m : Result A) (f : A -> Result B) : Result B :=
  match m with
  | Ok a => f a
  | Throw e => Throw e
  end.

Notation "'do' x <- m ; k" := (bind m (fun x => k))
  (at level 10, x name, m at level 100, k at level 200).

(** ** JavaScript numbers *)

(** A [number] is an IEEE 754 binary64 value.  An integral one is held as the
    integer it is, any other one (a fraction, an infinity, NaN) as its
    binary64 datum: sign, mantissa and exponent, the value of a finite datum
    being [m * 2 ^ e].  The sign of zero is not kept. *)
Inductive number : Type :=
| Integer (z : Z)
| NonInteger (d : spec_float).

(** [number | bigint] *)
Inductive NumberOrBigInt : Type :=
| ANumber (x : number)
| ABigInt (n : Z).

Module Num.

Definition prec : Z := 53.
Definition emax : Z := 1024.

(** The binary64 datum of an integer: exact up to 53 significant bits, the
    nearest datum (ties to even) beyond. *)
Definition ofZ (z : Z) : spec_float := binary_normalize prec emax z 0 false.

(** The integer part of the magnitude of a finite datum, and whether the
    magnitude is that integer. *)
Definition magnitude (m : positive) (e : Z) : Z * bool :=
  if 0 <=? e then (Zpos m * 2 ^ e, true)
  else (Zpos m / 2 ^ (- e), Zpos m mod 2 ^ (- e) =? 0).

(** The integer that a datum is equal to, if any. *)
Definition toZ (d : spec_float) : option Z :=
  match d with
  | S754_zero _ => Some 0
  | S754_finite s m e =>
      let (t, exact) := magnitude m e in
      if exact then Some (if s then - t else t) else None
  | S754_infinity _ | S754_nan => None
  end.

Definition toDouble (x : number) : spec_float :=
  match x with
  | Integer z => ofZ z
  | NonInteger d => d
  end.

Definition ofDouble (d : spec_float) : number :=
  match toZ d with
  | Some z => Integer z
  | None => NonInteger d
  end.

Definition NaN : number := NonInteger S754_nan.

(** [x * y]: the binary64 product, rounded to nearest, ties to even.  The
    product of two integers is exact as long as its magnitude is at most
    2^53. *)
Definition mul (x y : number) : number :=
  match x, y with
  | Integer a, Integer b =>
      if Z.abs (a * b) <=? 2 ^ 53 then Integer (a * b)
      else ofDouble (SFmul prec emax (ofZ a) (ofZ b))
  | _, _ => ofDouble (SFmul prec emax (toDouble x) (toDouble y))
  end.

(** [x < y], false when either is NaN. *)
Definition ltb (x y : number) : bool :=
  match x, y with
  | Integer a, Integer b => a <? b
  | _, _ => SFltb (toDouble x) (toDouble y)
  end.

(** [Math.min(x, y)]: NaN when either is NaN. *)
Definition min (x y : number) : number :=
  match x, y with
  | Integer a, Integer b => Integer (Z.min a b)
  | _, _ =>
      match SFcompare (toDouble x) (toDouble y) with
      | Some Gt => y
      | Some _ => x
      | None => NaN
      end
  end.

(** What an unsigned [Buffer] write of a field of at most [max] makes of a
    number: a number within [0, max] is written as its integer part and NaN
    as 0; any other number is out of range, as is the integer given for
    it. *)
Definition toUInt (max : Z) (x : number) : Z :=
  match x with
  | Integer z => z
  | NonInteger d =>
      match d with
      | S754_nan | S754_zero _ => 0
      | S754_infinity s => if s then -1 else max + 1
      | S754_finite s m e =>
          let (t, exact) := magnitude m e in
          if s then (if exact then - t else - t - 1)
          else if exact then t
          else if t <? max then t else max + 1
      end
  end.

End Num.

(** ** JavaScript string primitives *)

Module Js.

(** [s.startsWith(p)] *)
Definition startsWith (s p : string) : bool := String.prefix p s.

(** [s.slice(1)] *)
Definition slice1 (s : string) : string :=
  match s with
  | EmptyString => EmptyString
  | String _ r => r
  end.

(** [s.split(sep)] for a one-character separator. *)
Fixpoint split (sep : ascii) (s : string) : list string :=
  match s with
  | EmptyString => [EmptyString]
  | String c r =>
      if Ascii.eqb c sep then EmptyString :: split sep r
      else match split sep r with
           | [] => [String c EmptyString]
           | h :: t => String c h :: t
           end
  end.

(** [c.repeat(n)] for a one-character string [c]. *)
Fixpoint repeat (c : ascii) (n : nat) : string :=
  match n with
  | O => EmptyString
  | S n' => String c (repeat c n')
  end.

(** [s.slice(0, n)] for [n >= 0]. *)
Definition slice0 (s : string) (n : nat) : string := String.substring 0 n s.

(** [s.replace(/^0+/, "")] *)
Fixpoint stripLeadingZeros (s : string) : string :=
  match s with
  | EmptyString => EmptyString
  | String c r => if Ascii.eqb c "0" then stripLeadingZeros r else s
  end.

(** The white space of ASCII: TAB, LF, VT, FF, CR and SP. *)
Definition isWhiteSpace (c : ascii) : bool :=
  let n := nat_of_ascii c in
  ((9 <=? n) && (n <=? 13))%nat || (n =? 32)%nat.

(** The UTF-8 bytes [x y z] are a white-space character beyond U+00FF:
    U+1680 (E1 9A 80), U+2000 to U+200A, U+2028, U+2029 and U+202F
    (E2 80 80 to 8A, A8, A9 and AF), U+205F (E2 81 9F), U+3000 (E3 80 80) or
    U+FEFF (EF BB BF). *)
Definition isWideWhiteSpace (x y z : nat) : bool :=
  ((x =? 225) && (y =? 154) && (z =? 128)
   || (x =? 226) && (y =? 128)
      && ((128 <=? z) && (z <=? 138) || (z =? 168) || (z =? 169) || (z =? 175))
   || (x =? 226) && (y =? 129) && (z =? 159)
   || (x =? 227) && (y =? 128) && (z =? 128)
   || (x =? 239) && (y =? 187) && (z =? 191))%nat.

(** The rest of the string behind its first character when that character is
    white space: the WhiteSpace and LineTerminator characters of ECMAScript,
    those of ASCII, U+00A0 (C2 A0) and the wider ones. *)
Definition afterWhiteSpace (s : string) : option string :=
  match s with
  | EmptyString => None
  | String c r =>
      if isWhiteSpace c then Some r
      else if (nat_of_ascii c <? 194)%nat then None
      else
        match r with
        | EmptyString => None
        | String d r1 =>
            if ((nat_of_ascii c =? 194) && (nat_of_ascii d =? 160))%nat then Some r1
            else
              match r1 with
              | EmptyString => None
              | String e r2 =>
                  if isWideWhiteSpace (nat_of_ascii c) (nat_of_ascii d) (nat_of_ascii e)
                  then Some r2
                  else None
              end
        end
  end.

(** [s.trimStart()], by at most [fuel] characters. *)
Fixpoint trimStartFrom (fuel : nat) (s : string) : string :=
  match fuel with
  | O => s
  | S fuel' =>
      match afterWhiteSpace s with
      | Some r => trimStartFrom fuel' r
      | None => s
      end
  end.

Definition trimStart (s : string) : string := trimStartFrom (String.length s) s.

(** The string is white space only. *)
Definition isBlank (s : string) : bool :=
  match trimStart s with
  | EmptyString => true
  | String _ _ => false
  end.

Fixpoint trimEnd (s : string) : string :=
  match s with
  | EmptyString => EmptyString
  | String c r => if isBlank s then EmptyString else String c (trimEnd r)
  end.

Definition trim (s : string) : string := trimEnd (trimStart s).

(** The value of one digit in the given base, [None] when [c] is no digit of it. *)
Definition digitValue (base : Z) (c : ascii) : option Z :=
  let n := Z.of_nat (nat_of_ascii c) in
  let v := if (48 <=? n) && (n <=? 57) then Some (n - 48)
           else if (97 <=? n) && (n <=? 102) then Some (n - 87)
           else if (65 <=? n) && (n <=? 70) then Some (n - 55)
           else None in
  match v with
  | Some d => if d <? base then Some d else None
  | None => None
  end.

Fixpoint parseDigitsAcc (base : Z) (s : string) (acc : Z) : option Z :=
  match s with
  | EmptyString => Some acc
  | String c r =>
      match digitValue base c with
      | Some d => parseDigitsAcc base r (base * acc + d)
      | None => None
      end
  end.

(** A non-empty run of digits of the base. *)
Definition parseDigits (base : Z) (s : string) : option Z :=
  match s with
  | EmptyString => None
  | _ => parseDigitsAcc base s 0
  end.

(** ECMAScript [StringToBigInt]: white space is trimmed, the empty string is
    0, a decimal literal may carry one sign, and 0x / 0o / 0b literals carry
    none. *)
Definition stringToBigInt (s : string) : option Z :=
  let t := trim s in
  match t with
  | EmptyString => Some 0
  | String c r =>
      if Ascii.eqb c "-" then option_map Z.opp (parseDigits 10 r)
      else if Ascii.eqb c "+" then parseDigits 10 r
      else if Ascii.eqb c "0" then
        match r with
        | String x r' =>
            if Ascii.eqb x "x" || Ascii.eqb x "X" then parseDigits 16 r'
            else if Ascii.eqb x "o" || Ascii.eqb x "O" then parseDigits 8 r'
            else if Ascii.eqb x "b" || Ascii.eqb x "B" then parseDigits 2 r'
            else parseDigits 10 t
        | EmptyString => parseDigits 10 t
        end
      else parseDigits 10 t
  end.

(** [BigInt(s)] for a string: throws a SyntaxError when [s] is no integer
    literal. *)
Definition BigInt (s : string) : Result Z :=
  match stringToBigInt s with
  | Some z => Ok z
  | None => Throw (SyntaxError s)
  end.

(** [n.toString()] for a bigint, and for an integral number below 10^21 in
    magnitude (a larger number prints with an exponent, which is not
    modelled). *)
Definition toString (n : Z) : string := NilZero.string_of_int (Z.to_int n).

(** [BigInt(v)] for [v : string | number | undefined]. *)
Definition BigIntOf (v : option NumOrStr) : Result Z :=
  match v with
  | None => Throw TypeError
  | Some (Num n) => Ok n
  | Some (Str s) => BigInt s
  end.

(** [String(v)] for [v : string | number]. *)
Definition StringOf (v : NumOrStr) : string :=
  match v with
  | Num n => toString n
  | Str s => s
  end.

Definition hexDigit (n : nat) : ascii :=
  ascii_of_nat (if (n <? 10)%nat then 48 + n else 87 + n)%nat.

(** [Buffer.from(s).toString("hex")] *)
Fixpoint toHex (s : string) : string :=
  match s with
  | EmptyString => EmptyString
  | String c r =>
      let n := nat_of_ascii c in
      String (hexDigit (n / 16)) (String (hexDigit (n mod 16)) (toHex r))
  end.

(** [BigInt(x)] for a number: a RangeError unless [x] is integral. *)
Definition BigIntOfNumber (x : number) : Result Z :=
  match x with
  | Integer z => Ok z
  | NonInteger d =>
      match Num.toZ d with
      | Some z => Ok z
      | None => Throw RangeError
      end
  end.

(** [BigInt(v)] for [v : number | bigint]. *)
Definition BigIntOfNumeric (v : NumberOrBigInt) : Result Z :=
  match v with
  | ABigInt n => Ok n
  | ANumber x => BigIntOfNumber x
  end.

End Js.

(** ** Permit data model ([types.ts]) *)

Definition Bytes : Type := list Z.
Definition PublicKey : Type := Bytes.

Inductive KeyType : Type := Ed25519 | Secp256k1.
Inductive ClusterType : Type := Mainnet | Testnet | Devnet | Localnet.
Inductive HealthMetric : Type := Initial | Maintenance | RatioBps.

Record PermitDomain : Type := {
  programId : PublicKey;
  version : Z;
  cluster : ClusterType
}.

Record HealthFloor : Type := {
  metric : HealthMetric;
  min : Z
}.

Inductive ReplayMode : Type :=
| Sequence (expected : Z)
| Nonce (salt : Bytes)
| Allowance (id : Bytes)
| HlWindow (k : Z).

Inductive TimeInForceValue : Type :=
| IOC
| FOK
| GTC
| ALO
| GTT (timestamp : Z).

Inductive PermitAction : Type :=
| Place (marketId clientId side qty : Z) (price : option Z)
        (tif : TimeInForceValue) (reduceOnly : bool)
        (triggerPrice : option Z) (triggerType : Z)
        (healthFloor : option HealthFloor)
| Modify (marketId cancelOrderId newClientId side qty : Z) (price : option Z)
         (tif : TimeInForceValue) (reduceOnly : bool)
         (triggerPrice : option Z) (triggerType : Z)
         (healthFloor : option HealthFloor)
| CancelById (marketId orderId : Z)
| CancelByClientId (marketId clientId : Z)
| CancelAll (marketId : option Z)
| Faucet (marketId amount : Z) (recipient : PublicKey)
| Withdraw (amount : Z) (toOwner : PublicKey) (healthFloor : option HealthFloor)
| SetLeverage (marketId : Z) (targetLeverageBps : number)
              (healthFloor : option HealthFloor)
| Noop.

Record PermitEnvelopeV1 : Type := {
  domain : PermitDomain;
  authorizer : PublicKey;
  keyType : KeyType;
  action : PermitAction;
  mode : ReplayMode;
  expiresUnix : Z;
  maxFeeQuote : Z;
  relayer : option PublicKey;
  nonce : Z
}.

(** ** The layout library *)

Module Borsh.

(** The JavaScript values a layout reads: [null], a number, a [BN], a
    boolean, a byte array ([Uint8Array] or [PublicKey]) and an object with its
    properties in order. *)
Inductive JsValue : Type :=
| JNull
| JNumber (n : Z)
| JBN (n : Z)
| JBool (b : bool)
| JBytes (bs : Bytes)
| JObject (props : list (string * JsValue)).

(** The layouts the schemas use.  A struct lists its fields by property name,
    a rust enum its variants by name, in discriminant order. *)
Inductive Layout : Type :=
| UInt (span : nat)
| BNLayout (span : nat) (signed : bool)
| BoolLayout
| PublicKeyLayout
| ArrayU8 (count : nat)
| OptionLayout (inner : Layout)
| Structure (fields : list (string * Layout))
| Union (variants : list (string * Layout)).

Definition u8 : Layout := UInt 1.
Definition u16 : Layout := UInt 2.
Definition u64 : Layout := BNLayout 8 false.
Definition i64 : Layout := BNLayout 8 true.
Definition u128 : Layout := BNLayout 16 false.
Definition bool : Layout := BoolLayout.
Definition publicKey : Layout := PublicKeyLayout.
Definition option (inner : Layout) : Layout := OptionLayout inner.
Definition struct (fields : list (string * Layout)) : Layout := Structure fields.
Definition rustEnum (variants : list (string * Layout)) : Layout := Union variants.

(** [n] on [span] bytes, least significant first. *)
Fixpoint toLE (span : nat) (n : Z) : Bytes :=
  match span with
  | O => []
  | S span' => (n mod 256) :: toLE span' (n / 256)
  end.

Fixpoint fromLE (b : Bytes) : Z :=
  match b with
  | [] => 0
  | x :: b' => x + 256 * fromLE b'
  end.

Definition isByte (x : Z) : Datatypes.bool := (0 <=? x) && (x <? 256).

(** [src[property]]; [None] when the object has no such property. *)
Fixpoint getProp (props : list (string * JsValue)) (property : string)
    : Datatypes.option JsValue :=
  match props with
  | [] => None
  | (p, v) :: props' => if String.eqb p property then Some v else getProp props' property
  end.

Section Fields.

(** The encoder and decoder of a single layout, which the loops over a
    struct's fields and an enum's variants call. *)
Variable encodeLayout : Layout -> JsValue -> Datatypes.option Bytes.
Variable decodeLayout : Layout -> Bytes -> Datatypes.option (JsValue * Bytes).

(** The fields of a struct, in order, each read from the property of its
    name. *)
Fixpoint encodeFields (props : list (string * JsValue)) (fs : list (string * Layout))
    : Datatypes.option Bytes :=
  match fs with
  | [] => Some []
  | (property, fl) :: fs' =>
      match getProp props property with
      | Some v =>
          match encodeLayout fl v, encodeFields props fs' with
          | Some b1, Some b2 => Some (b1 ++ b2)
          | _, _ => None
          end
      | None => None
      end
  end.

(** The first variant whose name is a property of the object, after its
    discriminant. *)
Fixpoint encodeVariant (props : list (string * JsValue)) (vs : list (string * Layout))
    (tag : Z) : Datatypes.option Bytes :=
  match vs with
  | [] => None
  | (name, vl) :: vs' =>
      match getProp props name with
      | Some v => option_map (cons tag) (encodeLayout vl v)
      | None => encodeVariant props vs' (tag + 1)
      end
  end.

Fixpoint decodeFields (fs : list (string * Layout)) (b : Bytes)
    : Datatypes.option (list (string * JsValue) * Bytes) :=
  match fs with
  | [] => Some ([], b)
  | (property, fl) :: fs' =>
      match decodeLayout fl b with
      | Some (v, b') =>
          match decodeFields fs' b' with
          | Some (props, b'') => Some ((property, v) :: props, b'')
          | None => None
          end
      | None => None
      end
  end.

(** The variant of discriminant [tag]. *)
Fixpoint decodeVariant (vs : list (string * Layout)) (tag : Z) (b : Bytes)
    : Datatypes.option (JsValue * Bytes) :=
  match vs with
  | [] => None
  | (name, vl) :: vs' =>
      if tag =? 0 then
        match decodeLayout vl b with
        | Some (v, b') => Some (JObject [(name, v)], b')
        | None => None
        end
      else decodeVariant vs' (tag - 1) b
  end.

End Fields.

(** Modelled from the spec: the layout interpreter is the borsh dependency,
    which the repository does not contain; [encode] follows the encoding
    rules of section 4.1: fixed-width little-endian fields, a one-byte
    discriminant before a tagged union's payload, a one-byte presence flag
    before an optional value, one byte (0/1) for a boolean, no padding.  A
    numeric field that exceeds its declared width, a value of the wrong kind
    and an object that lacks a field do not encode ([None]). *)
Fixpoint encode (l : Layout) (src : JsValue) {struct l} : Datatypes.option Bytes :=
  match l with
  | UInt span =>
      match src with
      | JNumber n =>
          if (0 <=? n) && (n <? 256 ^ Z.of_nat span) then Some (toLE span n) else None
      | _ => None
      end
  | BNLayout span signed =>
      match src with
      | JBN n =>
          let width := 256 ^ Z.of_nat span in
          if signed then
            if (- (width / 2) <=? n) && (n <? width / 2)
            then Some (toLE span (n mod width)) else None
          else
            if (0 <=? n) && (n <? width) then Some (toLE span n) else None
      | _ => None
      end
  | BoolLayout =>
      match src with
      | JBool b => Some [if b then 1 else 0]
      | _ => None
      end
  | PublicKeyLayout =>
      match src with
      | JBytes bs => if (List.length bs =? 32)%nat then Some bs else None
      | _ => None
      end
  | ArrayU8 count =>
      match src with
      | JBytes bs =>
          if (List.length bs =? count)%nat && forallb isByte bs then Some bs else None
      | _ => None
      end
  | OptionLayout inner =>
      match src with
      | JNull => Some [0]
      | _ => option_map (cons 1) (encode inner src)
      end
  | Structure fields =>
      match src with
      | JObject props => encodeFields encode props fields
      | _ => None
      end
  | Union variants =>
      match src with
      | JObject props => encodeVariant encode props variants 0
      | _ => None
      end
  end.

(** Modelled from the spec: the repository contains no decoder.  [decode]
    reads a value of the layout off the front of [b] by the same rules, and
    fails ([None]) on truncated input, an unknown discriminant and an option
    or boolean byte not in {0, 1}; it returns the value with the bytes left. *)
Fixpoint decode (l : Layout) (b : Bytes) {struct l} : Datatypes.option (JsValue * Bytes) :=
  match l with
  | UInt span =>
      if (List.length b <? span)%nat then None
      else Some (JNumber (fromLE (firstn span b)), skipn span b)
  | BNLayout span signed =>
      if (List.length b <? span)%nat then None
      else
        let width := 256 ^ Z.of_nat span in
        let u := fromLE (firstn span b) in
        Some (JBN (if signed && (width / 2 <=? u) then u - width else u), skipn span b)
  | BoolLayout =>
      match b with
      | 0 :: b' => Some (JBool false, b')
      | 1 :: b' => Some (JBool true, b')
      | _ => None
      end
  | PublicKeyLayout =>
      if (List.length b <? 32)%nat then None
      else Some (JBytes (firstn 32 b), skipn 32 b)
  | ArrayU8 count =>
      if (List.length b <? count)%nat then None
      else Some (JBytes (firstn count b), skipn count b)
  | OptionLayout inner =>
      match b with
      | 0 :: b' => Some (JNull, b')
      | 1 :: b' => decode inner b'
      | _ => None
      end
  | Structure fields =>
      match decodeFields decode fields b with
      | Some (props, b') => Some (JObject props, b')
      | None => None
      end
  | Union variants =>
      match b with
      | [] => None
      | tag :: b' => decodeVariant decode variants tag b'
      end
  end.

(** [encode] and [decode] agree on [src]: it encodes to [bytes], and
    [bytes] before any [rest] decodes to [out] with [rest] left. *)
Definition RoundTrip (l : Layout) (src : JsValue) (bytes : Bytes) (out : JsValue) : Prop :=
  encode l src = Some bytes /\
  forall rest, decode l (bytes ++ rest) = Some (out, rest).

End Borsh.

(** ** Schemas and canonical encoding ([types.ts]) *)

Definition KeyType_code (k : KeyType) : Z :=
  match k with Ed25519 => 0 | Secp256k1 => 1 end.

Definition ClusterType_code (c : ClusterType) : Z :=
  match c with Mainnet => 0 | Testnet => 1 | Devnet => 2 | Localnet => 3 end.

Definition HealthMetric_code (m : HealthMetric) : Z :=
  match m with Initial => 0 | Maintenance => 1 | RatioBps => 2 end.

Definition permitDomainSchema : Borsh.Layout :=
  Borsh.struct [
    ("programId", Borsh.publicKey);
    ("cluster", Borsh.u8);
    ("version", Borsh.u8)
  ].

Definition healthFloorSchema : Borsh.Layout :=
  Borsh.struct [
    ("metric", Borsh.u8);
    ("min", Borsh.i64)
  ].

Definition tifSchema : Borsh.Layout :=
  Borsh.rustEnum [
    ("IOC", Borsh.struct []);
    ("FOK", Borsh.struct []);
    ("GTC", Borsh.struct []);
    ("ALO", Borsh.struct []);
    ("GTT", Borsh.struct [("timestamp", Borsh.u64)])
  ].

Definition replayModeSchema : Borsh.Layout :=
  Borsh.rustEnum [
    ("Sequence", Borsh.struct [("expected", Borsh.u64)]);
    ("Nonce", Borsh.struct [("salt", Borsh.ArrayU8 32)]);
    ("Allowance", Borsh.struct [("id", Borsh.ArrayU8 32)]);
    ("HlWindow", Borsh.struct [("k", Borsh.u8)])
  ].

Definition permitActionSchema : Borsh.Layout :=
  Borsh.rustEnum [
    ("Place", Borsh.struct [
       ("marketId", Borsh.u64);
       ("clientId", Borsh.u128);
       ("side", Borsh.u8);
       ("qty", Borsh.u64);
       ("price", Borsh.option Borsh.u64);
       ("tif", tifSchema);
       ("reduceOnly", Borsh.bool);
       ("triggerPrice", Borsh.option Borsh.u64);
       ("triggerType", Borsh.u8);
       ("healthFloor", Borsh.option healthFloorSchema)
     ]);
    ("CancelById", Borsh.struct [("marketId", Borsh.u64); ("orderId", Borsh.u64)]);
    ("CancelByClientId",
     Borsh.struct [("marketId", Borsh.u64); ("clientId", Borsh.u128)]);
    ("CancelAll", Borsh.struct [("marketId", Borsh.option Borsh.u64)]);
    ("Modify", Borsh.struct [
       ("marketId", Borsh.u64);
       ("cancelOrderId", Borsh.u64);
       ("newClientId", Borsh.u128);
       ("side", Borsh.u8);
       ("qty", Borsh.u64);
       ("price", Borsh.option Borsh.u64);
       ("tif", tifSchema);
       ("reduceOnly", Borsh.bool);
       ("triggerPrice", Borsh.option Borsh.u64);
       ("triggerType", Borsh.u8);
       ("healthFloor", Borsh.option healthFloorSchema)
     ]);
    ("Withdraw", Borsh.struct [
       ("amount", Borsh.u64);
       ("toOwner", Borsh.publicKey);
       ("healthFloor", Borsh.option healthFloorSchema)
     ]);
    ("SetLeverage", Borsh.struct [
       ("marketId", Borsh.u64);
       ("targetLeverageBps", Borsh.u16);
       ("healthFloor", Borsh.option healthFloorSchema)
     ]);
    ("Noop", Borsh.struct []);
    ("Faucet", Borsh.struct [
       ("marketId", Borsh.u64);
       ("amount", Borsh.u64);
       ("recipient", Borsh.publicKey)
     ])
  ].

Definition permitEnvelopeSchema : Borsh.Layout :=
  Borsh.struct [
    ("domain", permitDomainSchema);
    ("authorizer", Borsh.publicKey);
    ("keyType", Borsh.u8);
    ("action", permitActionSchema);
    ("mode", replayModeSchema);
    ("expiresUnix", Borsh.i64);
    ("maxFeeQuote", Borsh.u64);
    ("relayer", Borsh.option Borsh.publicKey);
    ("nonce", Borsh.u64)
  ].

(** [toBN(value)]: the decimal string of an integer read back as a [BN]. *)
Definition toBN (value : Z) : Borsh.JsValue := Borsh.JBN value.

Definition toBorshHealthFloor (floor : option HealthFloor) : Borsh.JsValue :=
  match floor with
  | None => Borsh.JNull
  | Some floor =>
      Borsh.JObject [
        ("metric", Borsh.JNumber (HealthMetric_code (metric floor)));
        ("min", toBN (min floor))
      ]
  end.

Definition toBorshTif (tif : TimeInForceValue) : Borsh.JsValue :=
  match tif with
  | IOC => Borsh.JObject [("IOC", Borsh.JObject [])]
  | FOK => Borsh.JObject [("FOK", Borsh.JObject [])]
  | GTC => Borsh.JObject [("GTC", Borsh.JObject [])]
  | ALO => Borsh.JObject [("ALO", Borsh.JObject [])]
  | GTT timestamp =>
      Borsh.JObject [("GTT", Borsh.JObject [("timestamp", toBN timestamp)])]
  end.

(** [v !== null ? toBN(v) : null] *)
Definition toBNOrNull (v : option Z) : Borsh.JsValue :=
  match v with
  | Some n => toBN n
  | None => Borsh.JNull
  end.

(** [toBorshAction(action)].  The number [targetLeverageBps] is given to the
    16-bit layout as the layout's byte writer reads it. *)
Definition toBorshAction (action : PermitAction) : Borsh.JsValue :=
  match action with
  | Place marketId clientId side qty price tif reduceOnly triggerPrice triggerType
          healthFloor =>
      Borsh.JObject [("Place", Borsh.JObject [
        ("marketId", toBN marketId);
        ("clientId", toBN clientId);
        ("side", Borsh.JNumber side);
        ("qty", toBN qty);
        ("price", toBNOrNull price);
        ("tif", toBorshTif tif);
        ("reduceOnly", Borsh.JBool reduceOnly);
        ("triggerPrice", toBNOrNull triggerPrice);
        ("triggerType", Borsh.JNumber triggerType);
        ("healthFloor", toBorshHealthFloor healthFloor)
      ])]
  | CancelById marketId orderId =>
      Borsh.JObject [("CancelById", Borsh.JObject [
        ("marketId", toBN marketId);
        ("orderId", toBN orderId)
      ])]
  | CancelByClientId marketId clientId =>
      Borsh.JObject [("CancelByClientId", Borsh.JObject [
        ("marketId", toBN marketId);
        ("clientId", toBN clientId)
      ])]
  | CancelAll marketId =>
      Borsh.JObject [("CancelAll", Borsh.JObject [
        ("marketId", toBNOrNull marketId)
      ])]
  | Modify marketId cancelOrderId newClientId side qty price tif reduceOnly
           triggerPrice triggerType healthFloor =>
      Borsh.JObject [("Modify", Borsh.JObject [
        ("marketId", toBN marketId);
        ("cancelOrderId", toBN cancelOrderId);
        ("newClientId", toBN newClientId);
        ("side", Borsh.JNumber side);
        ("qty", toBN qty);
        ("price", toBNOrNull price);
        ("tif", toBorshTif tif);
        ("reduceOnly", Borsh.JBool reduceOnly);
        ("triggerPrice", toBNOrNull triggerPrice);
        ("triggerType", Borsh.JNumber triggerType);
        ("healthFloor", toBorshHealthFloor healthFloor)
      ])]
  | Withdraw amount toOwner healthFloor =>
      Borsh.JObject [("Withdraw", Borsh.JObject [
        ("amount", toBN amount);
        ("toOwner", Borsh.JBytes toOwner);
        ("healthFloor", toBorshHealthFloor healthFloor)
      ])]
  | Faucet marketId amount recipient =>
      Borsh.JObject [("Faucet", Borsh.JObject [
        ("marketId", toBN marketId);
        ("amount", toBN amount);
        ("recipient", Borsh.JBytes recipient)
      ])]
  | SetLeverage marketId targetLeverageBps healthFloor =>
      Borsh.JObject [("SetLeverage", Borsh.JObject [
        ("marketId", toBN marketId);
        ("targetLeverageBps", Borsh.JNumber (Num.toUInt 65535 targetLeverageBps));
        ("healthFloor", toBorshHealthFloor healthFloor)
      ])]
  | Noop => Borsh.JObject [("Noop", Borsh.JObject [])]
  end.

Definition toBorshReplayMode (mode : ReplayMode) : Borsh.JsValue :=
  match mode with
  | Sequence expected =>
      Borsh.JObject [("Sequence", Borsh.JObject [("expected", toBN expected)])]
  | Nonce salt => Borsh.JObject [("Nonce", Borsh.JObject [("salt", Borsh.JBytes salt)])]
  | Allowance id => Borsh.JObject [("Allowance", Borsh.JObject [("id", Borsh.JBytes id)])]
  | HlWindow k => Borsh.JObject [("HlWindow", Borsh.JObject [("k", Borsh.JNumber k)])]
  end.

(** The object [encodePermitEnvelope] hands to the schema. *)
Definition serializable (envelope : PermitEnvelopeV1) : Borsh.JsValue :=
  Borsh.JObject [
    ("domain", Borsh.JObject [
       ("programId", Borsh.JBytes (programId (domain envelope)));
       ("cluster", Borsh.JNumber (ClusterType_code (cluster (domain envelope))));
       ("version", Borsh.JNumber (version (domain envelope)))
     ]);
    ("authorizer", Borsh.JBytes (authorizer envelope));
    ("keyType", Borsh.JNumber (KeyType_code (keyType envelope)));
    ("action", toBorshAction (action envelope));
    ("mode", toBorshReplayMode (mode envelope));
    ("expiresUnix", toBN (expiresUnix envelope));
    ("maxFeeQuote", toBN (maxFeeQuote envelope));
    ("relayer", match relayer envelope with
                | Some key => Borsh.JBytes key
                | None => Borsh.JNull
                end);
    ("nonce", toBN (nonce envelope))
  ].

(** [encodePermitEnvelope(envelope)]: the schema writes into a buffer of 512
    bytes, of which the written prefix is returned; a write past the buffer
    and a value the schema does not encode throw. *)
Definition encodePermitEnvelope (envelope : PermitEnvelopeV1) : Result Bytes :=
  match Borsh.encode permitEnvelopeSchema (serializable envelope) with
  | Some bytes => if (List.length bytes <=? 512)%nat then Ok bytes else Throw RangeError
  | None => Throw RangeError
  end.

(** ** Decoding *)

Inductive DecodeError : Type := MalformedEnvelope.

Definition obind {A B : Type} (m : option A) (f : A -> option B) : option B :=
  match m with
  | Some a => f a
  | None => None
  end.

Notation "'oget' x <- m ; k" := (obind m (fun x => k))
  (at level 10, x name, m at level 100, k at level 200).

Definition getBN (props : list (string * Borsh.JsValue)) (property : string) : option Z :=
  match Borsh.getProp props property with
  | Some (Borsh.JBN n) => Some n
  | _ => None
  end.

Definition getNumber (props : list (string * Borsh.JsValue)) (property : string)
    : option Z :=
  match Borsh.getProp props property with
  | Some (Borsh.JNumber n) => Some n
  | _ => None
  end.

Definition getBool (props : list (string * Borsh.JsValue)) (property : string)
    : option bool :=
  match Borsh.getProp props property with
  | Some (Borsh.JBool b) => Some b
  | _ => None
  end.

Definition getBytes (props : list (string * Borsh.JsValue)) (property : string)
    : option Bytes :=
  match Borsh.getProp props property with
  | Some (Borsh.JBytes bs) => Some bs
  | _ => None
  end.

Definition getOptionBN (props : list (string * Borsh.JsValue)) (property : string)
    : option (option Z) :=
  match Borsh.getProp props property with
  | Some Borsh.JNull => Some None
  | Some (Borsh.JBN n) => Some (Some n)
  | _ => None
  end.

Definition getOptionBytes (props : list (string * Borsh.JsValue)) (property : string)
    : option (option Bytes) :=
  match Borsh.getProp props property with
  | Some Borsh.JNull => Some None
  | Some (Borsh.JBytes bs) => Some (Some bs)
  | _ => None
  end.

Definition KeyType_of_code (n : Z) : option KeyType :=
  if n =? 0 then Some Ed25519 else if n =? 1 then Some Secp256k1 else None.

Definition ClusterType_of_code (n : Z) : option ClusterType :=
  if n =? 0 then Some Mainnet else if n =? 1 then Some Testnet
  else if n =? 2 then Some Devnet else if n =? 3 then Some Localnet else None.

Definition HealthMetric_of_code (n : Z) : option HealthMetric :=
  if n =? 0 then Some Initial else if n =? 1 then Some Maintenance
  else if n =? 2 then Some RatioBps else None.

(** Modelled from the spec: the inverse of [toBorshHealthFloor]; an unknown
    metric discriminant is malformed. *)
Definition fromBorshHealthFloor (props : list (string * Borsh.JsValue))
    (property : string) : option (option HealthFloor) :=
  match Borsh.getProp props property with
  | Some Borsh.JNull => Some None
  | Some (Borsh.JObject floor) =>
      oget code <- getNumber floor "metric";
      oget metric <- HealthMetric_of_code code;
      oget min <- getBN floor "min";
      Some (Some {| metric := metric; min := min |})
  | _ => None
  end.

(** Modelled from the spec: the inverse of [toBorshTif]. *)
Definition fromBorshTif (props : list (string * Borsh.JsValue)) (property : string)
    : option TimeInForceValue :=
  match Borsh.getProp props property with
  | Some (Borsh.JObject [(name, Borsh.JObject payload)]) =>
      if String.eqb name "IOC" then Some IOC
      else if String.eqb name "FOK" then Some FOK
      else if String.eqb name "GTC" then Some GTC
      else if String.eqb name "ALO" then Some ALO
      else if String.eqb name "GTT" then option_map GTT (getBN payload "timestamp")
      else None
  | _ => None
  end.

(** Modelled from the spec: the inverse of [toBorshAction]. *)
Definition fromBorshAction (props : list (string * Borsh.JsValue)) (property : string)
    : option PermitAction :=
  match Borsh.getProp props property with
  | Some (Borsh.JObject [(name, Borsh.JObject f)]) =>
      if String.eqb name "Place" then
        oget marketId <- getBN f "marketId";
        oget clientId <- getBN f "clientId";
        oget side <- getNumber f "side";
        oget qty <- getBN f "qty";
        oget price <- getOptionBN f "price";
        oget tif <- fromBorshTif f "tif";
        oget reduceOnly <- getBool f "reduceOnly";
        oget triggerPrice <- getOptionBN f "triggerPrice";
        oget triggerType <- getNumber f "triggerType";
        oget healthFloor <- fromBorshHealthFloor f "healthFloor";
        Some (Place marketId clientId side qty price tif reduceOnly triggerPrice
                    triggerType healthFloor)
      else if String.eqb name "CancelById" then
        oget marketId <- getBN f "marketId";
        oget orderId <- getBN f "orderId";
        Some (CancelById marketId orderId)
      else if String.eqb name "CancelByClientId" then
        oget marketId <- getBN f "marketId";
        oget clientId <- getBN f "clientId";
        Some (CancelByClientId marketId clientId)
      else if String.eqb name "CancelAll" then
        oget marketId <- getOptionBN f "marketId";
        Some (CancelAll marketId)
      else if String.eqb name "Modify" then
        oget marketId <- getBN f "marketId";
        oget cancelOrderId <- getBN f "cancelOrderId";
        oget newClientId <- getBN f "newClientId";
        oget side <- getNumber f "side";
        oget qty <- getBN f "qty";
        oget price <- getOptionBN f "price";
        oget tif <- fromBorshTif f "tif";
        oget reduceOnly <- getBool f "reduceOnly";
        oget triggerPrice <- getOptionBN f "triggerPrice";
        oget triggerType <- getNumber f "triggerType";
        oget healthFloor <- fromBorshHealthFloor f "healthFloor";
        Some (Modify marketId cancelOrderId newClientId side qty price tif reduceOnly
                     triggerPrice triggerType healthFloor)
      else if String.eqb name "Withdraw" then
        oget amount <- getBN f "amount";
        oget toOwner <- getBytes f "toOwner";
        oget healthFloor <- fromBorshHealthFloor f "healthFloor";
        Some (Withdraw amount toOwner healthFloor)
      else if String.eqb name "SetLeverage" then
        oget marketId <- getBN f "marketId";
        oget targetLeverageBps <- getNumber f "targetLeverageBps";
        oget healthFloor <- fromBorshHealthFloor f "healthFloor";
        Some (SetLeverage marketId (Integer targetLeverageBps) healthFloor)
      else if String.eqb name "Noop" then Some Noop
      else if String.eqb name "Faucet" then
        oget marketId <- getBN f "marketId";
        oget amount <- getBN f "amount";
        oget recipient <- getBytes f "recipient";
        Some (Faucet marketId amount recipient)
      else None
  | _ => None
  end.

(** Modelled from the spec: the inverse of [toBorshReplayMode]. *)
Definition fromBorshReplayMode (props : list (string * Borsh.JsValue))
    (property : string) : option ReplayMode :=
  match Borsh.getProp props property with
  | Some (Borsh.JObject [(name, Borsh.JObject f)]) =>
      if String.eqb name "Sequence" then option_map Sequence (getBN f "expected")
      else if String.eqb name "Nonce" then option_map Nonce (getBytes f "salt")
      else if String.eqb name "Allowance" then option_map Allowance (getBytes f "id")
      else if String.eqb name "HlWindow" then option_map HlWindow (getNumber f "k")
      else None
  | _ => None
  end.

(** Modelled from the spec: the envelope a decoded object stands for, the
    inverse of [serializable]; an unknown cluster or key type is malformed. *)
Definition fromBorshEnvelope (v : Borsh.JsValue) : option PermitEnvelopeV1 :=
  match v with
  | Borsh.JObject props =>
      match Borsh.getProp props "domain" with
      | Some (Borsh.JObject d) =>
          oget programId <- getBytes d "programId";
          oget clusterCode <- getNumber d "cluster";
          oget cluster <- ClusterType_of_code clusterCode;
          oget version <- getNumber d "version";
          oget authorizer <- getBytes props "authorizer";
          oget keyCode <- getNumber props "keyType";
          oget keyType <- KeyType_of_code keyCode;
          oget action <- fromBorshAction props "action";
          oget mode <- fromBorshReplayMode props "mode";
          oget expiresUnix <- getBN props "expiresUnix";
          oget maxFeeQuote <- getBN props "maxFeeQuote";
          oget relayer <- getOptionBytes props "relayer";
          oget nonce <- getBN props "nonce";
          Some {| domain := {| programId := programId; version := version;
                               cluster := cluster |};
                  authorizer := authorizer; keyType := keyType; action := action;
                  mode := mode; expiresUnix := expiresUnix;
                  maxFeeQuote := maxFeeQuote; relayer := relayer; nonce := nonce |}
      | _ => None
      end
  | _ => None
  end.

(** Modelled from the spec: [decode(bytes) -> envelope | DecodeError], which
    the repository does not contain.  It reads the envelope schema off the
    bytes and fails with [MalformedEnvelope] on truncated input, an unknown
    discriminant and an option byte not in {0, 1}. *)
Definition decodePermitEnvelope (bytes : Bytes) : PermitEnvelopeV1 + DecodeError :=
  match Borsh.decode permitEnvelopeSchema bytes with
  | Some (v, _) =>
      match fromBorshEnvelope v with
      | Some envelope => inl envelope
      | None => inr MalformedEnvelope
      end
  | None => inr MalformedEnvelope
  end.

(** ** Signer ([signer.ts]) *)

Module Buffer.

(** [Buffer.alloc(n)] *)
Definition alloc (n : nat) : Bytes := List.repeat 0 n.

(** [buf[i] = v]; an index past the end is ignored. *)
Definition setIndex (buf : Bytes) (i : nat) (v : Z) : Bytes :=
  if (i <? List.length buf)%nat
  then firstn i buf ++ [v mod 256] ++ skipn (S i) buf
  else buf.

(** [buf.writeUInt16LE(value, offset)]; a value outside 16 bits and an offset
    past the end throw a RangeError. *)
Definition writeUInt16LE (buf : Bytes) (value : Z) (offset : nat) : Result Bytes :=
  if (0 <=? value) && (value <=? 65535) && (offset + 2 <=? List.length buf)%nat
  then Ok (firstn offset buf ++ [value mod 256; value / 256] ++ skipn (offset + 2) buf)
  else Throw RangeError.

(** [buf.set(src, offset)]; a source that does not fit throws a RangeError. *)
Definition set (buf src : Bytes) (offset : nat) : Result Bytes :=
  if (offset + List.length src <=? List.length buf)%nat
  then Ok (firstn offset buf ++ src ++ skipn (offset + List.length src) buf)
  else Throw RangeError.

(** [buf.readUInt16LE(offset)], used to state the header's fields. *)
Definition readUInt16LE (buf : Bytes) (offset : nat) : Z :=
  nth offset buf 0 + 256 * nth (S offset) buf 0.

(** [buf.slice(offset, offset + len)] *)
Definition slice (buf : Bytes) (offset len : nat) : Bytes :=
  firstn len (skipn offset buf).

(** [Buffer.from(s)] for a string of ASCII characters. *)
Definition fromString (s : string) : Bytes :=
  map (fun c => Z.of_nat (nat_of_ascii c)) (list_ascii_of_string s).

(** [Buffer.concat(list)] *)
Definition concat (bufs : list Bytes) : Bytes := List.concat bufs.

(** [buf.writeUInt32LE(value, offset)]; a value outside 32 bits and an offset
    past the end throw a RangeError. *)
Definition writeUInt32LE (buf : Bytes) (value : Z) (offset : nat) : Result Bytes :=
  if (0 <=? value) && (value <=? 4294967295) && (offset + 4 <=? List.length buf)%nat
  then Ok (firstn offset buf ++ Borsh.toLE 4 value ++ skipn (offset + 4) buf)
  else Throw RangeError.

(** [buf.writeBigInt64LE(value, offset)]: the value in two's complement; a
    value outside the signed 64 bits and an offset past the end throw a
    RangeError. *)
Definition writeBigInt64LE (buf : Bytes) (value : Z) (offset : nat) : Result Bytes :=
  if (- 2 ^ 63 <=? value) && (value <? 2 ^ 63) && (offset + 8 <=? List.length buf)%nat
  then Ok (firstn offset buf ++ Borsh.toLE 8 (value mod 2 ^ 64) ++ skipn (offset + 8) buf)
  else Throw RangeError.

(** [buf.writeBigUInt64LE(value, offset)]; a value outside the unsigned 64
    bits and an offset past the end throw a RangeError. *)
Definition writeBigUInt64LE (buf : Bytes) (value : Z) (offset : nat) : Result Bytes :=
  if (0 <=? value) && (value <? 2 ^ 64) && (offset + 8 <=? List.length buf)%nat
  then Ok (firstn offset buf ++ Borsh.toLE 8 value ++ skipn (offset + 8) buf)
  else Throw RangeError.

(** [buf.toString("hex")]: two lower-case digits a byte. *)
Fixpoint toHex (buf : Bytes) : string :=
  match buf with
  | [] => EmptyString
  | b :: rest =>
      let n := Z.to_nat b in
      String (Js.hexDigit (n / 16)) (String (Js.hexDigit (n mod 16)) (toHex rest))
  end.

Definition base64Alphabet : string :=
  "ABCDEFGHIJKLMNOPQRSTUVWXYZabcdefghijklmnopqrstuvwxyz0123456789+/".

Definition base64Digit (n : Z) : ascii :=
  match String.get (Z.to_nat n) base64Alphabet with
  | Some c => c
  | None => "="%char
  end.

(** [buf.toString("base64")]: four characters for every three bytes, the
    last group padded with "=". *)
Fixpoint toBase64 (buf : Bytes) : string :=
  match buf with
  | [] => EmptyString
  | [a] =>
      String (base64Digit (a / 4)) (String (base64Digit (a mod 4 * 16)) "==")
  | [a; b] =>
      String (base64Digit (a / 4))
        (String (base64Digit (a mod 4 * 16 + b / 16))
           (String (base64Digit (b mod 16 * 4)) "="))
  | a :: b :: c :: rest =>
      String (base64Digit (a / 4))
        (String (base64Digit (a mod 4 * 16 + b / 16))
           (String (base64Digit (b mod 16 * 4 + c / 64))
              (String (base64Digit (c mod 64)) (toBase64 rest))))
  end.

End Buffer.

Record Keypair : Type := {
  publicKey : PublicKey;
  secretKey : Bytes
}.

Record TransactionInstruction : Type := {
  ix_keys : list PublicKey;
  ix_programId : PublicKey;
  ix_data : Bytes
}.

Record SignedPermit : Type := {
  sp_envelope : PermitEnvelopeV1;
  sp_signature : Bytes;
  sp_publicKey : PublicKey;
  sp_verifyInstruction : TransactionInstruction
}.

Record PermitSignature : Type := {
  ps_message : Bytes;
  ps_signature : Bytes;
  ps_publicKey : PublicKey
}.

Section Signer.

(** [nacl.sign.detached(message, secretKey)] of the tweetnacl dependency. *)
Variable nacl_sign_detached : Bytes -> Bytes -> Bytes.

(** [Ed25519Program.programId] of the web3 dependency. *)
Variable Ed25519Program_programId : PublicKey.

(** [generatePermitSignature(envelope, keypair)] *)
Definition generatePermitSignature (envelope : PermitEnvelopeV1) (keypair : Keypair)
    : Result PermitSignature :=
  do message <- encodePermitEnvelope envelope;
  let signature := nacl_sign_detached message (secretKey keypair) in
  Ok {| ps_message := message; ps_signature := signature;
        ps_publicKey := publicKey keypair |}.

(** [PermitSigner.createEd25519Instruction(signature, publicKey, message)] *)
Definition createEd25519Instruction (signature : Bytes) (publicKey : PublicKey)
    (message : Bytes) : Result TransactionInstruction :=
  let SIGNATURE_OFFSET := 16%nat in
  let PUBKEY_OFFSET := (SIGNATURE_OFFSET + 64)%nat in
  let MESSAGE_OFFSET := (PUBKEY_OFFSET + 32)%nat in
  let instructionData := Buffer.alloc (16 + 64 + 32 + List.length message) in
  let instructionData := Buffer.setIndex instructionData 0 1 in
  do instructionData <- Buffer.writeUInt16LE instructionData (Z.of_nat SIGNATURE_OFFSET) 1;
  do instructionData <- Buffer.writeUInt16LE instructionData 0 3;
  do instructionData <- Buffer.writeUInt16LE instructionData (Z.of_nat PUBKEY_OFFSET) 5;
  do instructionData <- Buffer.writeUInt16LE instructionData 0 7;
  do instructionData <- Buffer.writeUInt16LE instructionData (Z.of_nat MESSAGE_OFFSET) 9;
  do instructionData <-
    Buffer.writeUInt16LE instructionData (Z.of_nat (List.length message)) 11;
  do instructionData <- Buffer.writeUInt16LE instructionData 0 13;
  do instructionData <- Buffer.set instructionData signature SIGNATURE_OFFSET;
  do instructionData <- Buffer.set instructionData publicKey PUBKEY_OFFSET;
  do instructionData <- Buffer.set instructionData message MESSAGE_OFFSET;
  Ok {| ix_keys := []; ix_programId := Ed25519Program_programId;
        ix_data := instructionData |}.

(** [PermitSigner.sign(envelope, keypair)] *)
Definition sign (envelope : PermitEnvelopeV1) (keypair : Keypair) : Result SignedPermit :=
  do generated <- generatePermitSignature envelope keypair;
  do verifyInstruction <-
    createEd25519Instruction (ps_signature generated) (publicKey keypair)
                             (ps_message generated);
  Ok {| sp_envelope := envelope; sp_signature := ps_signature generated;
        sp_publicKey := publicKey keypair;
        sp_verifyInstruction := verifyInstruction |}.

(** [PermitSigner.signWithSession(envelope, sessionKeypair)] *)
Definition signWithSession (envelope : PermitEnvelopeV1) (sessionKeypair : Keypair)
    : Result SignedPermit :=
  let sessionEnvelope :=
    {| domain := domain envelope;
       authorizer := publicKey sessionKeypair;
       keyType := keyType envelope;
       action := action envelope;
       mode := mode envelope;
       expiresUnix := expiresUnix envelope;
       maxFeeQuote := maxFeeQuote envelope;
       relayer := relayer envelope;
       nonce := nonce envelope |} in
  sign sessionEnvelope sessionKeypair.

End Signer.

(** ** Exchange adapter ([hyperliquid.ts]): conversions *)

(** [decimalToFixed(value, decimals)] *)
Definition decimalToFixed (value : string) (decimals : nat) : Result Z :=
  let stringValue := value in
  let isNegative := Js.startsWith stringValue "-" in
  let unsigned :=
    if isNegative || Js.startsWith stringValue "+"
    then Js.slice1 stringValue
    else stringValue in
  let parts := Js.split "." unsigned in
  let whole := nth 0 parts EmptyString in
  let fraction := nth 1 parts EmptyString in
  let normalizedFraction :=
    Js.slice0 (fraction ++ Js.repeat "0" decimals)%string decimals in
  let digits := Js.stripLeadingZeros (whole ++ normalizedFraction)%string in
  do magnitude <- Js.BigInt (if String.eqb digits EmptyString then "0" else digits);
  Ok (if isNegative then - magnitude else magnitude).

(** [toTimeInForceValue(tif)] *)
Definition toTimeInForceValue (tif : string) : Result TimeInForceValue :=
  if String.eqb tif "Gtc" || String.eqb tif "GTC" then Ok GTC
  else if String.eqb tif "Ioc" || String.eqb tif "IOC" then Ok IOC
  else if String.eqb tif "Alo" || String.eqb tif "ALO" then Ok ALO
  else Throw (UnsupportedTimeInForce tif).

(** ** Exchange adapter: requests and context *)

(** [Map<K, V>] as the list of its entries in insertion order. *)
Module JsMap.
Section WithKey.
Context {K V : Type} (eqb : K -> K -> bool).

Fixpoint get (m : list (K * V)) (key : K) : option V :=
  match m with
  | [] => None
  | (k', v) :: m' => if eqb k' key then Some v else get m' key
  end.

Fixpoint set (m : list (K * V)) (key : K) (v : V) : list (K * V) :=
  match m with
  | [] => [(key, v)]
  | (k', v') :: m' =>
      if eqb k' key then (k', v) :: m' else (k', v') :: set m' key v
  end.

End WithKey.
End JsMap.

Record HyperliquidMarketConfig : Type := {
  index : Z;
  symbol : string;
  marketId : Z;
  baseDecimals : nat;
  quoteDecimals : nat
}.

Record MarketMaps : Type := {
  bySymbol : list (string * HyperliquidMarketConfig);
  byIndex : list (Z * HyperliquidMarketConfig)
}.

Record HyperliquidPermitContext : Type := {
  ctx_programId : PublicKey;
  ctx_clusterType : ClusterType;
  ctx_authorizer : PublicKey;
  ctx_relayer : option PublicKey;
  ctx_expirySeconds : option Z;
  ctx_hlWindowK : option Z;
  ctx_maxFeeQuote : option Z;
  ctx_markets : MarketMaps
}.

Record LimitSpec : Type := { limit_tif : option string }.

Record TriggerSpec : Type := {
  trigger_isMarket : bool;
  trigger_triggerPx : string;
  trigger_tpsl : string
}.

Record HyperliquidOrderType : Type := {
  limit : option LimitSpec;
  trigger : option TriggerSpec
}.

(** [HyperliquidOrderRequest]; a missing [b] or [r] is [false], as the code
    only tests their truthiness. *)
Record HyperliquidOrderRequest : Type := {
  order_a : option NumOrStr;
  order_b : bool;
  order_p : string;
  order_s : string;
  order_r : bool;
  order_t : option HyperliquidOrderType;
  order_c : option string
}.

(** An element of [cancels]: a [HyperliquidCancelRequest] or a
    [HyperliquidCancelByCloidRequest], with the properties it lacks
    undefined. *)
Record HyperliquidCancelItem : Type := {
  cancel_a : option NumOrStr;
  cancel_o : option NumOrStr;
  cancel_asset : option NumOrStr;
  cancel_cloid : option string
}.

Record HyperliquidModifyRequest : Type := {
  modify_oid : option NumOrStr;
  modify_order : HyperliquidOrderRequest
}.

(** [HyperliquidExchangeAction].  [action_self] holds the order properties
    ([a], [b], [p], [s], [r], [t], [c]) of the action object itself, which the
    "order" case reads when [order] is undefined. *)
Record HyperliquidExchangeAction : Type := {
  action_type : string;
  action_order : option HyperliquidOrderRequest;
  action_cancels : option (list HyperliquidCancelItem);
  action_asset : option NumOrStr;
  action_leverage : option number;
  action_amount : option NumOrStr;
  action_marketId : option NumOrStr;
  action_recipient : option string;
  action_orders : option (list HyperliquidOrderRequest);
  action_modifies : option (list HyperliquidModifyRequest);
  action_oid : option NumOrStr;
  action_self : HyperliquidOrderRequest
}.

Record HyperliquidExchangeRequest : Type := {
  req_action : HyperliquidExchangeAction;
  req_nonce : NumberOrBigInt
}.

(** The locals [action] and [baseNonce] of [buildPermitActions]: the action
    object of the request and its nonce as a bigint. *)
Record ReadRequest : Type := {
  read_action : HyperliquidExchangeAction;
  read_nonce : Z
}.

Definition DEFAULT_EXPIRY : Z := 60.
Definition DEFAULT_WINDOW_K : Z := 128.
Definition DEFAULT_MAX_FEE : Z := 1000000.

(** [createHyperliquidContext(markets, programId, authorizer, options)] with
    the options spelled out. *)
Definition createHyperliquidContext (markets : list HyperliquidMarketConfig)
    (programId authorizer : PublicKey)
    (clusterType : option ClusterType) (relayer : option PublicKey)
    (expirySeconds hlWindowK maxFeeQuote : option Z) : HyperliquidPermitContext :=
  let bySymbol :=
    fold_left (fun m cfg => JsMap.set String.eqb m (symbol cfg) cfg) markets [] in
  let byIndex :=
    fold_left (fun m cfg => JsMap.set Z.eqb m (index cfg) cfg) markets [] in
  {| ctx_programId := programId;
     ctx_authorizer := authorizer;
     ctx_clusterType := match clusterType with Some c => c | None => Testnet end;
     ctx_relayer := relayer;
     ctx_expirySeconds := Some (match expirySeconds with Some e => e | None => DEFAULT_EXPIRY end);
     ctx_hlWindowK := Some (match hlWindowK with Some w => w | None => DEFAULT_WINDOW_K end);
     ctx_maxFeeQuote := Some (match maxFeeQuote with Some f => f | None => DEFAULT_MAX_FEE end);
     ctx_markets := {| bySymbol := bySymbol; byIndex := byIndex |} |}.

(** [resolveMarket(identifier, context)]; an undefined identifier is no
    number, and [bySymbol.get(undefined)] finds nothing. *)
Definition resolveMarket (identifier : option NumOrStr)
    (context : HyperliquidPermitContext) : Result HyperliquidMarketConfig :=
  match identifier with
  | Some (Num n) =>
      match JsMap.get Z.eqb (byIndex (ctx_markets context)) n with
      | Some market => Ok market
      | None => Throw (UnknownMarketIndex n)
      end
  | Some (Str sym) =>
      match JsMap.get String.eqb (bySymbol (ctx_markets context)) sym with
      | Some market => Ok market
      | None => Throw (UnknownMarketSymbol (Some sym))
      end
  | None => Throw (UnknownMarketSymbol None)
  end.

Definition set_order_c (order : HyperliquidOrderRequest) (c : string)
    : HyperliquidOrderRequest :=
  {| order_a := order_a order; order_b := order_b order;
     order_p := order_p order; order_s := order_s order;
     order_r := order_r order; order_t := order_t order;
     order_c := Some c |}.

(** [!order.c]: the client id is undefined or the empty string. *)
Definition falsy (c : option string) : bool :=
  match c with
  | None => true
  | Some c' => String.eqb c' EmptyString
  end.

(** [ensureClientId(order)], with the clock reading [now] (milliseconds).
    The function assigns [order.c]; the order after the call is the second
    component. *)
Definition ensureClientId (now : Z) (order : HyperliquidOrderRequest)
    : Result Z * HyperliquidOrderRequest :=
  let order1 := if falsy (order_c order) then set_order_c order (Js.toString now) else order in
  let c := match order_c order1 with Some c' => c' | None => EmptyString end in
  match Js.BigInt c with
  | Ok n => (Ok n, order1)
  | Throw _ =>
      match Js.BigInt ("0x" ++ Js.toHex c)%string with
      | Ok hash => (Ok hash, set_order_c order1 (Js.toString hash))
      | Throw e => (Throw e, order1)
      end
  end.

(** [isCancelByCloidRequest(value)] *)
Definition isCancelByCloidRequest (value : HyperliquidCancelItem) : bool :=
  match cancel_cloid value with
  | Some _ => true
  | None => false
  end.

(** [order.t?.limit?.tif ?? "Gtc"] *)
Definition orderTif (order : HyperliquidOrderRequest) : string :=
  match order_t order with
  | Some t =>
      match limit t with
      | Some l => match limit_tif l with Some tif => tif | None => "Gtc" end
      | None => "Gtc"
      end
  | None => "Gtc"
  end.

(** [buildPlaceAction(order, market)]; the second component is the order
    after the call. *)
Definition buildPlaceAction (now : Z) (order : HyperliquidOrderRequest)
    (market : HyperliquidMarketConfig) : Result PermitAction * HyperliquidOrderRequest :=
  let (clientIdR, order') := ensureClientId now order in
  (do clientId <- clientIdR;
   do price <- decimalToFixed (order_p order') (quoteDecimals market);
   do size <- decimalToFixed (order_s order') (baseDecimals market);
   do tif <- toTimeInForceValue (orderTif order');
   Ok (Place (marketId market) clientId (if order_b order' then 0 else 1)
             size (Some price) tif (order_r order') None 0 None),
   order').

(** [buildModifyAction(modify, market)] *)
Definition buildModifyAction (now : Z) (modify : HyperliquidModifyRequest)
    (market : HyperliquidMarketConfig) : Result PermitAction * HyperliquidModifyRequest :=
  let order := modify_order modify in
  let (newClientIdR, order') := ensureClientId now order in
  (do newClientId <- newClientIdR;
   do price <- decimalToFixed (order_p order') (quoteDecimals market);
   do size <- decimalToFixed (order_s order') (baseDecimals market);
   do tif <- toTimeInForceValue (orderTif order');
   do cancelOrderId <- Js.BigIntOf (modify_oid modify);
   Ok (Modify (marketId market) cancelOrderId newClientId
              (if order_b order' then 0 else 1)
              size (Some price) tif (order_r order') None 0 None),
   {| modify_oid := modify_oid modify; modify_order := order' |}).

Record PermitActionInfo : Type := {
  permitAction : PermitAction;
  info_nonce : Z
}.

(** [items.forEach((item, idx) => add(f(item), idx))]: the callback runs on
    the items in order, from index [idx]; an exception ends the loop and
    leaves the later items untouched.  The result lists what was added, with
    the items as the callbacks left them. *)
Fixpoint forEachAdd {A : Type} (f : A -> Result PermitAction * A)
    (baseNonce : Z) (items : list A) (idx : Z)
    : Result (list PermitActionInfo) * list A :=
  match items with
  | [] => (Ok [], [])
  | item :: rest =>
      match f item with
      | (Ok permit, item') =>
          let (r, rest') := forEachAdd f baseNonce rest (idx + 1) in
          (do added <- r;
           Ok ({| permitAction := permit; info_nonce := baseNonce + idx |} :: added),
           item' :: rest')
      | (Throw e, item') => (Throw e, item' :: rest)
      end
  end.

Definition set_action_order (action : HyperliquidExchangeAction)
    (order : option HyperliquidOrderRequest) : HyperliquidExchangeAction :=
  {| action_type := action_type action; action_order := order;
     action_cancels := action_cancels action; action_asset := action_asset action;
     action_leverage := action_leverage action; action_amount := action_amount action;
     action_marketId := action_marketId action;
     action_recipient := action_recipient action;
     action_orders := action_orders action; action_modifies := action_modifies action;
     action_oid := action_oid action; action_self := action_self action |}.

Definition set_action_self (action : HyperliquidExchangeAction)
    (self : HyperliquidOrderRequest) : HyperliquidExchangeAction :=
  {| action_type := action_type action; action_order := action_order action;
     action_cancels := action_cancels action; action_asset := action_asset action;
     action_leverage := action_leverage action; action_amount := action_amount action;
     action_marketId := action_marketId action;
     action_recipient := action_recipient action;
     action_orders := action_orders action; action_modifies := action_modifies action;
     action_oid := action_oid action; action_self := self |}.

Definition set_action_orders (action : HyperliquidExchangeAction)
    (orders : option (list HyperliquidOrderRequest)) : HyperliquidExchangeAction :=
  {| action_type := action_type action; action_order := action_order action;
     action_cancels := action_cancels action; action_asset := action_asset action;
     action_leverage := action_leverage action; action_amount := action_amount action;
     action_marketId := action_marketId action;
     action_recipient := action_recipient action;
     action_orders := orders; action_modifies := action_modifies action;
     action_oid := action_oid action; action_self := action_self action |}.

Definition set_action_modifies (action : HyperliquidExchangeAction)
    (modifies : option (list HyperliquidModifyRequest)) : HyperliquidExchangeAction :=
  {| action_type := action_type action; action_order := action_order action;
     action_cancels := action_cancels action; action_asset := action_asset action;
     action_leverage := action_leverage action; action_amount := action_amount action;
     action_marketId := action_marketId action;
     action_recipient := action_recipient action;
     action_orders := action_orders action; action_modifies := modifies;
     action_oid := action_oid action; action_self := action_self action |}.

(** [list ?? []] *)
Definition orEmpty {A : Type} (l : option (list A)) : list A :=
  match l with
  | Some l' => l'
  | None => []
  end.

(** The written-back list: an undefined list stays undefined. *)
Definition writeBack {A : Type} (old : option (list A)) (l : list A) : option (list A) :=
  match old with
  | Some _ => Some l
  | None => None
  end.

Section Adapter.

(** [new PublicKey(s)] of the web3 dependency: the 32 bytes a base58 string
    names, or nothing when it names none. *)
Variable publicKeyFromString : string -> option PublicKey.

(** The "order" case on the order object [order] (either [action.order] or
    the action itself). *)
Definition orderCase (now baseNonce : Z) (order : HyperliquidOrderRequest)
    (context : HyperliquidPermitContext)
    : Result (list PermitActionInfo) * HyperliquidOrderRequest :=
  match order_a order with
  | None => (Ok [], order)
  | Some _ =>
      match resolveMarket (order_a order) context with
      | Throw e => (Throw e, order)
      | Ok market =>
          let (r, order') := buildPlaceAction now order market in
          (do permit <- r;
           Ok [{| permitAction := permit; info_nonce := baseNonce + 0 |}],
           order')
      end
  end.

(** The callback of the "cancel" case. *)
Definition cancelItem (context : HyperliquidPermitContext)
    (cancel : HyperliquidCancelItem) : Result PermitAction * HyperliquidCancelItem :=
  (do market <- resolveMarket (cancel_a cancel) context;
   do orderId <- Js.BigIntOf (cancel_o cancel);
   Ok (CancelById (marketId market) orderId),
   cancel).

(** The callback of the "cancelByCloid" case. *)
Definition cancelByCloidItem (context : HyperliquidPermitContext)
    (cancel : HyperliquidCancelItem) : Result PermitAction * HyperliquidCancelItem :=
  (if isCancelByCloidRequest cancel then
     do market <- resolveMarket (cancel_asset cancel) context;
     do clientId <- Js.BigIntOf (option_map Str (cancel_cloid cancel));
     Ok (CancelByClientId (marketId market) clientId)
   else Throw CancelByCloidFields,
   cancel).

(** The callback of the "batchOrder" case. *)
Definition batchOrderItem (now : Z) (context : HyperliquidPermitContext)
    (order : HyperliquidOrderRequest) : Result PermitAction * HyperliquidOrderRequest :=
  match resolveMarket (order_a order) context with
  | Throw e => (Throw e, order)
  | Ok market => buildPlaceAction now order market
  end.

(** The callback of the "modifyBatch" case. *)
Definition modifyBatchItem (now : Z) (context : HyperliquidPermitContext)
    (modify : HyperliquidModifyRequest) : Result PermitAction * HyperliquidModifyRequest :=
  match resolveMarket (order_a (modify_order modify)) context with
  | Throw e => (Throw e, modify)
  | Ok market => buildModifyAction now modify market
  end.

(** The [switch] of [buildPermitActions] on the type of the action, with the
    clock reading [now]; the second component is the action object after the
    switch. *)
Definition switchOnType (now : Z) (payload : ReadRequest)
    (context : HyperliquidPermitContext)
    : Result (list PermitActionInfo) * HyperliquidExchangeAction :=
  let action := read_action payload in
  let baseNonce := read_nonce payload in
  let add permit := [{| permitAction := permit; info_nonce := baseNonce + 0 |}] in
  let type := action_type action in
  if String.eqb type "order" then
    match action_order action with
    | Some order =>
        let (r, order') := orderCase now baseNonce order context in
        (r, set_action_order action (Some order'))
    | None =>
        let (r, self') := orderCase now baseNonce (action_self action) context in
        (r, set_action_self action self')
    end
  else if String.eqb type "cancel" then
    let (r, _) := forEachAdd (cancelItem context) baseNonce
                             (orEmpty (action_cancels action)) 0 in
    (r, action)
  else if String.eqb type "cancelByCloid" then
    let (r, _) := forEachAdd (cancelByCloidItem context) baseNonce
                             (orEmpty (action_cancels action)) 0 in
    (r, action)
  else if String.eqb type "batchOrder" then
    let (r, orders') := forEachAdd (batchOrderItem now context) baseNonce
                                   (orEmpty (action_orders action)) 0 in
    (r, set_action_orders action (writeBack (action_orders action) orders'))
  else if String.eqb type "updateLeverage" then
    match action_asset action with
    | None => (Ok [], action)
    | Some _ =>
        (do market <- resolveMarket (action_asset action) context;
         let leverageBps :=
           Num.min (Num.mul (match action_leverage action with
                             | Some l => l
                             | None => Integer 0
                             end) (Integer 100))
                   (Integer 65535) in
         Ok (add (SetLeverage (marketId market) leverageBps None)),
         action)
    end
  else if String.eqb type "faucet" then
    (do marketId <- match action_marketId action with
                    | Some v => Js.BigIntOf (Some v)
                    | None => Ok 64
                    end;
     match
       (do amount <- decimalToFixed
                       (Js.StringOf (match action_amount action with
                                     | Some v => v
                                     | None => Str "0"
                                     end)) 6;
        do recipient <-
          match action_recipient action with
          | Some recipientStr =>
              if String.eqb recipientStr EmptyString then Ok (ctx_authorizer context)
              else match publicKeyFromString recipientStr with
                   | Some key => Ok key
                   | None => Throw InvalidPublicKeyInput
                   end
          | None => Ok (ctx_authorizer context)
          end;
        Ok (add (Faucet marketId amount recipient)))
     with
     | Ok added => Ok added
     | Throw err => Throw (InvalidFaucetRequest err)
     end,
     action)
  else if String.eqb type "withdraw" then
    match action_amount action with
    | None => (Ok [], action)
    | Some amount =>
        (do amountFixed <- decimalToFixed (Js.StringOf amount) 6;
         Ok (add (Withdraw amountFixed (ctx_authorizer context) None)),
         action)
    end
  else if String.eqb type "noop" then
    (Ok (add Noop), action)
  else if String.eqb type "modify" then
    match action_order action with
    | None => (Ok [], action)
    | Some order =>
        match resolveMarket (order_a order) context with
        | Throw e => (Throw e, action)
        | Ok market =>
            let oid := match action_oid action with
                       | Some v => Some v
                       | None => Some (Num 0)
                       end in
            let (r, modify') :=
              buildModifyAction now {| modify_oid := oid; modify_order := order |} market in
            (do permit <- r; Ok (add permit),
             set_action_order action (Some (modify_order modify')))
        end
    end
  else if String.eqb type "modifyBatch" then
    let (r, modifies') := forEachAdd (modifyBatchItem now context) baseNonce
                                     (orEmpty (action_modifies action)) 0 in
    (r, set_action_modifies action (writeBack (action_modifies action) modifies'))
  else (Ok [], action).

(** [buildPermitActions(payload, context)] with the clock reading [now]; the
    second component is the request's action object after the call.
    [BigInt(nonce)] runs first, and throws for a nonce that is no integer. *)
Definition buildPermitActions (now : Z) (payload : HyperliquidExchangeRequest)
    (context : HyperliquidPermitContext)
    : Result (list PermitActionInfo) * HyperliquidExchangeAction :=
  let action := req_action payload in
  match Js.BigIntOfNumeric (req_nonce payload) with
  | Throw e => (Throw e, action)
  | Ok baseNonce =>
      switchOnType now {| read_action := action; read_nonce := baseNonce |} context
  end.

(** [buildPermitEnvelopesFromExchangeRequest(request, context)] with the
    clock reading [now]; the second component is the request after the
    call. *)
Definition buildPermitEnvelopesFromExchangeRequest (now : Z)
    (request : HyperliquidExchangeRequest) (context : HyperliquidPermitContext)
    : Result (list PermitEnvelopeV1) * HyperliquidExchangeRequest :=
  let (r, action') := buildPermitActions now request context in
  (do infos <- r;
   Ok (map (fun info =>
          let nowSeconds := now / 1000 in
          {| domain := {| programId := ctx_programId context;
                          version := 1;
                          cluster := ctx_clusterType context |};
             authorizer := ctx_authorizer context;
             keyType := Ed25519;
             action := permitAction info;
             mode := HlWindow (match ctx_hlWindowK context with
                               | Some w => w
                               | None => DEFAULT_WINDOW_K
                               end);
             expiresUnix := nowSeconds + match ctx_expirySeconds context with
                                         | Some e => e
                                         | None => DEFAULT_EXPIRY
                                         end;
             maxFeeQuote := match ctx_maxFeeQuote context with
                            | Some f => f
                            | None => DEFAULT_MAX_FEE
                            end;
             relayer := ctx_relayer context;
             nonce := info_nonce info |}) infos),
   {| req_action := action'; req_nonce := req_nonce request |}).

End Adapter.

(** ** Signing many envelopes and local verification ([signer.ts]) *)

(** [PermitSignatureEncoding] *)
Inductive PermitSignatureEncoding : Type := hex | base64.

(** [PermitSignatureField]: one string, or an array of strings. *)
Inductive PermitSignatureField : Type :=
| OneString (s : string)
| Strings (l : list string).

(** [Buffer.from(bytes).toString(encoding)] *)
Definition bufferToString (encoding : PermitSignatureEncoding) (bytes : Bytes) : string :=
  match encoding with
  | hex => Buffer.toHex bytes
  | base64 => Buffer.toBase64 bytes
  end.

Record PermitSignResult : Type := {
  sr_signatures : PermitSignatureField;
  sr_messages : PermitSignatureField;
  sr_signatureList : list string;
  sr_messageList : list string;
  sr_rawSignatures : list Bytes;
  sr_rawMessages : list Bytes
}.

(** [PermitEnvelopeV1 | PermitEnvelopeV1[]] *)
Inductive EnvelopeOrArray : Type :=
| OneEnvelope (envelope : PermitEnvelopeV1)
| Envelopes (envelopes : list PermitEnvelopeV1).

(** [l.length === 1 ? l[0] : l] *)
Definition oneOrAll (l : list string) : PermitSignatureField :=
  match l with
  | [s] => OneString s
  | _ => Strings l
  end.

Section SignPermits.

Variable nacl_sign_detached : Bytes -> Bytes -> Bytes.

(** [nacl.sign.detached.verify(message, signature, publicKey)]; tweetnacl
    throws on a signature or a key of the wrong size. *)
Variable nacl_sign_detached_verify : Bytes -> Bytes -> Bytes -> Result bool.

(** The loop of [signPermits]: every envelope is encoded and signed in turn,
    its signature and its bytes pushed onto the two arrays. *)
Fixpoint signLoop (envelopes : list PermitEnvelopeV1) (keypair : Keypair)
    (rawSignatures rawMessages : list Bytes) : Result (list Bytes * list Bytes) :=
  match envelopes with
  | [] => Ok (rawSignatures, rawMessages)
  | envelope :: rest =>
      do generated <- generatePermitSignature nacl_sign_detached envelope keypair;
      signLoop rest keypair (rawSignatures ++ [ps_signature generated])
               (rawMessages ++ [ps_message generated])
  end.

(** [signPermits(envelopes, keypair, encoding)] *)
Definition signPermits (envelopes : EnvelopeOrArray) (keypair : Keypair)
    (encoding : PermitSignatureEncoding) : Result PermitSignResult :=
  let envelopeList :=
    match envelopes with
    | Envelopes l => l
    | OneEnvelope envelope => [envelope]
    end in
  if (List.length envelopeList =? 0)%nat then
    Ok {| sr_signatures := Strings []; sr_signatureList := [];
          sr_messages := Strings []; sr_messageList := [];
          sr_rawSignatures := []; sr_rawMessages := [] |}
  else
    do raw <- signLoop envelopeList keypair [] [];
    let rawSignatures := fst raw in
    let rawMessages := snd raw in
    let signatureList := map (bufferToString encoding) rawSignatures in
    let messageEncoding := match encoding with base64 => base64 | hex => hex end in
    let messageList := map (bufferToString messageEncoding) rawMessages in
    Ok {| sr_signatures := oneOrAll signatureList;
          sr_signatureList := signatureList;
          sr_messages := oneOrAll messageList;
          sr_messageList := messageList;
          sr_rawSignatures := rawSignatures;
          sr_rawMessages := rawMessages |}.

(** [signPermitsHex(envelopes, keypair)] *)
Definition signPermitsHex (envelopes : EnvelopeOrArray) (keypair : Keypair)
    : Result PermitSignResult :=
  signPermits envelopes keypair hex.

(** [signPermitsBase64(envelopes, keypair)] *)
Definition signPermitsBase64 (envelopes : EnvelopeOrArray) (keypair : Keypair)
    : Result PermitSignResult :=
  signPermits envelopes keypair base64.

(** [PermitSigner.verify(signedPermit)]; the builder's [serialize] is
    [encodePermitEnvelope]. *)
Definition verify (signedPermit : SignedPermit) : Result bool :=
  do messageBytes <- encodePermitEnvelope (sp_envelope signedPermit);
  nacl_sign_detached_verify messageBytes (sp_signature signedPermit)
                            (sp_publicKey signedPermit).

End SignPermits.

(** ** Exchange adapter: signing a request, and the legacy helper *)

(** [HyperliquidSignResult]: the fields of the [PermitSignResult] and the
    envelopes. *)
Record HyperliquidSignResult : Type := {
  hl_signatureResult : PermitSignResult;
  hl_envelopes : list PermitEnvelopeV1
}.

Section AdapterSigning.

Variable publicKeyFromString : string -> option PublicKey.
Variable nacl_sign_detached : Bytes -> Bytes -> Bytes.

(** [signHyperliquidRequest(request, context, keypair, options)]; the second
    component is the request after the call. *)
Definition signHyperliquidRequest (now : Z) (request : HyperliquidExchangeRequest)
    (context : HyperliquidPermitContext) (keypair : Keypair)
    (encoding : option PermitSignatureEncoding)
    : Result HyperliquidSignResult * HyperliquidExchangeRequest :=
  let (r, request') :=
    buildPermitEnvelopesFromExchangeRequest publicKeyFromString now request context in
  (do envelopes <- r;
   do signatureResult <-
     signPermits nacl_sign_detached (Envelopes envelopes) keypair
                 (match encoding with Some e => e | None => hex end);
   Ok {| hl_signatureResult := signatureResult; hl_envelopes := envelopes |},
   request').

(** The legacy [buildPermitAction(payload, context)]: the action and the
    nonce of the first envelope, or [null]. *)
Definition buildPermitAction (now : Z) (payload : HyperliquidExchangeRequest)
    (context : HyperliquidPermitContext)
    : Result (option PermitActionInfo) * HyperliquidExchangeRequest :=
  let (r, payload') :=
    buildPermitEnvelopesFromExchangeRequest publicKeyFromString now payload context in
  (do envelopes <- r;
   Ok (match envelopes with
       | first :: _ =>
           Some {| permitAction := action first; info_nonce := nonce first |}
       | [] => None
       end),
   payload').

End AdapterSigning.

(** ** Envelope builder ([builder.ts]) *)

Record PermitBuilderConfig : Type := {
  config_programId : PublicKey;
  config_cluster : option ClusterType;
  config_defaultExpiry : option Z;
  config_defaultMaxFee : option Z
}.

(** The builder object: its configuration with every default filled in. *)
Record PermitBuilder : Type := {
  builder_programId : PublicKey;
  builder_cluster : ClusterType;
  builder_defaultExpiry : Z;
  builder_defaultMaxFee : Z
}.

Record EnvelopeParams : Type := {
  params_authorizer : PublicKey;
  params_action : PermitAction;
  params_nonce : option Z;
  params_expiresIn : option Z;
  params_relayer : option PublicKey;
  params_replayMode : option ReplayMode
}.

(** The methods of the class [PermitBuilder]; [this] is the builder, [now]
    the clock reading (milliseconds), and the properties of each [params]
    object are spelled out as arguments, an omitted one being [None]. *)
Module Builder.

Definition constructor (config : PermitBuilderConfig) : PermitBuilder :=
  {| builder_programId := config_programId config;
     builder_cluster :=
       match config_cluster config with Some c => c | None => Testnet end;
     builder_defaultExpiry :=
       match config_defaultExpiry config with Some e => e | None => 60 end;
     builder_defaultMaxFee :=
       match config_defaultMaxFee config with Some f => f | None => 1000000 end |}.

Definition generateNonce (now : Z) : Z := now.

Definition buildEnvelope (this : PermitBuilder) (now : Z) (params : EnvelopeParams)
    : PermitEnvelopeV1 :=
  let nowSeconds := now / 1000 in
  let expiresIn :=
    match params_expiresIn params with
    | Some e => e
    | None => builder_defaultExpiry this
    end in
  {| domain := {| programId := builder_programId this;
                  version := 1;
                  cluster := builder_cluster this |};
     authorizer := params_authorizer params;
     keyType := Ed25519;
     action := params_action params;
     mode := match params_replayMode params with
             | Some m => m
             | None => HlWindow 128
             end;
     expiresUnix := nowSeconds + expiresIn;
     maxFeeQuote := builder_defaultMaxFee this;
     relayer := params_relayer params;
     nonce := match params_nonce params with
              | Some n => n
              | None => generateNonce now
              end |}.

(** The call every public method ends with: no replay mode is passed. *)
Definition build (this : PermitBuilder) (now : Z) (authorizer : PublicKey)
    (action : PermitAction) (nonce expiresIn : option Z) (relayer : option PublicKey)
    : PermitEnvelopeV1 :=
  buildEnvelope this now
    {| params_authorizer := authorizer; params_action := action;
       params_nonce := nonce; params_expiresIn := expiresIn;
       params_relayer := relayer; params_replayMode := None |}.

Definition sideCode (side : string) : Z :=
  if String.eqb side "bid" then 0 else 1.

Definition orDefault {A : Type} (o : option A) (d : A) : A :=
  match o with
  | Some a => a
  | None => d
  end.

Definition placeOrder (this : PermitBuilder) (now : Z) (authorizer : PublicKey)
    (marketId clientId : Z) (side : string) (qty : Z) (price : option Z)
    (tif : option TimeInForceValue) (reduceOnly : option bool)
    (triggerPrice triggerType : option Z) (healthFloor : option HealthFloor)
    (nonce expiresIn : option Z) (relayer : option PublicKey) : PermitEnvelopeV1 :=
  let action :=
    Place marketId clientId (sideCode side) qty price (orDefault tif GTC)
          (orDefault reduceOnly false) triggerPrice (orDefault triggerType 0)
          healthFloor in
  build this now authorizer action nonce expiresIn relayer.

Definition modify (this : PermitBuilder) (now : Z) (authorizer : PublicKey)
    (marketId cancelOrderId newClientId : Z) (side : string) (qty : Z)
    (price : option Z) (tif : option TimeInForceValue) (reduceOnly : option bool)
    (triggerPrice triggerType : option Z) (healthFloor : option HealthFloor)
    (nonce expiresIn : option Z) (relayer : option PublicKey) : PermitEnvelopeV1 :=
  let action :=
    Modify marketId cancelOrderId newClientId (sideCode side) qty price
           (orDefault tif GTC) (orDefault reduceOnly false) triggerPrice
           (orDefault triggerType 0) healthFloor in
  build this now authorizer action nonce expiresIn relayer.

Definition cancelById (this : PermitBuilder) (now : Z) (authorizer : PublicKey)
    (marketId orderId : Z) (nonce expiresIn : option Z) (relayer : option PublicKey)
    : PermitEnvelopeV1 :=
  build this now authorizer (CancelById marketId orderId) nonce expiresIn relayer.

Definition cancelByClientId (this : PermitBuilder) (now : Z) (authorizer : PublicKey)
    (marketId clientId : Z) (nonce expiresIn : option Z) (relayer : option PublicKey)
    : PermitEnvelopeV1 :=
  build this now authorizer (CancelByClientId marketId clientId) nonce expiresIn relayer.

Definition cancelAll (this : PermitBuilder) (now : Z) (authorizer : PublicKey)
    (marketId : option Z) (nonce expiresIn : option Z) (relayer : option PublicKey)
    : PermitEnvelopeV1 :=
  build this now authorizer (CancelAll marketId) nonce expiresIn relayer.

Definition withdraw (this : PermitBuilder) (now : Z) (authorizer : PublicKey)
    (amount : Z) (toOwner : PublicKey) (healthFloor : option HealthFloor)
    (nonce expiresIn : option Z) (relayer : option PublicKey) : PermitEnvelopeV1 :=
  build this now authorizer (Withdraw amount toOwner healthFloor) nonce expiresIn relayer.

Definition setLeverage (this : PermitBuilder) (now : Z) (authorizer : PublicKey)
    (marketId : Z) (targetLeverageBps : number) (healthFloor : option HealthFloor)
    (nonce expiresIn : option Z) (relayer : option PublicKey) : PermitEnvelopeV1 :=
  build this now authorizer (SetLeverage marketId targetLeverageBps healthFloor)
        nonce expiresIn relayer.

Definition faucet (this : PermitBuilder) (now : Z) (authorizer : PublicKey)
    (marketId amount : Z) (recipient : PublicKey)
    (nonce expiresIn : option Z) (relayer : option PublicKey) : PermitEnvelopeV1 :=
  build this now authorizer (Faucet marketId amount recipient) nonce expiresIn relayer.

Definition noop (this : PermitBuilder) (now : Z) (authorizer : PublicKey)
    (nonce expiresIn : option Z) (relayer : option PublicKey) : PermitEnvelopeV1 :=
  build this now authorizer Noop nonce expiresIn relayer.

Definition serialize (envelope : PermitEnvelopeV1) : Result Bytes :=
  encodePermitEnvelope envelope.

End Builder.

(** ** The exchange client ([clients.ts]) *)

(** [mapTifForAmbient(tif)] *)
Definition mapTifForAmbient (tif : string) : string :=
  if String.eqb tif "Ioc" || String.eqb tif "FrontendMarket" then "Ioc" else "Gtc".

(** [normalizeToHexArray(value)] for a string or an array of strings. *)
Definition normalizeToHexArray (value : PermitSignatureField) : list string :=
  match value with
  | Strings l => map (fun item => item) l
  | OneString s => [s]
  end.

(** [alignEnvelopeExpiry(envelope)]: the envelope after the call.  The
    bigint operators [%] and [/] truncate toward zero. *)
Definition alignEnvelopeExpiry (envelope : PermitEnvelopeV1) : PermitEnvelopeV1 :=
  let thousand := 1000 in
  let sixty := 60 in
  let nonce0 := nonce envelope in
  let baseNonce := nonce0 - Z.rem nonce0 thousand in
  let nonceSeconds := Z.quot baseNonce thousand in
  {| domain := domain envelope;
     authorizer := authorizer envelope;
     keyType := keyType envelope;
     action := action envelope;
     mode := mode envelope;
     expiresUnix := nonceSeconds + sixty;
     maxFeeQuote := maxFeeQuote envelope;
     relayer := relayer envelope;
     nonce := nonce envelope |}.

Record SignedHyperliquidExchangeRequest : Type := {
  signed_action : HyperliquidExchangeAction;
  signed_nonce : NumberOrBigInt;
  signed_signature : list string;
  signed_pubkey : string
}.

(** The one market the client registers. *)
Definition clientMarkets : list HyperliquidMarketConfig :=
  [{| index := 0; symbol := "BTC-PERP"; marketId := 64;
      baseDecimals := 8; quoteDecimals := 6 |}].

Definition clientProgramId : string := "6egfvA3boGA8BLTgCzwPfKZMv3W9QS5V61Ewqa6VWq2g".

Section Client.

Variable publicKeyFromString : string -> option PublicKey.

(** [publicKey.toString()]: the base58 text of a key. *)
Variable publicKeyToString : PublicKey -> string.

Variable nacl_sign_detached : Bytes -> Bytes -> Bytes.

(** [signPayloadWithKeypair(action, signer)] with the clock reading [now].
    The second component is the action object after the call; the request
    returned carries a JSON copy of it. *)
Definition signPayloadWithKeypair (now : Z) (action : HyperliquidExchangeAction)
    (signer : Keypair)
    : Result SignedHyperliquidExchangeRequest * HyperliquidExchangeAction :=
  let nonce0 := Integer now in
  let pubkey := publicKeyToString (publicKey signer) in
  match publicKeyFromString clientProgramId with
  | None => (Throw InvalidPublicKeyInput, action)
  | Some programId =>
      let context :=
        createHyperliquidContext clientMarkets programId (publicKey signer)
                                 (Some Testnet) None None None None in
      let (r, payload') :=
        buildPermitEnvelopesFromExchangeRequest publicKeyFromString now
          {| req_action := action; req_nonce := ANumber nonce0 |} context in
      (do envelopes <- r;
       let envelopes := map alignEnvelopeExpiry envelopes in
       do signResult <- signPermits nacl_sign_detached (Envelopes envelopes) signer hex;
       let signatureHex := normalizeToHexArray (Strings (sr_signatureList signResult)) in
       Ok {| signed_action := req_action payload';
             signed_nonce := ANumber nonce0;
             signed_signature := signatureHex;
             signed_pubkey := pubkey |},
       req_action payload')
  end.

End Client.

(** ** Program instructions ([instructions.ts]) *)

Inductive PermitInstructionType : Type :=
| ConsumePermit
| DelegateSession
| RevokeSession
| CreateAllowance
| RevokeAllowance.

Definition PermitInstructionType_code (t : PermitInstructionType) : Z :=
  match t with
  | ConsumePermit => 50
  | DelegateSession => 51
  | RevokeSession => 52
  | CreateAllowance => 53
  | RevokeAllowance => 54
  end.

(** The flags of the enum [SessionScope]. *)
Module SessionScope.
Definition Place : Z := Z.shiftl 1 0.
Definition Cancel : Z := Z.shiftl 1 1.
Definition Withdraw : Z := Z.shiftl 1 2.
Definition SetLeverage : Z := Z.shiftl 1 3.
Definition Faucet : Z := Z.shiftl 1 4.
Definition All : Z := 4294967295.
End SessionScope.

Record AccountMeta : Type := {
  meta_pubkey : PublicKey;
  meta_isSigner : bool;
  meta_isWritable : bool
}.

(** A [TransactionInstruction] with the account metas of its keys. *)
Record ProgramInstruction : Type := {
  pix_keys : list AccountMeta;
  pix_programId : PublicKey;
  pix_data : Bytes
}.

(** The verification instruction, which names no account, among the
    instructions of a program. *)
Definition withAccountMetas (ix : TransactionInstruction) : ProgramInstruction :=
  {| pix_keys :=
       map (fun key => {| meta_pubkey := key; meta_isSigner := false;
                          meta_isWritable := false |}) (ix_keys ix);
     pix_programId := ix_programId ix;
     pix_data := ix_data ix |}.

(** The [accounts] of [createConsumePermitInstruction]. *)
Record ConsumeAccounts : Type := {
  acc_submitter : PublicKey;
  acc_global : PublicKey;
  acc_cma : PublicKey;
  acc_market : PublicKey;
  acc_perOrderPda : PublicKey;
  acc_marketOrderLog : PublicKey;
  acc_rentPayer : PublicKey;
  acc_sessionPda : option PublicKey;
  acc_nonceWindowPda : option PublicKey;
  acc_allowancePda : option PublicKey;
  acc_usedNoncePda : option PublicKey
}.

(** [if (key) keys.push({ pubkey: key, isSigner: false, isWritable })] *)
Definition pushOptional (keys : list AccountMeta) (key : option PublicKey)
    (writable : bool) : list AccountMeta :=
  match key with
  | Some k =>
      keys ++ [{| meta_pubkey := k; meta_isSigner := false; meta_isWritable := writable |}]
  | None => keys
  end.

Section Instructions.

(** Constants of the web3 dependency. *)
Variable SYSVAR_INSTRUCTIONS_PUBKEY : PublicKey.
Variable SystemProgram_programId : PublicKey.

(** [createConsumePermitInstruction(programId, signedPermit, accounts)] *)
Definition createConsumePermitInstruction (programId : PublicKey)
    (signedPermit : SignedPermit) (accounts : ConsumeAccounts)
    : list ProgramInstruction :=
  let instructions := [withAccountMetas (sp_verifyInstruction signedPermit)] in
  let keys :=
    [ {| meta_pubkey := acc_submitter accounts; meta_isSigner := true;
         meta_isWritable := false |};
      {| meta_pubkey := SYSVAR_INSTRUCTIONS_PUBKEY; meta_isSigner := false;
         meta_isWritable := false |};
      {| meta_pubkey := acc_global accounts; meta_isSigner := false;
         meta_isWritable := true |};
      {| meta_pubkey := acc_cma accounts; meta_isSigner := false;
         meta_isWritable := true |};
      {| meta_pubkey := acc_market accounts; meta_isSigner := false;
         meta_isWritable := true |};
      {| meta_pubkey := acc_perOrderPda accounts; meta_isSigner := false;
         meta_isWritable := true |};
      {| meta_pubkey := acc_marketOrderLog accounts; meta_isSigner := false;
         meta_isWritable := true |};
      {| meta_pubkey := acc_rentPayer accounts; meta_isSigner := true;
         meta_isWritable := true |};
      {| meta_pubkey := SystemProgram_programId; meta_isSigner := false;
         meta_isWritable := false |} ] in
  let keys := pushOptional keys (acc_sessionPda accounts) false in
  let keys := pushOptional keys (acc_nonceWindowPda accounts) true in
  let keys := pushOptional keys (acc_allowancePda accounts) true in
  let keys := pushOptional keys (acc_usedNoncePda accounts) true in
  let permitBytes := sp_signature signedPermit in
  let instructionData :=
    Buffer.concat [ [PermitInstructionType_code ConsumePermit]; [0]; permitBytes ] in
  instructions ++
    [{| pix_keys := keys; pix_programId := programId; pix_data := instructionData |}].

(** [createDelegateSessionInstruction(programId, owner, session, expiresUnix,
    scopes, accounts)] *)
Definition createDelegateSessionInstruction (programId owner session : PublicKey)
    (expiresUnix scopes : Z) (sessionPda rentPayer : PublicKey)
    : Result ProgramInstruction :=
  let keys :=
    [ {| meta_pubkey := owner; meta_isSigner := true; meta_isWritable := false |};
      {| meta_pubkey := sessionPda; meta_isSigner := false; meta_isWritable := true |};
      {| meta_pubkey := rentPayer; meta_isSigner := true; meta_isWritable := true |};
      {| meta_pubkey := SystemProgram_programId; meta_isSigner := false;
         meta_isWritable := false |} ] in
  let instructionData := Buffer.alloc (1 + 32 + 8 + 4) in
  let offset := 0%nat in
  let instructionData :=
    Buffer.setIndex instructionData offset (PermitInstructionType_code DelegateSession) in
  let offset := (offset + 1)%nat in
  do instructionData <- Buffer.set instructionData session offset;
  let offset := (offset + 32)%nat in
  do instructionData <- Buffer.writeBigInt64LE instructionData expiresUnix offset;
  let offset := (offset + 8)%nat in
  do instructionData <- Buffer.writeUInt32LE instructionData scopes offset;
  Ok {| pix_keys := keys; pix_programId := programId; pix_data := instructionData |}.

(** [createRevokeSessionInstruction(programId, owner, session, sessionPda)] *)
Definition createRevokeSessionInstruction (programId owner session sessionPda : PublicKey)
    : Result ProgramInstruction :=
  let keys :=
    [ {| meta_pubkey := owner; meta_isSigner := true; meta_isWritable := false |};
      {| meta_pubkey := sessionPda; meta_isSigner := false; meta_isWritable := true |} ] in
  let instructionData := Buffer.alloc (1 + 32) in
  let instructionData :=
    Buffer.setIndex instructionData 0 (PermitInstructionType_code RevokeSession) in
  do instructionData <- Buffer.set instructionData session 1;
  Ok {| pix_keys := keys; pix_programId := programId; pix_data := instructionData |}.

(** [createAllowanceInstruction(programId, owner, authorizer, id, maxUses,
    accounts)] *)
Definition createAllowanceInstruction (programId owner authorizer : PublicKey)
    (id maxUses : Z) (allowancePda rentPayer : PublicKey) : Result ProgramInstruction :=
  let keys :=
    [ {| meta_pubkey := owner; meta_isSigner := true; meta_isWritable := false |};
      {| meta_pubkey := allowancePda; meta_isSigner := false; meta_isWritable := true |};
      {| meta_pubkey := rentPayer; meta_isSigner := true; meta_isWritable := true |};
      {| meta_pubkey := SystemProgram_programId; meta_isSigner := false;
         meta_isWritable := false |} ] in
  let instructionData := Buffer.alloc (1 + 32 + 8 + 2) in
  let offset := 0%nat in
  let instructionData :=
    Buffer.setIndex instructionData offset (PermitInstructionType_code CreateAllowance) in
  let offset := (offset + 1)%nat in
  do instructionData <- Buffer.set instructionData authorizer offset;
  let offset := (offset + 32)%nat in
  do instructionData <- Buffer.writeBigInt64LE instructionData id offset;
  let offset := (offset + 8)%nat in
  do instructionData <- Buffer.writeUInt16LE instructionData maxUses offset;
  Ok {| pix_keys := keys; pix_programId := programId; pix_data := instructionData |}.

End Instructions.

(** The static methods of the class [PermitPdas]. *)
Module PermitPdas.
Section Derivation.

(** [PublicKey.findProgramAddressSync(seeds, programId)], which throws when
    a seed is too long or no address exists. *)
Variable findProgramAddressSync : list Bytes -> PublicKey -> Result (PublicKey * Z).

Definition sessionPda (programId owner session : PublicKey) : Result (PublicKey * Z) :=
  findProgramAddressSync [Buffer.fromString "session_v1.0"; owner; session] programId.

Definition nonceWindowPda (programId signer : PublicKey) : Result (PublicKey * Z) :=
  findProgramAddressSync [Buffer.fromString "nonce_window_v1.0"; signer] programId.

Definition allowancePda (programId owner authorizer : PublicKey) (id : Z)
    : Result (PublicKey * Z) :=
  let idBuffer := Buffer.alloc 8 in
  do idBuffer <- Buffer.writeBigUInt64LE idBuffer id 0;
  findProgramAddressSync
    [Buffer.fromString "allowance_v1.0"; owner; authorizer; idBuffer] programId.

Definition usedNoncePda (programId owner : PublicKey) (salt : Bytes)
    : Result (PublicKey * Z) :=
  findProgramAddressSync [Buffer.fromString "used_nonce_v1.0"; owner; salt] programId.

Definition perOrderPda (programId : PublicKey) (marketId : Z) (user : PublicKey)
    (orderId : Z) : Result (PublicKey * Z) :=
  let marketBuffer := Buffer.alloc 8 in
  do marketBuffer <- Buffer.writeBigUInt64LE marketBuffer marketId 0;
  let orderBuffer := Buffer.alloc 8 in
  do orderBuffer <- Buffer.writeBigUInt64LE orderBuffer orderId 0;
  findProgramAddressSync
    [Buffer.fromString "order_v1.0"; marketBuffer; user; orderBuffer] programId.

End Derivation.
End PermitPdas.

(** ** Program addresses *)

Section ProgramAddress.

(** The hash of the derivation (SHA-256), and the test whether 32 bytes are a
    point of the curve. *)
Variable sha256 : Bytes -> Bytes.
Variable isOnCurve : Bytes -> bool.

(** Modelled from the spec: (4.4) an attempt hashes [seeds ++ [bump] ++
    programId], the seeds one after the other; the bumps are tried
    downward, from [bump] to 0, and the first hash that is no point of the
    curve is the address, returned with its bump. *)
Fixpoint findProgramAddressFrom (bump : nat) (seeds : list Bytes) (programId : PublicKey)
    : Result (PublicKey * Z) :=
  let address := sha256 (Buffer.concat seeds ++ [Z.of_nat bump] ++ programId) in
  if isOnCurve address then
    match bump with
    | O => Throw DerivationExhausted
    | S lower => findProgramAddressFrom lower seeds programId
    end
  else Ok (address, Z.of_nat bump).

(** Modelled from the spec: (4.4) the search starts at the bump 255. *)
Definition findProgramAddressSync (seeds : list Bytes) (programId : PublicKey)
    : Result (PublicKey * Z) :=
  findProgramAddressFrom 255 seeds programId.

End ProgramAddress.

(** ** Vocabulary of the specification *)

(** The envelopes of a request whose nonce has been read: the rest of
    [buildPermitEnvelopesFromExchangeRequest]. *)
Definition envelopesOfRead (publicKeyFromString : string -> option PublicKey) (now : Z)
    (request : ReadRequest) (context : HyperliquidPermitContext)
    : Result (list PermitEnvelopeV1) * ReadRequest :=
  let (r, action') := switchOnType publicKeyFromString now request context in
  (do infos <- r;
   Ok (map (fun info =>
          let nowSeconds := now / 1000 in
          {| domain := {| programId := ctx_programId context;
                          version := 1;
                          cluster := ctx_clusterType context |};
             authorizer := ctx_authorizer context;
             keyType := Ed25519;
             action := permitAction info;
             mode := HlWindow (match ctx_hlWindowK context with
                               | Some w => w
                               | None => DEFAULT_WINDOW_K
                               end);
             expiresUnix := nowSeconds + match ctx_expirySeconds context with
                                         | Some e => e
                                         | None => DEFAULT_EXPIRY
                                         end;
             maxFeeQuote := match ctx_maxFeeQuote context with
                            | Some f => f
                            | None => DEFAULT_MAX_FEE
                            end;
             relayer := ctx_relayer context;
             nonce := info_nonce info |}) infos),
   {| read_action := action'; read_nonce := read_nonce request |}).

(** ASCII lower case, for "case-insensitively". *)
Definition toLowerAscii (c : ascii) : ascii :=
  let n := nat_of_ascii c in
  if ((65 <=? n) && (n <=? 90))%nat then ascii_of_nat (n + 32) else c.

Fixpoint toLowerCase (s : string) : string :=
  match s with
  | EmptyString => EmptyString
  | String c r => String (toLowerAscii c) (toLowerCase r)
  end.

Definition isDigit (c : ascii) : bool :=
  ((48 <=? nat_of_ascii c) && (nat_of_ascii c <=? 57))%nat.

Fixpoint allDigits (s : string) : bool :=
  match s with
  | EmptyString => true
  | String c r => isDigit c && allDigits r
  end.

(** The number a run of decimal digits denotes, after the digits [acc]. *)
Fixpoint digitsValueAcc (s : string) (acc : Z) : Z :=
  match s with
  | EmptyString => acc
  | String c r => digitsValueAcc r (10 * acc + (Z.of_nat (nat_of_ascii c) - 48))
  end.

Definition digitsValue (s : string) : Z := digitsValueAcc s 0.

Inductive Sign : Type := NoSign | Plus | Minus.

(** A decimal string: an optional sign, the whole digits and, optionally, a
    point and the fraction digits. *)
Definition decimalString (sign : Sign) (whole : string) (fraction : option string)
    : string :=
  ((match sign with NoSign => "" | Plus => "+" | Minus => "-" end)
   ++ whole
   ++ match fraction with Some f => "." ++ f | None => "" end)%string.

Definition fractionDigits (fraction : option string) : string :=
  match fraction with Some f => f | None => EmptyString end.

(** The decimal's exact value is [decimalNumerator / 10 ^ length fraction]. *)
Definition decimalNumerator (sign : Sign) (whole : string) (fraction : option string)
    : Z :=
  let n := digitsValue (whole ++ fractionDigits fraction)%string in
  match sign with Minus => - n | _ => n end.

(** *** Valid envelopes: every field within its declared width *)

Definition isU8 (n : Z) : bool := (0 <=? n) && (n <? 256).
Definition isU16 (n : Z) : bool := (0 <=? n) && (n <? 65536).
Definition isU64 (n : Z) : bool := (0 <=? n) && (n <? 2 ^ 64).
Definition isI64 (n : Z) : bool := (- 2 ^ 63 <=? n) && (n <? 2 ^ 63).
Definition isU128 (n : Z) : bool := (0 <=? n) && (n <? 2 ^ 128).

(** A 32-byte address. *)
Definition isAddress (key : Bytes) : bool := (List.length key =? 32)%nat.

(** A 32-byte array. *)
Definition isBytes32 (b : Bytes) : bool :=
  (List.length b =? 32)%nat && forallb Borsh.isByte b.

Definition validOption {A : Type} (valid : A -> bool) (o : option A) : bool :=
  match o with
  | Some a => valid a
  | None => true
  end.

Definition validHealthFloor (floor : HealthFloor) : bool := isI64 (min floor).

Definition validTif (tif : TimeInForceValue) : bool :=
  match tif with
  | GTT timestamp => isU64 timestamp
  | _ => true
  end.

Definition validAction (action : PermitAction) : bool :=
  match action with
  | Place marketId clientId side qty price tif _ triggerPrice triggerType healthFloor =>
      isU64 marketId && isU128 clientId && isU8 side && isU64 qty
      && validOption isU64 price && validTif tif && validOption isU64 triggerPrice
      && isU8 triggerType && validOption validHealthFloor healthFloor
  | Modify marketId cancelOrderId newClientId side qty price tif _ triggerPrice
           triggerType healthFloor =>
      isU64 marketId && isU64 cancelOrderId && isU128 newClientId && isU8 side
      && isU64 qty && validOption isU64 price && validTif tif
      && validOption isU64 triggerPrice && isU8 triggerType
      && validOption validHealthFloor healthFloor
  | CancelById marketId orderId => isU64 marketId && isU64 orderId
  | CancelByClientId marketId clientId => isU64 marketId && isU128 clientId
  | CancelAll marketId => validOption isU64 marketId
  | Faucet marketId amount recipient =>
      isU64 marketId && isU64 amount && isAddress recipient
  | Withdraw amount toOwner healthFloor =>
      isU64 amount && isAddress toOwner && validOption validHealthFloor healthFloor
  | SetLeverage marketId targetLeverageBps healthFloor =>
      isU64 marketId
      && match targetLeverageBps with Integer bps => isU16 bps | NonInteger _ => false end
      && validOption validHealthFloor healthFloor
  | Noop => true
  end.

Definition validMode (mode : ReplayMode) : bool :=
  match mode with
  | Sequence expected => isU64 expected
  | Nonce salt => isBytes32 salt
  | Allowance id => isBytes32 id
  | HlWindow k => isU8 k
  end.

Definition validEnvelope (envelope : PermitEnvelopeV1) : bool :=
  isAddress (programId (domain envelope)) && isU8 (version (domain envelope))
  && isAddress (authorizer envelope) && validAction (action envelope)
  && validMode (mode envelope) && isI64 (expiresUnix envelope)
  && isU64 (maxFeeQuote envelope) && validOption isAddress (relayer envelope)
  && isU64 (nonce envelope).

(** The domain's bytes in the order of the specification's data model:
    program id, version, cluster. *)
Definition domainBytesVersionFirst (d : PermitDomain) : Bytes :=
  programId d ++ [version d] ++ [ClusterType_code (cluster d)].

(** The domain's bytes with the cluster before the version. *)
Definition domainBytes (d : PermitDomain) : Bytes :=
  programId d ++ [ClusterType_code (cluster d)] ++ [version d].

(** The envelope's bytes field by field, around the bytes of its action and
    of its replay mode. *)
Definition envelopeBytes (envelope : PermitEnvelopeV1) (actionBytes modeBytes : Bytes)
    : Bytes :=
  domainBytes (domain envelope)
  ++ authorizer envelope
  ++ [KeyType_code (keyType envelope)]
  ++ actionBytes
  ++ modeBytes
  ++ Borsh.toLE 8 (expiresUnix envelope mod 2 ^ 64)
  ++ Borsh.toLE 8 (maxFeeQuote envelope)
  ++ match relayer envelope with Some key => 1 :: key | None => [0] end
  ++ Borsh.toLE 8 (nonce envelope).

(** The sixteen bytes of the verification instruction before the signature:
    the count, the seven 16-bit fields and the padding byte. *)
Definition ed25519Header (messageLength : Z) : Bytes :=
  [1; 16; 0; 0; 0; 80; 0; 0; 0; 112; 0;
   messageLength mod 256; messageLength / 256; 0; 0; 0].

(** No name of [vs] is a property of the object. *)
Definition noneIn (props : list (string * Borsh.JsValue))
    (vs : list (string * Borsh.Layout)) : bool :=
  forallb (fun v => match Borsh.getProp props (fst v) with Some _ => false | None => true end)
          vs.

(** The nonces [base], [base + 1], ..., [base + k - 1]. *)
Definition nonceRange (base : Z) (k : nat) : list Z :=
  map (fun i => base + Z.of_nat i) (seq 0 k).

(** [x] clamped into the 16-bit unsigned range. *)
Definition clampU16 (x : Z) : Z := Z.max 0 (Z.min x 65535).

Definition isOk {A : Type} (r : Result A) : bool :=
  match r with
  | Ok _ => true
  | Throw _ => false
  end.

Definition isBatchType (type : string) : bool :=
  String.eqb type "batchOrder" || String.eqb type "cancel"
  || String.eqb type "cancelByCloid" || String.eqb type "modifyBatch".

(** A sub-item of a batch request: an order of "batchOrder", a cancel of
    "cancel", a cancel of "cancelByCloid" or a modify of "modifyBatch". *)
Inductive SubItem : Type :=
| OrderItem (order : HyperliquidOrderRequest)
| CancelItem (cancel : HyperliquidCancelItem)
| CloidItem (cancel : HyperliquidCancelItem)
| ModifyItem (modify : HyperliquidModifyRequest).

(** The sub-items of a batch request, in input order. *)
Definition subItems (action : HyperliquidExchangeAction) : list SubItem :=
  let type := action_type action in
  if String.eqb type "batchOrder" then map OrderItem (orEmpty (action_orders action))
  else if String.eqb type "cancel" then map CancelItem (orEmpty (action_cancels action))
  else if String.eqb type "cancelByCloid" then
    map CloidItem (orEmpty (action_cancels action))
  else if String.eqb type "modifyBatch" then
    map ModifyItem (orEmpty (action_modifies action))
  else [].

(** The bytes of a string read as one number, the first byte the most
    significant, after the digits [acc]. *)
Fixpoint bytesValueAcc (s : string) (acc : Z) : Z :=
  match s with
  | EmptyString => acc
  | String c r => bytesValueAcc r (256 * acc + Z.of_nat (nat_of_ascii c))
  end.

Definition bytesValue (s : string) : Z := bytesValueAcc s 0.

(** The client id of an order as a number: the clock reading when [c] is
    missing or empty, the integer [c] denotes when it is an integer literal,
    and the number its bytes spell otherwise. *)
Definition clientIdOf (now : Z) (c : option string) : Z :=
  match c with
  | None => now
  | Some c' =>
      if String.eqb c' EmptyString then now
      else match Js.BigInt c' with
           | Ok n => n
           | Throw _ => bytesValue c'
           end
  end.

(** The client id that an order carries once it has been read: the decimal
    of the clock reading when [c] is missing or empty, [c] itself when it is
    an integer literal, and the decimal of the number its bytes spell
    otherwise. *)
Definition writtenClientId (now : Z) (c : option string) : string :=
  match c with
  | None => Js.toString now
  | Some c' =>
      if String.eqb c' EmptyString then Js.toString now
      else match Js.BigInt c' with
           | Ok _ => c'
           | Throw _ => Js.toString (bytesValue c')
           end
  end.

(** The order placed by an order request on a market: the prices and sizes in
    fixed point, bid as side 0 and ask as side 1, no trigger and no health
    floor. *)
Definition placeOf (now : Z) (market : HyperliquidMarketConfig)
    (order : HyperliquidOrderRequest) : Result PermitAction :=
  do price <- decimalToFixed (order_p order) (quoteDecimals market);
  do size <- decimalToFixed (order_s order) (baseDecimals market);
  do tif <- toTimeInForceValue (orderTif order);
  Ok (Place (marketId market) (clientIdOf now (order_c order))
            (if order_b order then 0 else 1) size (Some price) tif (order_r order)
            None 0 None).

(** The permit action that a sub-item stands for, or the error that its
    conversion throws. *)
Definition convertSubItem (now : Z) (context : HyperliquidPermitContext)
    (item : SubItem) : Result PermitAction :=
  match item with
  | OrderItem order =>
      do market <- resolveMarket (order_a order) context;
      placeOf now market order
  | CancelItem cancel =>
      do market <- resolveMarket (cancel_a cancel) context;
      do orderId <- Js.BigIntOf (cancel_o cancel);
      Ok (CancelById (marketId market) orderId)
  | CloidItem cancel =>
      match cancel_cloid cancel with
      | None => Throw CancelByCloidFields
      | Some cloid =>
          do market <- resolveMarket (cancel_asset cancel) context;
          do clientId <- Js.BigInt cloid;
          Ok (CancelByClientId (marketId market) clientId)
      end
  | ModifyItem modify =>
      let order := modify_order modify in
      do market <- resolveMarket (order_a order) context;
      do price <- decimalToFixed (order_p order) (quoteDecimals market);
      do size <- decimalToFixed (order_s order) (baseDecimals market);
      do tif <- toTimeInForceValue (orderTif order);
      do cancelOrderId <- Js.BigIntOf (modify_oid modify);
      Ok (Modify (marketId market) cancelOrderId (clientIdOf now (order_c order))
                 (if order_b order then 0 else 1) size (Some price) tif
                 (order_r order) None 0 None)
  end.

Definition supportedTypes : list string :=
  ["order"; "cancel"; "cancelByCloid"; "batchOrder"; "updateLeverage"; "faucet";
   "withdraw"; "noop"; "modify"; "modifyBatch"].

(** The request with every client id [c] forgotten. *)
Definition eraseOrderC (order : HyperliquidOrderRequest) : HyperliquidOrderRequest :=
  {| order_a := order_a order; order_b := order_b order;
     order_p := order_p order; order_s := order_s order;
     order_r := order_r order; order_t := order_t order;
     order_c := None |}.

Definition eraseModifyC (modify : HyperliquidModifyRequest) : HyperliquidModifyRequest :=
  {| modify_oid := modify_oid modify;
     modify_order := eraseOrderC (modify_order modify) |}.

Definition eraseActionC (action : HyperliquidExchangeAction) : HyperliquidExchangeAction :=
  {| action_type := action_type action;
     action_order := option_map eraseOrderC (action_order action);
     action_cancels := action_cancels action; action_asset := action_asset action;
     action_leverage := action_leverage action; action_amount := action_amount action;
     action_marketId := action_marketId action;
     action_recipient := action_recipient action;
     action_orders := option_map (map eraseOrderC) (action_orders action);
     action_modifies := option_map (map eraseModifyC) (action_modifies action);
     action_oid := action_oid action;
     action_self := eraseOrderC (action_self action) |}.

Definition eraseRequestC (request : HyperliquidExchangeRequest)
    : HyperliquidExchangeRequest :=
  {| req_action := eraseActionC (req_action request); req_nonce := req_nonce request |}.

(** The order carries a client id that [BigInt] reads. *)
Definition clientIdSettled (order : HyperliquidOrderRequest) : bool :=
  match order_c order with
  | Some c => negb (String.eqb c EmptyString) && isOk (Js.BigInt c)
  | None => false
  end.

(** The orders whose client id the request has read: the order of an
    "order" request ([action.order], or the action itself when there is
    none) when its [a] is defined, the orders of a "batchOrder", the order of
    a "modify" and the orders of the modifies of a "modifyBatch"; a request of
    another type reads no client id. *)
Definition clientIdOrders (action : HyperliquidExchangeAction)
    : list HyperliquidOrderRequest :=
  let type := action_type action in
  if String.eqb type "order" then
    let order := match action_order action with
                 | Some o => o
                 | None => action_self action
                 end in
    match order_a order with
    | Some _ => [order]
    | None => []
    end
  else if String.eqb type "batchOrder" then orEmpty (action_orders action)
  else if String.eqb type "modify" then
    match action_order action with
    | Some o => [o]
    | None => []
    end
  else if String.eqb type "modifyBatch" then
    map modify_order (orEmpty (action_modifies action))
  else [].

(** Every client id that the request reads is settled. *)
Definition clientIdsSettled (action : HyperliquidExchangeAction) : bool :=
  forallb clientIdSettled (clientIdOrders action).

(** The nonces of the permit actions count up from [base]. *)
Definition sequentialFrom (base : Z) (r : Result (list PermitActionInfo)) : Prop :=
  match r with
  | Ok infos => map info_nonce infos = nonceRange base (List.length infos)
  | Throw _ => True
  end.

(** Every character of the string is a character of ASCII that is no white
    space. *)
Fixpoint noWhiteSpace (s : string) : bool :=
  match s with
  | EmptyString => true
  | String c r =>
      negb (Js.isWhiteSpace c) && (nat_of_ascii c <? 128)%nat && noWhiteSpace r
  end.

(** A lower-case hexadecimal digit. *)
Definition isLowerHexDigit (c : ascii) : bool :=
  let n := nat_of_ascii c in
  ((48 <=? n) && (n <=? 57) || (97 <=? n) && (n <=? 102))%nat.

Definition isU32 (n : Z) : bool := (0 <=? n) && (n <=? 4294967295).

(** The optional accounts of a ConsumePermit instruction, in the order in
    which they are appended. *)
Definition optionalAccounts (accounts : ConsumeAccounts) : list AccountMeta :=
  pushOptional
    (pushOptional
       (pushOptional (pushOptional [] (acc_sessionPda accounts) false)
                     (acc_nonceWindowPda accounts) true)
       (acc_allowancePda accounts) true)
    (acc_usedNoncePda accounts) true.

(** The seeds one after the other, each behind its length: an address
    derivation without collisions, for the examples. *)
Definition lengthPrefixed (seeds : list Bytes) : Bytes :=
  flat_map (fun seed => Z.of_nat (List.length seed) :: seed) seeds.



(** The fields that a context gives to its envelopes at the clock reading
    [now], each within its width. *)
Definition validContext (now : Z) (context : HyperliquidPermitContext) : bool :=
  isAddress (ctx_programId context) && isAddress (ctx_authorizer context)
  && validOption isAddress (ctx_relayer context)
  && isU8 (match ctx_hlWindowK context with Some w => w | None => DEFAULT_WINDOW_K end)
  && isU64 (match ctx_maxFeeQuote context with Some f => f | None => DEFAULT_MAX_FEE end)
  && isI64 (now / 1000
            + match ctx_expirySeconds context with
              | Some e => e
              | None => DEFAULT_EXPIRY
              end).

(** An action as the adapter makes them: an order with a price, a time in
    force among GTC, IOC and ALO, a side 0 or 1, and no trigger; no health
    floor anywhere; and never a CancelAll. *)
Definition adapterAction (action : PermitAction) : bool :=
  let plainOrder side price tif triggerPrice triggerType healthFloor :=
    ((side =? 0) || (side =? 1))
    && match price with Some _ => true | None => false end
    && match tif with GTC | IOC | ALO => true | _ => false end
    && match triggerPrice with None => true | Some _ => false end
    && (triggerType =? 0)
    && match healthFloor with None => true | Some _ => false end in
  match action with
  | Place _ _ side _ price tif _ triggerPrice triggerType healthFloor =>
      plainOrder side price tif triggerPrice triggerType healthFloor
  | Modify _ _ _ side _ price tif _ triggerPrice triggerType healthFloor =>
      plainOrder side price tif triggerPrice triggerType healthFloor
  | Withdraw _ _ healthFloor | SetLeverage _ _ healthFloor =>
      match healthFloor with None => true | Some _ => false end
  | CancelAll _ => false
  | CancelById _ _ | CancelByClientId _ _ | Faucet _ _ _ | Noop => true
  end.

(** The order with another trigger part of its order type. *)
Definition withTrigger (order : HyperliquidOrderRequest) (trigger' : option TriggerSpec)
    : HyperliquidOrderRequest :=
  {| order_a := order_a order; order_b := order_b order;
     order_p := order_p order; order_s := order_s order;
     order_r := order_r order;
     order_t := match order_t order with
                | Some t => Some {| limit := limit t; trigger := trigger' |}
                | None => None
                end;
     order_c := order_c order |}.

(** The call of the builder's public method that states the action, every
    property passed, the side as "bid" for 0 and "ask" otherwise. *)
Definition builderCall (this : PermitBuilder) (now : Z) (signer : PublicKey)
    (permit : PermitAction) (givenNonce expiresIn : option Z)
    (relayerKey : option PublicKey) : PermitEnvelopeV1 :=
  let sideName (side : Z) := if side =? 0 then "bid" else "ask" in
  match permit with
  | Place marketId clientId side qty price tif reduceOnly triggerPrice triggerType
          healthFloor =>
      Builder.placeOrder this now signer marketId clientId (sideName side) qty price
        (Some tif) (Some reduceOnly) triggerPrice (Some triggerType) healthFloor
        givenNonce expiresIn relayerKey
  | Modify marketId cancelOrderId newClientId side qty price tif reduceOnly
           triggerPrice triggerType healthFloor =>
      Builder.modify this now signer marketId cancelOrderId newClientId (sideName side)
        qty price (Some tif) (Some reduceOnly) triggerPrice (Some triggerType)
        healthFloor givenNonce expiresIn relayerKey
  | CancelById marketId orderId =>
      Builder.cancelById this now signer marketId orderId givenNonce expiresIn relayerKey
  | CancelByClientId marketId clientId =>
      Builder.cancelByClientId this now signer marketId clientId givenNonce expiresIn
        relayerKey
  | CancelAll marketId =>
      Builder.cancelAll this now signer marketId givenNonce expiresIn relayerKey
  | Faucet marketId amount recipient =>
      Builder.faucet this now signer marketId amount recipient givenNonce expiresIn
        relayerKey
  | Withdraw amount toOwner healthFloor =>
      Builder.withdraw this now signer amount toOwner healthFloor givenNonce expiresIn
        relayerKey
  | SetLeverage marketId targetLeverageBps healthFloor =>
      Builder.setLeverage this now signer marketId targetLeverageBps healthFloor
        givenNonce expiresIn relayerKey
  | Noop => Builder.noop this now signer givenNonce expiresIn relayerKey
  end.

(** ** Example data *)

(** The market the client registers ([clients.ts]). *)
Definition btcPerp : HyperliquidMarketConfig :=
  {| index := 0; symbol := "BTC-PERP"; marketId := 64;
     baseDecimals := 8; quoteDecimals := 6 |}.

Definition sampleKey (b : Z) : PublicKey := List.repeat b 32.

Definition sampleContext : HyperliquidPermitContext :=
  createHyperliquidContext [btcPerp] (sampleKey 7) (sampleKey 9)
                           (Some Testnet) None None None None.

(** The order of the README: bid 0.00021 at 131425 on asset 0. *)
Definition sampleOrder (c : option string) (tif : string) : HyperliquidOrderRequest :=
  {| order_a := Some (Num 0); order_b := true; order_p := "131425";
     order_s := "0.00021"; order_r := false;
     order_t := Some {| limit := Some {| limit_tif := Some tif |}; trigger := None |};
     order_c := c |}.

(** An object without order properties. *)
Definition noOrder : HyperliquidOrderRequest :=
  {| order_a := None; order_b := false; order_p := "undefined";
     order_s := "undefined"; order_r := false; order_t := None; order_c := None |}.

(** An action of the given type with no other property. *)
Definition bareAction (type : string) : HyperliquidExchangeAction :=
  {| action_type := type; action_order := None; action_cancels := None;
     action_asset := None; action_leverage := None; action_amount := None;
     action_marketId := None; action_recipient := None; action_orders := None;
     action_modifies := None; action_oid := None; action_self := noOrder |}.

Definition noPublicKey (s : string) : option PublicKey := None.

(** The number 1.1: 4953959590107546 * 2^-52, the datum nearest to 11/10. *)
Definition onePointOne : number :=
  NonInteger (S754_finite false 4953959590107546 (-52)).

(** The number 1.5: 6755399441055744 * 2^-52. *)
Definition onePointFive : number :=
  NonInteger (S754_finite false 6755399441055744 (-52)).

(** An updateLeverage action on asset 0. *)
Definition leverageAction (leverage : option number) : HyperliquidExchangeAction :=
  {| action_type := "updateLeverage"; action_order := None; action_cancels := None;
     action_asset := Some (Num 0); action_leverage := leverage; action_amount := None;
     action_marketId := None; action_recipient := None; action_orders := None;
     action_modifies := None; action_oid := None; action_self := noOrder |}.

Definition sampleEnvelope (action : PermitAction) (mode : ReplayMode)
    (relayer : option PublicKey) : PermitEnvelopeV1 :=
  {| domain := {| programId := sampleKey 7; version := 1; cluster := Mainnet |};
     authorizer := sampleKey 9; keyType := Ed25519; action := action; mode := mode;
     expiresUnix := 1700000060; maxFeeQuote := 1000000; relayer := relayer;
     nonce := 1700000000123 |}.

(** * Proofs *)

(** ** Time in force *)

(** C5 (counterexample): the lower-case spelling of GTC is rejected. *)
Lemma toTimeInForceValue_rejects_lower_case :
  toLowerCase "gtc" = toLowerCase "GTC" /\
  toTimeInForceValue "gtc" = Throw (UnsupportedTimeInForce "gtc").
Proof. split; reflexivity. Qed.

(** C5 (amended): exactly the six spellings Gtc, GTC, Ioc, IOC, Alo and ALO
    are accepted; every other string, another casing included, throws
    UnsupportedTimeInForce. *)
Theorem toTimeInForceValue_exact_spellings (tif : string) :
  ((tif = "Gtc" \/ tif = "GTC") /\ toTimeInForceValue tif = Ok GTC) \/
  ((tif = "Ioc" \/ tif = "IOC") /\ toTimeInForceValue tif = Ok IOC) \/
  ((tif = "Alo" \/ tif = "ALO") /\ toTimeInForceValue tif = Ok ALO) \/
  (~ In tif ["Gtc"; "GTC"; "Ioc"; "IOC"; "Alo"; "ALO"] /\
   toTimeInForceValue tif = Throw (UnsupportedTimeInForce tif)).
Proof.
  unfold toTimeInForceValue.
  destruct (String.eqb_spec tif "Gtc") as [->|n1]; [left; split; [now left | reflexivity]|].
  destruct (String.eqb_spec tif "GTC") as [->|n2]; [left; split; [now right | reflexivity]|].
  destruct (String.eqb_spec tif "Ioc") as [->|n3];
    [right; left; split; [now left | reflexivity]|].
  destruct (String.eqb_spec tif "IOC") as [->|n4];
    [right; left; split; [now right | reflexivity]|].
  destruct (String.eqb_spec tif "Alo") as [->|n5];
    [right; right; left; split; [now left | reflexivity]|].
  destruct (String.eqb_spec tif "ALO") as [->|n6];
    [right; right; left; split; [now right | reflexivity]|].
  right; right; right; split; [|reflexivity].
  simpl; intros H; repeat destruct H as [H|H]; congruence.
Qed.

(** ** Fixed-point conversion *)

Lemma isDigit_range c :
  isDigit c = true -> 48 <= Z.of_nat (nat_of_ascii c) <= 57.
Proof.
  unfold isDigit. rewrite andb_true_iff, !Nat.leb_le. lia.
Qed.

Lemma isDigit_digitValue c :
  isDigit c = true -> Js.digitValue 10 c = Some (Z.of_nat (nat_of_ascii c) - 48).
Proof.
  intros H. apply isDigit_range in H. unfold Js.digitValue.
  replace (48 <=? Z.of_nat (nat_of_ascii c)) with true by (symmetry; apply Z.leb_le; lia).
  replace (Z.of_nat (nat_of_ascii c) <=? 57) with true by (symmetry; apply Z.leb_le; lia).
  simpl.
  replace (Z.of_nat (nat_of_ascii c) - 48 <? 10) with true
    by (symmetry; apply Z.ltb_lt; lia).
  reflexivity.
Qed.

Lemma parseDigitsAcc_digits s : forall acc,
  allDigits s = true -> Js.parseDigitsAcc 10 s acc = Some (digitsValueAcc s acc).
Proof.
  induction s as [|c r IH]; intros acc H; simpl in *; [reflexivity|].
  apply andb_true_iff in H as [Hc Hr].
  rewrite (isDigit_digitValue _ Hc). now apply IH.
Qed.

Lemma digitsValueAcc_app a : forall b acc,
  digitsValueAcc (a ++ b) acc = digitsValueAcc b (digitsValueAcc a acc).
Proof.
  induction a as [|c r IH]; intros b acc; simpl; [reflexivity|apply IH].
Qed.

Lemma digitsValueAcc_shift s : forall acc,
  digitsValueAcc s acc = acc * 10 ^ Z.of_nat (String.length s) + digitsValueAcc s 0.
Proof.
  induction s as [|c r IH]; intros acc.
  - simpl. lia.
  - cbn [digitsValueAcc String.length]. rewrite IH.
    rewrite (IH (10 * 0 + _)). rewrite Nat2Z.inj_succ, Z.pow_succ_r by lia. ring.
Qed.

Lemma digitsValue_bounds s :
  allDigits s = true -> 0 <= digitsValue s < 10 ^ Z.of_nat (String.length s).
Proof.
  unfold digitsValue. induction s as [|c r IH]; intros H.
  - simpl. lia.
  - cbn [allDigits] in H. apply andb_true_iff in H as [Hc Hr].
    apply isDigit_range in Hc. specialize (IH Hr).
    cbn [digitsValueAcc String.length]. rewrite digitsValueAcc_shift.
    rewrite Nat2Z.inj_succ, Z.pow_succ_r by lia.
    assert (0 < 10 ^ Z.of_nat (String.length r)) by (apply Z.pow_pos_nonneg; lia).
    nia.
Qed.

Lemma allDigits_app a b :
  allDigits (a ++ b) = allDigits a && allDigits b.
Proof.
  induction a as [|c r IH]; simpl; [reflexivity|]. now rewrite IH, andb_assoc.
Qed.

Lemma allDigits_repeat n : allDigits (Js.repeat "0" n) = true.
Proof. induction n; simpl; auto. Qed.

Lemma digitsValueAcc_repeat n : forall acc,
  digitsValueAcc (Js.repeat "0" n) acc = acc * 10 ^ Z.of_nat n.
Proof.
  induction n as [|n IH]; intros acc.
  - simpl. lia.
  - cbn [Js.repeat digitsValueAcc]. rewrite IH.
    rewrite Nat2Z.inj_succ, Z.pow_succ_r by lia.
    change (Z.of_nat (nat_of_ascii "0")) with 48. ring.
Qed.

Lemma length_append a b :
  String.length (a ++ b) = (String.length a + String.length b)%nat.
Proof. induction a; simpl; auto. Qed.

Lemma length_repeat c n : String.length (Js.repeat c n) = n.
Proof. induction n; simpl; auto. Qed.

(** *** The string operations on digit strings *)

Lemma isDigit_neq c x : isDigit c = true -> isDigit x = false -> Ascii.eqb c x = false.
Proof.
  intros Hc Hx. destruct (Ascii.eqb_spec c x); [subst; congruence|reflexivity].
Qed.

Lemma split_digits w :
  allDigits w = true -> Js.split "." w = [w].
Proof.
  induction w as [|c r IH]; intros H; simpl in *; [reflexivity|].
  apply andb_true_iff in H as [Hc Hr].
  rewrite (isDigit_neq c "." Hc eq_refl), (IH Hr). reflexivity.
Qed.

Lemma split_point w f :
  allDigits w = true -> allDigits f = true ->
  Js.split "." (w ++ "." ++ f) = [w; f].
Proof.
  intros Hw Hf. induction w as [|c r IH]; simpl in *.
  - now rewrite (split_digits f Hf).
  - apply andb_true_iff in Hw as [Hc Hr].
    rewrite (isDigit_neq c "." Hc eq_refl), (IH Hr). reflexivity.
Qed.

Lemma substring_0_app a : forall n b,
  String.substring 0 n (a ++ b) =
    if (n <=? String.length a)%nat then String.substring 0 n a
    else (a ++ String.substring 0 (n - String.length a) b)%string.
Proof.
  induction a as [|c r IH]; intros n b.
  - simpl. destruct n; simpl; [now destruct b|]. reflexivity.
  - destruct n as [|n]; [reflexivity|].
    cbn [String.append String.substring String.length]. rewrite IH.
    change (S n <=? S (String.length r))%nat with (n <=? String.length r)%nat.
    destruct (n <=? String.length r)%nat; reflexivity.
Qed.

Lemma substring_0_repeat n m :
  (n <= m)%nat -> String.substring 0 n (Js.repeat "0" m) = Js.repeat "0" n.
Proof.
  revert m; induction n as [|n IH]; intros m H.
  - destruct m; reflexivity.
  - destruct m as [|m]; [lia|]. simpl. rewrite IH by lia. reflexivity.
Qed.

Lemma substring_0_split s : forall n,
  (n <= String.length s)%nat ->
  exists rest, s = (String.substring 0 n s ++ rest)%string /\
               String.length rest = (String.length s - n)%nat.
Proof.
  induction s as [|c r IH]; intros n H.
  - exists EmptyString. destruct n; simpl in *; auto; lia.
  - destruct n as [|n].
    + exists (String c r). simpl. auto.
    + simpl in H. destruct (IH n ltac:(lia)) as (rest & E & L).
      exists rest. simpl. split; [now rewrite <- E|assumption].
Qed.

Lemma stripLeadingZeros_digits s :
  allDigits s = true ->
  allDigits (Js.stripLeadingZeros s) = true /\
  digitsValue (Js.stripLeadingZeros s) = digitsValue s /\
  (Js.stripLeadingZeros s = EmptyString \/
   exists c r, Js.stripLeadingZeros s = String c r /\ isDigit c = true /\
               Ascii.eqb c "0" = false).
Proof.
  unfold digitsValue. induction s as [|c r IH]; intros H.
  - simpl. auto.
  - cbn [allDigits] in H. apply andb_true_iff in H as [Hc Hr].
    cbn [Js.stripLeadingZeros]. destruct (Ascii.eqb_spec c "0") as [->|n].
    + destruct (IH Hr) as (A & B & C). repeat split; auto.
    + repeat split.
      * simpl. now rewrite Hc, Hr.
      * right. exists c, r. repeat split; auto.
        destruct (Ascii.eqb_spec c "0"); congruence.
Qed.

Lemma isDigit_not_white c : isDigit c = true -> Js.isWhiteSpace c = false.
Proof.
  unfold isDigit, Js.isWhiteSpace. rewrite andb_true_iff, !Nat.leb_le. intros H.
  apply orb_false_iff. split.
  - apply andb_false_iff. right. apply Nat.leb_gt. lia.
  - apply Nat.eqb_neq. lia.
Qed.

(** Nothing is trimmed from a string of ASCII characters that are no white
    space. *)
Lemma afterWhiteSpace_plain c r :
  Js.isWhiteSpace c = false -> (nat_of_ascii c < 128)%nat ->
  Js.afterWhiteSpace (String c r) = None.
Proof.
  intros Hw Hc. unfold Js.afterWhiteSpace. rewrite Hw.
  replace (nat_of_ascii c <? 194)%nat with true; [reflexivity|].
  symmetry. apply Nat.ltb_lt. lia.
Qed.

Lemma trimStart_noWhiteSpace s : noWhiteSpace s = true -> Js.trimStart s = s.
Proof.
  destruct s as [|c r]; [reflexivity|]. cbn [noWhiteSpace].
  rewrite !andb_true_iff, negb_true_iff, Nat.ltb_lt. intros [[Hw Hc] _].
  unfold Js.trimStart. cbn [String.length Js.trimStartFrom].
  now rewrite afterWhiteSpace_plain.
Qed.

Lemma trimEnd_noWhiteSpace s : noWhiteSpace s = true -> Js.trimEnd s = s.
Proof.
  induction s as [|c r IH]; [reflexivity|]. intros H.
  cbn [Js.trimEnd]. unfold Js.isBlank. rewrite (trimStart_noWhiteSpace _ H).
  cbn [noWhiteSpace] in H. apply andb_true_iff in H as [_ Hr]. now rewrite (IH Hr).
Qed.

Lemma trim_noWhiteSpace s : noWhiteSpace s = true -> Js.trim s = s.
Proof.
  intros H. unfold Js.trim. rewrite (trimStart_noWhiteSpace _ H).
  now apply trimEnd_noWhiteSpace.
Qed.

Lemma allDigits_noWhiteSpace s : allDigits s = true -> noWhiteSpace s = true.
Proof.
  induction s as [|c r IH]; [reflexivity|]. cbn [allDigits noWhiteSpace].
  rewrite andb_true_iff. intros [Hc Hr].
  rewrite (isDigit_not_white c Hc), (IH Hr), andb_true_r. cbn [negb andb].
  apply Nat.ltb_lt. unfold isDigit in Hc. apply andb_true_iff in Hc as [_ Hc].
  apply Nat.leb_le in Hc. lia.
Qed.

Lemma trimEnd_digits s : allDigits s = true -> Js.trimEnd s = s.
Proof. intros H. now apply trimEnd_noWhiteSpace, allDigits_noWhiteSpace. Qed.

Lemma trim_digits s : allDigits s = true -> Js.trim s = s.
Proof. intros H. now apply trim_noWhiteSpace, allDigits_noWhiteSpace. Qed.

Lemma BigInt_digits c r :
  allDigits (String c r) = true -> Ascii.eqb c "0" = false ->
  Js.BigInt (String c r) = Ok (digitsValue (String c r)).
Proof.
  intros H Hz. unfold Js.BigInt, Js.stringToBigInt.
  rewrite (trim_digits _ H).
  pose proof H as H'. cbn [allDigits] in H'. apply andb_true_iff in H' as [Hc _].
  rewrite (isDigit_neq c "-" Hc eq_refl), (isDigit_neq c "+" Hc eq_refl), Hz.
  unfold Js.parseDigits. now rewrite (parseDigitsAcc_digits _ 0 H).
Qed.

(** The magnitude [decimalToFixed] computes from the digits. *)
Lemma BigInt_stripped s :
  allDigits s = true ->
  Js.BigInt (if String.eqb (Js.stripLeadingZeros s) EmptyString then "0"
             else Js.stripLeadingZeros s) = Ok (digitsValue s).
Proof.
  intros H. destruct (stripLeadingZeros_digits s H) as (A & B & [E | (c & r & E & Hc & Hz)]).
  - rewrite E in *. simpl. rewrite <- B. reflexivity.
  - rewrite E in *. simpl. rewrite <- B. now apply BigInt_digits.
Qed.

Lemma pow10_pos n : 0 < 10 ^ Z.of_nat n.
Proof. apply Z.pow_pos_nonneg; lia. Qed.

Lemma normalizedFraction_value w f d :
  allDigits w = true -> allDigits f = true ->
  allDigits (w ++ Js.slice0 (f ++ Js.repeat "0" d) d) = true /\
  digitsValue (w ++ Js.slice0 (f ++ Js.repeat "0" d) d) =
    digitsValue (w ++ f) * 10 ^ Z.of_nat d / 10 ^ Z.of_nat (String.length f).
Proof.
  intros Hw Hf. unfold Js.slice0. rewrite substring_0_app.
  pose proof (pow10_pos (String.length f)) as Pf.
  destruct (Nat.leb_spec d (String.length f)) as [Hle|Hgt].
  - destruct (substring_0_split f d Hle) as (rest & E & L).
    set (pre := String.substring 0 d f) in *.
    assert (allDigits pre = true /\ allDigits rest = true) as [Hp Hr].
    { rewrite E, allDigits_app in Hf. now apply andb_true_iff in Hf. }
    split; [rewrite allDigits_app, Hw, Hp; reflexivity|].
    assert (String.length pre = d) as Lp.
    { apply (f_equal String.length) in E. rewrite length_append in E. lia. }
    clearbody pre. subst f.
    rewrite length_append, Lp, Nat2Z.inj_add, Z.pow_add_r by lia.
    rewrite length_append, Lp in L.
    replace (d + String.length rest - d)%nat with (String.length rest) in L by lia.
    unfold digitsValue.
    replace (w ++ pre ++ rest)%string with ((w ++ pre) ++ rest)%string
      by (clear; induction w; simpl; congruence).
    rewrite (digitsValueAcc_app (w ++ pre) rest), (digitsValueAcc_shift rest).
    pose proof (digitsValue_bounds rest Hr) as B.
    unfold digitsValue in B.
    pose proof (pow10_pos d). pose proof (pow10_pos (String.length rest)).
    set (P := digitsValueAcc (w ++ pre) 0) in *.
    set (R := digitsValueAcc rest 0) in *.
    set (a := 10 ^ Z.of_nat d) in *. set (b := 10 ^ Z.of_nat (String.length rest)) in *.
    rewrite (Z.mul_comm a b), Z.div_mul_cancel_r by lia.
    apply Z.div_unique with (r := R); lia.
  - split; [rewrite !allDigits_app, Hw, Hf, substring_0_repeat, allDigits_repeat by lia;
            reflexivity|].
    rewrite substring_0_repeat by lia.
    unfold digitsValue.
    replace (w ++ f ++ Js.repeat "0" (d - String.length f))%string
      with ((w ++ f) ++ Js.repeat "0" (d - String.length f))%string
      by (clear; induction w; simpl; congruence).
    rewrite digitsValueAcc_app, digitsValueAcc_repeat.
    replace (Z.of_nat d) with (Z.of_nat (d - String.length f) + Z.of_nat (String.length f))
      by lia.
    rewrite Z.pow_add_r by lia. rewrite Z.mul_assoc, Z.div_mul by lia. reflexivity.
Qed.

Lemma startsWith_digits_tail w tail x :
  allDigits w = true -> isDigit x = false ->
  (tail = EmptyString \/ exists f, tail = ("." ++ f)%string) -> Ascii.eqb x "." = false ->
  Js.startsWith (w ++ tail) (String x EmptyString) = false.
Proof.
  intros Hw Hx Ht Hp. unfold Js.startsWith. destruct w as [|c r].
  - destruct Ht as [->|(f & ->)]; simpl; [reflexivity|].
    destruct (ascii_dec x "."); [subst; discriminate|reflexivity].
  - simpl in *. apply andb_true_iff in Hw as [Hc _].
    destruct (ascii_dec x c); [subst; congruence|reflexivity].
Qed.

Lemma startsWith_same c s : Js.startsWith (String c s) (String c EmptyString) = true.
Proof.
  unfold Js.startsWith. simpl. destruct (ascii_dec c c); [now destruct s|congruence].
Qed.

(** The unsigned part of a decimal string and its two pieces. *)
Lemma decimalToFixed_unsigned w fraction d :
  allDigits w = true -> allDigits (fractionDigits fraction) = true ->
  let unsigned := (w ++ match fraction with Some f => "." ++ f | None => "" end)%string in
  let parts := Js.split "." unsigned in
  Js.BigInt
    (if String.eqb
          (Js.stripLeadingZeros
             (nth 0 parts EmptyString ++
              Js.slice0 (nth 1 parts EmptyString ++ Js.repeat "0" d) d)) EmptyString
     then "0"
     else Js.stripLeadingZeros
            (nth 0 parts EmptyString ++
             Js.slice0 (nth 1 parts EmptyString ++ Js.repeat "0" d) d)) =
  Ok (digitsValue (w ++ fractionDigits fraction) * 10 ^ Z.of_nat d
      / 10 ^ Z.of_nat (String.length (fractionDigits fraction))).
Proof.
  intros Hw Hf unsigned parts.
  assert (nth 0 parts EmptyString = w /\ nth 1 parts EmptyString = fractionDigits fraction)
    as [-> ->].
  { subst parts unsigned. destruct fraction as [f|]; cbn [fractionDigits] in *.
    - rewrite split_point by assumption. split; reflexivity.
    - replace (w ++ "")%string with w by (clear; induction w; simpl; congruence).
      rewrite split_digits by assumption. split; reflexivity. }
  destruct (normalizedFraction_value w (fractionDigits fraction) d Hw Hf) as [A B].
  rewrite BigInt_stripped by assumption. now rewrite B.
Qed.

Lemma decimalToFixed_value sign whole fraction decimals :
  allDigits whole = true -> allDigits (fractionDigits fraction) = true ->
  decimalToFixed (decimalString sign whole fraction) decimals =
    Ok (Z.quot (decimalNumerator sign whole fraction * 10 ^ Z.of_nat decimals)
               (10 ^ Z.of_nat (String.length (fractionDigits fraction)))).
Proof.
  intros Hw Hf.
  pose proof (decimalToFixed_unsigned whole fraction decimals Hw Hf) as U.
  cbv zeta in U.
  pose proof (digitsValue_bounds (whole ++ fractionDigits fraction)) as B.
  rewrite allDigits_app, Hw, Hf in B. specialize (B eq_refl).
  pose proof (pow10_pos decimals). pose proof (pow10_pos (String.length (fractionDigits fraction))).
  set (tail := match fraction with Some f => ("." ++ f)%string | None => EmptyString end) in *.
  assert (Ht : tail = EmptyString \/ exists f, tail = ("." ++ f)%string).
  { subst tail. destruct fraction; eauto. }
  unfold decimalToFixed, decimalString, decimalNumerator. fold tail.
  destruct sign.
  - change ("" ++ whole ++ tail)%string with (whole ++ tail)%string.
    rewrite (startsWith_digits_tail whole tail "-" Hw eq_refl Ht eq_refl).
    rewrite (startsWith_digits_tail whole tail "+" Hw eq_refl Ht eq_refl).
    cbn [orb]. rewrite U. cbn [bind].
    rewrite Z.quot_div_nonneg by nia. reflexivity.
  - change (Js.startsWith ("+" ++ whole ++ tail) "-") with false.
    change ("+" ++ whole ++ tail)%string with (String "+" (whole ++ tail)).
    rewrite startsWith_same.
    cbn [orb]. cbn [Js.slice1].
    rewrite U. cbn [bind]. rewrite Z.quot_div_nonneg by nia. reflexivity.
  - change ("-" ++ whole ++ tail)%string with (String "-" (whole ++ tail)).
    rewrite startsWith_same.
    cbn [orb]. cbn [Js.slice1].
    rewrite U. cbn [bind]. rewrite Z.mul_opp_l, Z.quot_opp_l by lia.
    rewrite Z.quot_div_nonneg by nia. reflexivity.
Qed.

(** C4 (counterexample): on a negative value with digits cut off, the result
    exceeds the exact scaled value: -1.57 at one decimal gives -15, above
    -15.7. *)
Lemma decimalToFixed_negative_exceeds_exact :
  decimalToFixed (decimalString Minus "1" (Some "57")) 1 = Ok (-15) /\
  decimalNumerator Minus "1" (Some "57") = -157 /\
  (-15) * 10 ^ 2 > (-157) * 10 ^ 1.
Proof. repeat split. Qed.

(** C4 (amended): the three examples hold, and for every decimal string (an
    optional sign, digits, an optional point and digits) the result is the
    exact scaled value truncated toward zero: the sign is preserved and the
    magnitude is never rounded up, so the result never exceeds the exact
    scaled value of a value that is not negative. *)
Theorem decimalToFixed_truncates_toward_zero :
  (decimalToFixed "131425" 6 = Ok 131425000000 /\
   decimalToFixed "0.00021" 8 = Ok 21000 /\
   decimalToFixed "-1.5" 2 = Ok (-150)) /\
  forall sign whole fraction decimals,
    allDigits whole = true -> allDigits (fractionDigits fraction) = true ->
    let n := decimalNumerator sign whole fraction in
    let scale := 10 ^ Z.of_nat (String.length (fractionDigits fraction)) in
    let exact := n * 10 ^ Z.of_nat decimals in
    exists r,
      decimalToFixed (decimalString sign whole fraction) decimals = Ok r /\
      r = Z.quot exact scale /\
      Z.abs r * scale <= Z.abs exact < (Z.abs r + 1) * scale /\
      (0 <= n -> 0 <= r /\ r * scale <= exact) /\
      (n <= 0 -> r <= 0 /\ exact <= r * scale).
Proof.
  split; [repeat split|].
  intros sign whole fraction decimals Hw Hf n scale exact.
  exists (Z.quot exact scale).
  split; [now apply decimalToFixed_value|].
  split; [reflexivity|].
  assert (0 < scale) by apply pow10_pos.
  assert (0 < 10 ^ Z.of_nat decimals) by apply pow10_pos.
  pose proof (Z.quot_rem' exact scale) as E.
  assert (Hsplit : (0 <= exact /\ 0 <= n) \/ (exact <= 0 /\ n <= 0)).
  { subst exact. nia. }
  destruct Hsplit as [[He Hn]|[He Hn]].
  - pose proof (Z.rem_bound_pos exact scale He ltac:(lia)) as R.
    pose proof (Z.quot_pos exact scale He ltac:(lia)) as Q.
    repeat split; try lia; try nia.
  - assert (Eq : Z.quot exact scale = - Z.quot (- exact) scale).
    { rewrite Z.quot_opp_l by lia. lia. }
    pose proof (Z.quot_rem' (- exact) scale) as E'.
    pose proof (Z.rem_bound_pos (- exact) scale ltac:(lia) ltac:(lia)) as R.
    pose proof (Z.quot_pos (- exact) scale ltac:(lia) ltac:(lia)) as Q.
    rewrite Eq. repeat split; try lia; try nia.
Qed.

(** C4 (witness): 0.00021 at eight decimals. *)
Lemma decimalToFixed_truncates_toward_zero_witness :
  exists r, decimalToFixed "0.00021" 8 = Ok r /\ r = 21000.
Proof.
  destruct (proj2 decimalToFixed_truncates_toward_zero NoSign "0" (Some "00021") 8%nat
              eq_refl eq_refl) as (r & E & V & _).
  exists r. split; [exact E|]. rewrite V. reflexivity.
Defined.

(** ** Exchange adapter *)

Lemma fst_let {A B C : Type} (p : A * B) (f : A -> C) (g : B -> B) :
  fst (let (r, x) := p in (f r, g x)) = f (fst p).
Proof. now destruct p. Qed.

(** The envelopes are the permit actions, one each, with the nonce of the
    action. *)
Lemma buildPermitEnvelopes_nonces pk now request context :
  match fst (envelopesOfRead pk now request context),
        fst (switchOnType pk now request context) with
  | Ok envelopes, Ok infos =>
      map nonce envelopes = map info_nonce infos /\
      map action envelopes = map permitAction infos
  | Throw e, Throw e' => e = e'
  | _, _ => False
  end.
Proof.
  unfold envelopesOfRead.
  destruct (switchOnType pk now request context) as [[infos|e] action']; simpl.
  - rewrite !map_map. split; reflexivity.
  - reflexivity.
Qed.

Lemma nonceRange_shift base idx n :
  map (fun i => base + (idx + Z.of_nat i)) (seq 1 n) =
  map (fun i => base + (idx + 1 + Z.of_nat i)) (seq 0 n).
Proof.
  rewrite <- seq_shift, map_map. apply map_ext. intros i. f_equal. lia.
Qed.

(** The loop of a batch: the nonces count up from [baseNonce + idx], and the
    loop throws exactly when some item does not convert. *)
Lemma forEachAdd_nonces {A : Type} (f : A -> Result PermitAction * A) baseNonce items :
  forall idx,
  match fst (forEachAdd f baseNonce items idx) with
  | Ok added =>
      map info_nonce added =
        map (fun i => baseNonce + (idx + Z.of_nat i)) (seq 0 (List.length items)) /\
      forallb (fun item => isOk (fst (f item))) items = true
  | Throw _ => forallb (fun item => isOk (fst (f item))) items = false
  end.
Proof.
  induction items as [|item rest IH]; intros idx.
  - simpl. auto.
  - cbn [forEachAdd forallb List.length].
    destruct (f item) as [[permit|e] item']; cbn [fst isOk andb]; [|reflexivity].
    specialize (IH (idx + 1)).
    destruct (forEachAdd f baseNonce rest (idx + 1)) as [[added|e] rest'];
      cbn [fst bind] in *; [|assumption].
    destruct IH as [IH1 IH2]. split; [|assumption].
    cbn [map seq info_nonce]. rewrite IH1, nonceRange_shift.
    f_equal. f_equal. lia.
Qed.

Lemma nonceRange_sorted base k : Sorted.StronglySorted Z.lt (nonceRange base k).
Proof.
  unfold nonceRange. generalize 0%nat as start.
  induction k as [|k IH]; intros start; simpl; constructor.
  - apply IH.
  - apply Forall_forall. intros x Hx. apply in_map_iff in Hx as (i & <- & Hi).
    apply in_seq in Hi. lia.
Qed.

Lemma nonceRange_NoDup base k : NoDup (nonceRange base k).
Proof.
  unfold nonceRange. apply Injective_map_NoDup; [|apply seq_NoDup].
  intros i j H. lia.
Qed.

Lemma nonceRange_length base k : List.length (nonceRange base k) = k.
Proof. unfold nonceRange. now rewrite length_map, length_seq. Qed.

(** The envelope the adapter wraps around a permit action. *)
Lemma buildPermitEnvelopes_single pk now request context permit n :
  fst (switchOnType pk now request context) =
    Ok [{| permitAction := permit; info_nonce := n |}] ->
  exists envelope,
    fst (envelopesOfRead pk now request context) = Ok [envelope] /\
    action envelope = permit /\ nonce envelope = n.
Proof.
  unfold envelopesOfRead.
  destruct (switchOnType pk now request context) as [r action']; simpl.
  intros ->. simpl. eexists. split; [reflexivity|]. split; reflexivity.
Qed.

Lemma buildPermitEnvelopes_empty pk now request context :
  fst (switchOnType pk now request context) = Ok [] ->
  fst (envelopesOfRead pk now request context) = Ok [].
Proof.
  unfold envelopesOfRead.
  destruct (switchOnType pk now request context) as [r action']; simpl.
  now intros ->.
Qed.

(** *** Reading the nonce *)

(** [BigInt(nonce)] throws nothing but a RangeError. *)
Lemma BigIntOfNumeric_throws v e : Js.BigIntOfNumeric v = Throw e -> e = RangeError.
Proof.
  destruct v as [[z|d]|n]; cbn [Js.BigIntOfNumeric Js.BigIntOfNumber];
    try discriminate.
  destruct (Num.toZ d); [discriminate|]. now intros [= <-].
Qed.

(** Once the nonce is read, the call is the switch on the type of the
    action. *)
Lemma buildPermitActions_read pk now request context base :
  Js.BigIntOfNumeric (req_nonce request) = Ok base ->
  buildPermitActions pk now request context =
    switchOnType pk now {| read_action := req_action request; read_nonce := base |}
                 context.
Proof. intros H. unfold buildPermitActions. now rewrite H. Qed.

(** A nonce that [BigInt] rejects ends the call before anything is read or
    written. *)
Lemma buildPermitActions_unread pk now request context e :
  Js.BigIntOfNumeric (req_nonce request) = Throw e ->
  buildPermitActions pk now request context = (Throw e, req_action request).
Proof. intros H. unfold buildPermitActions. now rewrite H. Qed.

Lemma buildPermitEnvelopes_read pk now request context base :
  Js.BigIntOfNumeric (req_nonce request) = Ok base ->
  buildPermitEnvelopesFromExchangeRequest pk now request context =
    (fst (envelopesOfRead pk now {| read_action := req_action request;
                                    read_nonce := base |} context),
     {| req_action :=
          snd (switchOnType pk now {| read_action := req_action request;
                                      read_nonce := base |} context);
        req_nonce := req_nonce request |}).
Proof.
  intros H. unfold buildPermitEnvelopesFromExchangeRequest, envelopesOfRead.
  rewrite (buildPermitActions_read _ _ _ _ _ H).
  now destruct (switchOnType pk now _ context).
Qed.

Lemma buildPermitEnvelopes_of_read pk now request context base :
  Js.BigIntOfNumeric (req_nonce request) = Ok base ->
  buildPermitEnvelopesFromExchangeRequest pk now request context =
    (fst (envelopesOfRead pk now {| read_action := req_action request;
                                    read_nonce := base |} context),
     {| req_action :=
          read_action (snd (envelopesOfRead pk now {| read_action := req_action request;
                                                      read_nonce := base |} context));
        req_nonce := req_nonce request |}).
Proof.
  intros H. rewrite (buildPermitEnvelopes_read _ _ _ _ _ H).
  unfold envelopesOfRead. now destruct (switchOnType pk now _ context).
Qed.

Lemma buildPermitEnvelopes_unread pk now request context e :
  Js.BigIntOfNumeric (req_nonce request) = Throw e ->
  buildPermitEnvelopesFromExchangeRequest pk now request context = (Throw e, request).
Proof.
  intros H. unfold buildPermitEnvelopesFromExchangeRequest.
  rewrite (buildPermitActions_unread _ _ _ _ _ H). now destruct request.
Qed.

(** A call that returns has read the nonce. *)
Lemma buildPermitEnvelopes_returns pk now request context envelopes :
  fst (buildPermitEnvelopesFromExchangeRequest pk now request context) = Ok envelopes ->
  exists base,
    Js.BigIntOfNumeric (req_nonce request) = Ok base /\
    fst (envelopesOfRead pk now {| read_action := req_action request;
                                   read_nonce := base |} context) = Ok envelopes.
Proof.
  destruct (Js.BigIntOfNumeric (req_nonce request)) as [base|e] eqn:Hn.
  - rewrite (buildPermitEnvelopes_of_read _ _ _ _ _ Hn). cbn [fst]. intros E.
    now exists base.
  - now rewrite (buildPermitEnvelopes_unread _ _ _ _ _ Hn).
Qed.

(** ** Leverage *)

(** The exact product that [Num.mul] takes for two integers is the binary64
    product: computed here for every whole multiplier up to 4096 in
    magnitude, times 100. *)
Lemma mul_hundred_binary64 l :
  -4096 <= l <= 4096 ->
  Num.ofDouble (SFmul Num.prec Num.emax (Num.ofZ l) (Num.ofZ 100)) = Integer (l * 100).
Proof.
  intros H.
  pose (exact := fun l =>
          match Num.ofDouble (SFmul Num.prec Num.emax (Num.ofZ l) (Num.ofZ 100)) with
          | Integer z => z =? l * 100
          | NonInteger _ => false
          end).
  assert (A : forallb exact
                (map (fun n => Z.of_nat n - 4096) (seq 0 (Z.to_nat 8193))) = true)
    by (vm_compute; reflexivity).
  rewrite forallb_forall in A.
  assert (I : In l (map (fun n => Z.of_nat n - 4096) (seq 0 (Z.to_nat 8193)))).
  { apply in_map_iff. exists (Z.to_nat (l + 4096)). split; [lia|].
    apply in_seq. lia. }
  specialize (A l I). unfold exact in A.
  destruct (Num.ofDouble _) as [z|d]; [|discriminate A].
  apply Z.eqb_eq in A. now subst.
Qed.

Lemma SFcompare_antisym x y c :
  SFcompare x y = Some c -> SFcompare y x = Some (CompOpp c).
Proof.
  destruct x as [sx|sx| |sx mx ex], y as [sy|sy| |sy my ey]; cbn [SFcompare];
    try discriminate; intros [= <-];
    try (destruct sx; reflexivity); try (destruct sy; reflexivity);
    try (destruct sx, sy; reflexivity); try reflexivity.
  f_equal. rewrite (Z.compare_antisym ex ey).
  change PosDef.Pos.compare_cont with Pos.compare_cont.
  pose proof (Pos.compare_cont_antisym mx my Eq) as P. cbn [CompOpp] in P.
  destruct sx, sy; try reflexivity;
    destruct (ex ?= ey); cbn [CompOpp]; try reflexivity; rewrite <- P;
    now destruct (Pos.compare_cont Eq mx my).
Qed.

Lemma SFcompare_nan_r x : SFcompare x S754_nan = None.
Proof. now destruct x. Qed.

(** [Math.min(x, c)] is never above [c]. *)
Lemma min_not_above x c : Num.ltb c (Num.min x c) = false.
Proof.
  assert (R : forall d, SFltb d d = false).
  { intros d. unfold SFltb. destruct (SFcompare d d) as [[]|] eqn:E; try reflexivity.
    pose proof (SFcompare_antisym _ _ _ E) as E'. rewrite E in E'. discriminate. }
  assert (G : Num.ltb c c = false).
  { destruct c as [b|d]; cbn [Num.ltb Num.toDouble]; [apply Z.ltb_irrefl | apply R]. }
  assert (M : forall dx dc r,
            SFcompare dx dc = Some r -> r <> Gt -> SFltb dc dx = false).
  { intros dx dc r E N. apply SFcompare_antisym in E. unfold SFltb. rewrite E.
    destruct r; try reflexivity. contradiction. }
  destruct x as [a|dx], c as [b|dc]; cbn [Num.min Num.toDouble].
  - cbn [Num.ltb]. apply Z.ltb_ge. lia.
  - destruct (SFcompare (Num.ofZ a) dc) as [[]|] eqn:E; try exact G.
    + cbn [Num.ltb Num.toDouble]. now apply (M _ _ _ E).
    + cbn [Num.ltb Num.toDouble]. now apply (M _ _ _ E).
    + unfold Num.NaN. cbn [Num.ltb Num.toDouble]. unfold SFltb.
      now rewrite SFcompare_nan_r.
  - destruct (SFcompare dx (Num.ofZ b)) as [[]|] eqn:E; try exact G.
    + cbn [Num.ltb Num.toDouble]. now apply (M _ _ _ E).
    + cbn [Num.ltb Num.toDouble]. now apply (M _ _ _ E).
    + unfold Num.NaN. cbn [Num.ltb Num.toDouble]. unfold SFltb.
      now rewrite SFcompare_nan_r.
  - destruct (SFcompare dx dc) as [[]|] eqn:E; try exact G.
    + cbn [Num.ltb Num.toDouble]. now apply (M _ _ _ E).
    + cbn [Num.ltb Num.toDouble]. now apply (M _ _ _ E).
    + unfold Num.NaN. cbn [Num.ltb Num.toDouble]. unfold SFltb.
      now rewrite SFcompare_nan_r.
Qed.

(** C8 (counterexample): a negative multiplier is not clamped to 0, and a
    fractional multiplier gives the binary64 product, which is not rounded to
    an integer: -1 gives -100, and 1.1 gives 110.00000000000001. *)
Lemma updateLeverage_negative_not_clamped :
  map action
    (match fst (buildPermitEnvelopesFromExchangeRequest noPublicKey 1700000000123
                  {| req_action := leverageAction (Some (Integer (-1)));
                     req_nonce := ABigInt 1000 |} sampleContext) with
     | Ok envelopes => envelopes
     | Throw _ => []
     end) = [SetLeverage 64 (Integer (-100)) None] /\
  clampU16 (-1 * 100) = 0 /\
  map action
    (match fst (buildPermitEnvelopesFromExchangeRequest noPublicKey 1700000000123
                  {| req_action := leverageAction (Some onePointOne);
                     req_nonce := ABigInt 1000 |} sampleContext) with
     | Ok envelopes => envelopes
     | Throw _ => []
     end) = [SetLeverage 64 (NonInteger (S754_finite false 7740561859543041 (-46))) None] /\
  onePointOne = Num.ofDouble (SFdiv Num.prec Num.emax (Num.ofZ 11) (Num.ofZ 10)).
Proof. repeat split; vm_compute; reflexivity. Qed.

(** C8 (amended): the basis points are [Math.min(L * 100, 65535)] in binary64
    arithmetic, for every multiplier L (0 when it is missing), given that the
    asset resolves and the nonce is an integer.  The value is capped from
    above only: it is never above 65535.  For an integral L whose product is
    exact it is the integer min(L * 100, 65535), which for L >= 0 is L * 100
    clamped into [0, 65535]. *)
Theorem updateLeverage_caps_basis_points pk now request context market base :
  action_type (req_action request) = "updateLeverage" ->
  resolveMarket (action_asset (req_action request)) context = Ok market ->
  Js.BigIntOfNumeric (req_nonce request) = Ok base ->
  let leverage :=
    match action_leverage (req_action request) with
    | Some l => l
    | None => Integer 0
    end in
  let bps := Num.min (Num.mul leverage (Integer 100)) (Integer 65535) in
  exists envelope,
    fst (buildPermitEnvelopesFromExchangeRequest pk now request context) =
      Ok [envelope] /\
    action envelope = SetLeverage (marketId market) bps None /\
    nonce envelope = base /\
    Num.ltb (Integer 65535) bps = false /\
    forall l, leverage = Integer l -> Z.abs (l * 100) <= 2 ^ 53 ->
      bps = Integer (Z.min (l * 100) 65535) /\
      (0 <= l -> bps = Integer (clampU16 (l * 100))).
Proof.
  intros Ht Hm Hn leverage bps.
  destruct (buildPermitEnvelopes_single pk now
              {| read_action := req_action request; read_nonce := base |} context
              (SetLeverage (marketId market) bps None) (base + 0))
    as (envelope & E & A & N).
  { unfold switchOnType. cbn [read_action read_nonce]. rewrite Ht.
    simpl (String.eqb _ _). cbv iota.
    destruct (action_asset (req_action request)) as [asset|] eqn:Ea;
      [|discriminate Hm].
    rewrite Hm. reflexivity. }
  exists envelope. rewrite (buildPermitEnvelopes_read _ _ _ _ _ Hn). cbn [fst].
  split; [exact E|]. split; [exact A|]. split; [rewrite N; lia|].
  split; [apply min_not_above|].
  intros l El Hl. subst bps. rewrite El. cbn [Num.mul].
  replace (Z.abs (l * 100) <=? 2 ^ 53) with true by (symmetry; now apply Z.leb_le).
  cbn [Num.min]. split; [reflexivity|]. intros H0. unfold clampU16. f_equal. lia.
Qed.

(** C8 (witness): the multiplier 1000 on asset 0 reaches the cap. *)
Lemma updateLeverage_caps_basis_points_witness :
  exists envelope,
    fst (buildPermitEnvelopesFromExchangeRequest noPublicKey 1700000000123
           {| req_action := leverageAction (Some (Integer 1000));
              req_nonce := ANumber (Integer 1000) |} sampleContext) = Ok [envelope] /\
    action envelope = SetLeverage 64 (Integer 65535) None.
Proof.
  destruct (updateLeverage_caps_basis_points noPublicKey 1700000000123
           {| req_action := leverageAction (Some (Integer 1000));
              req_nonce := ANumber (Integer 1000) |} sampleContext btcPerp 1000
           eq_refl eq_refl eq_refl)
    as (envelope & E & A & _).
  exists envelope. split; [exact E | exact A].
Defined.

(** ** Requests that yield no envelope *)

Lemma switchOnType_incomplete pk now request context :
  let action := read_action request in
  ~ In (action_type action) supportedTypes \/
  (action_type action = "order" /\
   match action_order action with
   | Some order => order_a order = None
   | None => order_a (action_self action) = None
   end) \/
  (action_type action = "modify" /\ action_order action = None) \/
  (action_type action = "updateLeverage" /\ action_asset action = None) \/
  (action_type action = "withdraw" /\ action_amount action = None) ->
  fst (envelopesOfRead pk now request context) = Ok [].
Proof.
  intros action H. apply buildPermitEnvelopes_empty.
  unfold switchOnType. fold action.
  destruct H as [H | [[Ht H] | [[Ht H] | [[Ht H] | [Ht H]]]]].
  - unfold supportedTypes in H. simpl in H.
    repeat match goal with
           | |- context [String.eqb (action_type action) ?s] =>
               destruct (String.eqb_spec (action_type action) s) as [E|_];
               [exfalso; apply H; rewrite E; tauto|]
           end.
    reflexivity.
  - rewrite Ht. simpl (String.eqb _ _). cbv iota.
    destruct (action_order action) as [order|]; unfold orderCase; rewrite H; reflexivity.
  - rewrite Ht. simpl (String.eqb _ _). cbv iota. rewrite H. reflexivity.
  - rewrite Ht. simpl (String.eqb _ _). cbv iota. rewrite H. reflexivity.
  - rewrite Ht. simpl (String.eqb _ _). cbv iota. rewrite H. reflexivity.
Qed.

(** C10 (counterexample): a request of a type that the adapter does not know
    throws a RangeError when its nonce is the number 1.5. *)
Lemma fractional_nonce_throws :
  buildPermitEnvelopesFromExchangeRequest noPublicKey 1700000000123
    {| req_action := bareAction "twapOrder"; req_nonce := ANumber onePointFive |}
    sampleContext
  = (Throw RangeError,
     {| req_action := bareAction "twapOrder"; req_nonce := ANumber onePointFive |}) /\
  ~ In "twapOrder" supportedTypes /\
  onePointFive = Num.ofDouble (SFdiv Num.prec Num.emax (Num.ofZ 3) (Num.ofZ 2)).
Proof.
  split; [reflexivity|]. split; [|vm_compute; reflexivity].
  simpl. intros H. repeat (destruct H as [H|H]; [discriminate H|]). exact H.
Qed.

(** C10 (amended): a request of an unsupported type, an order request without
    its [a] field (on [action.order], or on the action itself when there is
    no [order]), a modify request without [order], an updateLeverage request
    without [asset] and a withdraw request without [amount] yield the empty
    envelope list and throw nothing when the nonce is a bigint or an integral
    number; when the nonce is any other number, [BigInt(nonce)] throws a
    RangeError before the type is looked at. *)
Theorem unsupported_or_incomplete_request_is_empty pk now request context :
  let action := req_action request in
  ~ In (action_type action) supportedTypes \/
  (action_type action = "order" /\
   match action_order action with
   | Some order => order_a order = None
   | None => order_a (action_self action) = None
   end) \/
  (action_type action = "modify" /\ action_order action = None) \/
  (action_type action = "updateLeverage" /\ action_asset action = None) \/
  (action_type action = "withdraw" /\ action_amount action = None) ->
  fst (buildPermitEnvelopesFromExchangeRequest pk now request context) =
    match Js.BigIntOfNumeric (req_nonce request) with
    | Ok _ => Ok []
    | Throw _ => Throw RangeError
    end.
Proof.
  intros action H.
  destruct (Js.BigIntOfNumeric (req_nonce request)) as [base|e] eqn:Hn.
  - rewrite (buildPermitEnvelopes_read _ _ _ _ _ Hn). cbn [fst].
    now apply switchOnType_incomplete.
  - rewrite (buildPermitEnvelopes_unread _ _ _ _ _ Hn). cbn [fst].
    now rewrite (BigIntOfNumeric_throws _ _ Hn).
Qed.

(** C10 (witness): an action of a type the adapter does not know, with a
    bigint nonce. *)
Lemma unsupported_or_incomplete_request_is_empty_witness :
  fst (buildPermitEnvelopesFromExchangeRequest noPublicKey 1700000000123
         {| req_action := bareAction "twapOrder"; req_nonce := ABigInt 1000 |}
         sampleContext)
  = Ok [].
Proof.
  apply (unsupported_or_incomplete_request_is_empty noPublicKey 1700000000123
           {| req_action := bareAction "twapOrder"; req_nonce := ABigInt 1000 |}
           sampleContext).
  left. simpl. intros H. repeat (destruct H as [H|H]; [discriminate H|]). exact H.
Defined.

(** ** Client ids *)

Lemma BigInt_allDigits s :
  allDigits s = true -> s <> EmptyString -> Js.BigInt s = Ok (digitsValue s).
Proof.
  intros H Hne. destruct s as [|c r]; [congruence|].
  unfold Js.BigInt, Js.stringToBigInt. rewrite (trim_digits _ H).
  pose proof H as H'. cbn [allDigits] in H'. apply andb_true_iff in H' as [Hc Hr].
  rewrite (isDigit_neq c "-" Hc eq_refl), (isDigit_neq c "+" Hc eq_refl).
  assert (P : Js.parseDigits 10 (String c r) = Some (digitsValue (String c r))).
  { unfold Js.parseDigits. now rewrite (parseDigitsAcc_digits _ 0 H). }
  destruct (Ascii.eqb c "0"); [|now rewrite P].
  destruct r as [|x r']; [now rewrite P|].
  cbn [allDigits] in Hr. apply andb_true_iff in Hr as [Hx _].
  rewrite (isDigit_neq x "x" Hx eq_refl), (isDigit_neq x "X" Hx eq_refl),
    (isDigit_neq x "o" Hx eq_refl), (isDigit_neq x "O" Hx eq_refl),
    (isDigit_neq x "b" Hx eq_refl), (isDigit_neq x "B" Hx eq_refl).
  cbn [orb]. now rewrite P.
Qed.

Ltac eval_digit :=
  match goal with
  | |- context [nat_of_ascii ?c] =>
      let v := eval vm_compute in (Z.of_nat (nat_of_ascii c)) in
      change (Z.of_nat (nat_of_ascii c)) with v
  end.

Lemma string_of_uint_digits d : allDigits (NilEmpty.string_of_uint d) = true.
Proof. induction d; simpl; auto. Qed.

Lemma string_of_uint_acc d : forall acc,
  digitsValueAcc (NilEmpty.string_of_uint d) (Z.pos acc) = Z.pos (Pos.of_uint_acc d acc).
Proof.
  induction d; intros acc; cbn [NilEmpty.string_of_uint digitsValueAcc Pos.of_uint_acc];
    [reflexivity| ..];
    match goal with
    | |- digitsValueAcc _ ?a = Z.pos (Pos.of_uint_acc _ ?b) =>
        replace a with (Z.pos b) by (eval_digit; lia); apply IHd
    end.
Qed.

Lemma string_of_uint_value d :
  digitsValue (NilEmpty.string_of_uint d) = Z.of_N (Pos.of_uint d).
Proof.
  unfold digitsValue.
  induction d; cbn [NilEmpty.string_of_uint digitsValueAcc Pos.of_uint];
    [reflexivity| | ..]; [exact IHd | ..];
    match goal with
    | |- digitsValueAcc _ ?a = Z.of_N (N.pos (Pos.of_uint_acc _ ?b)) =>
        replace a with (Z.pos b) by (eval_digit; lia); apply string_of_uint_acc
    end.
Qed.

Lemma string_of_uint_nonempty p : NilEmpty.string_of_uint (Pos.to_uint p) <> EmptyString.
Proof.
  intros E. pose proof (string_of_uint_value (Pos.to_uint p)) as V.
  rewrite E, DecimalPos.Unsigned.of_to in V. discriminate V.
Qed.

Lemma toString_pos p :
  Js.toString (Z.pos p) = NilEmpty.string_of_uint (Pos.to_uint p).
Proof.
  unfold Js.toString. cbn [Z.to_int NilZero.string_of_int].
  unfold NilZero.string_of_uint.
  pose proof (string_of_uint_nonempty p) as N.
  destruct (Pos.to_uint p); try reflexivity. now elim N.
Qed.

Lemma toString_neg p :
  Js.toString (Z.neg p) = String "-" (NilEmpty.string_of_uint (Pos.to_uint p)).
Proof.
  unfold Js.toString. cbn [Z.to_int NilZero.string_of_int].
  unfold NilZero.string_of_uint.
  pose proof (string_of_uint_nonempty p) as N.
  destruct (Pos.to_uint p); try reflexivity. now elim N.
Qed.

(** The decimal string of an integer is never empty, and [BigInt] reads the
    integer back from it. *)
Lemma toString_nonempty z : Js.toString z <> EmptyString.
Proof.
  destruct z as [|p|p].
  - discriminate.
  - rewrite toString_pos. apply string_of_uint_nonempty.
  - rewrite toString_neg. discriminate.
Qed.

Lemma BigInt_toString z : Js.BigInt (Js.toString z) = Ok z.
Proof.
  destruct z as [|p|p].
  - reflexivity.
  - rewrite toString_pos.
    rewrite BigInt_allDigits
      by (apply string_of_uint_digits || apply string_of_uint_nonempty).
    now rewrite string_of_uint_value, DecimalPos.Unsigned.of_to.
  - rewrite toString_neg.
    set (s := NilEmpty.string_of_uint (Pos.to_uint p)).
    assert (Hs : allDigits s = true) by apply string_of_uint_digits.
    assert (Hn : s <> EmptyString) by apply string_of_uint_nonempty.
    unfold Js.BigInt, Js.stringToBigInt.
    rewrite trim_noWhiteSpace
      by (cbn [noWhiteSpace]; now rewrite (allDigits_noWhiteSpace s Hs)).
    destruct s as [|c r] eqn:Es; [congruence|].
    change (Ascii.eqb "-" "-") with true. cbv iota.
    unfold Js.parseDigits. rewrite (parseDigitsAcc_digits _ 0 Hs).
    cbn [option_map]. fold (digitsValue (String c r)). rewrite <- Es.
    subst s. now rewrite string_of_uint_value, DecimalPos.Unsigned.of_to.
Qed.



Lemma nat_of_ascii_lt c : (nat_of_ascii c < 256)%nat.
Proof. destruct c as [[] [] [] [] [] [] [] []]; vm_compute; lia. Qed.

Lemma hexDigit_value n :
  (n < 16)%nat -> Js.digitValue 16 (Js.hexDigit n) = Some (Z.of_nat n).
Proof.
  intros H. do 16 (destruct n as [|n]; [reflexivity|]). lia.
Qed.

Lemma hexDigit_not_white n :
  (n < 16)%nat ->
  negb (Js.isWhiteSpace (Js.hexDigit n)) && (nat_of_ascii (Js.hexDigit n) <? 128)%nat
  = true.
Proof.
  intros H. do 16 (destruct n as [|n]; [reflexivity|]). lia.
Qed.

Lemma toHex_noWhiteSpace s : noWhiteSpace (Js.toHex s) = true.
Proof.
  induction s as [|c r IH]; cbn [Js.toHex noWhiteSpace]; [reflexivity|].
  pose proof (nat_of_ascii_lt c) as B.
  rewrite !hexDigit_not_white, IH; [reflexivity| |].
  - apply Nat.mod_upper_bound. lia.
  - apply Nat.Div0.div_lt_upper_bound. lia.
Qed.

Lemma toHex_value s : forall acc,
  Js.parseDigitsAcc 16 (Js.toHex s) acc = Some (bytesValueAcc s acc).
Proof.
  induction s as [|c r IH]; intros acc; cbn [Js.toHex Js.parseDigitsAcc bytesValueAcc].
  - reflexivity.
  - pose proof (nat_of_ascii_lt c) as B.
    rewrite !hexDigit_value.
    + rewrite IH. do 2 f_equal.
      rewrite (Nat.div_mod_eq (nat_of_ascii c) 16) at 3.
      rewrite Nat2Z.inj_add, Nat2Z.inj_mul. simpl (Z.of_nat 16). ring.
    + apply Nat.mod_upper_bound. lia.
    + apply Nat.Div0.div_lt_upper_bound. lia.
Qed.

(** The hexadecimal literal of a non-empty string is read by [BigInt] as the
    number that the bytes of the string spell. *)
Lemma BigInt_toHex_value c :
  c <> EmptyString -> Js.BigInt ("0x" ++ Js.toHex c) = Ok (bytesValue c).
Proof.
  intros Hc. unfold Js.BigInt, Js.stringToBigInt.
  rewrite trim_noWhiteSpace
    by (cbn [append noWhiteSpace]; now rewrite toHex_noWhiteSpace).
  cbn [append].
  change (Ascii.eqb "0" "-") with false. change (Ascii.eqb "0" "+") with false.
  change (Ascii.eqb "0" "0") with true. cbv iota.
  change (Ascii.eqb "x" "x") with true. cbn [orb]. cbv iota.
  unfold Js.parseDigits. destruct c as [|a r]; [contradiction|].
  pose proof (toHex_value (String a r) 0) as Hv.
  cbn [Js.toHex] in *. now rewrite Hv.
Qed.

Lemma BigInt_toHex c :
  c <> EmptyString -> exists hash, Js.BigInt ("0x" ++ Js.toHex c) = Ok hash.
Proof. intros Hc. exists (bytesValue c). now apply BigInt_toHex_value. Qed.

Lemma falsy_toString z : falsy (Some (Js.toString z)) = false.
Proof.
  cbn [falsy]. destruct (String.eqb_spec (Js.toString z) EmptyString) as [E|_];
    [now apply toString_nonempty in E | reflexivity].
Qed.

Lemma set_order_c_same order c :
  order_c order = Some c -> set_order_c order c = order.
Proof. destruct order; simpl; now intros ->. Qed.

Lemma erase_set_order_c order c : eraseOrderC (set_order_c order c) = eraseOrderC order.
Proof. reflexivity. Qed.

(** What [ensureClientId] returns and what it leaves on the order. *)
Lemma ensureClientId_spec now order :
  ensureClientId now order =
    (Ok (clientIdOf now (order_c order)),
     set_order_c order (writtenClientId now (order_c order))).
Proof.
  unfold ensureClientId, clientIdOf, writtenClientId.
  destruct (order_c order) as [c|] eqn:Ec; cbn [falsy].
  - destruct (String.eqb_spec c EmptyString) as [->|Hc].
    + cbn [order_c set_order_c]. now rewrite BigInt_toString.
    + rewrite Ec. destruct (Js.BigInt c) as [n|e] eqn:Hn.
      * now rewrite (set_order_c_same order c Ec).
      * now rewrite (BigInt_toHex_value c Hc).
  - cbn [order_c set_order_c]. now rewrite BigInt_toString.
Qed.

(** [ensureClientId] changes nothing but [c]; it leaves a settled client id
    alone; and on the order it leaves, it returns the same id and changes
    nothing more, whatever the clock reads then. *)
Lemma ensureClientId_frame now order :
  eraseOrderC (snd (ensureClientId now order)) = eraseOrderC order.
Proof. now rewrite ensureClientId_spec. Qed.

Lemma ensureClientId_settled now order :
  clientIdSettled order = true -> snd (ensureClientId now order) = order.
Proof.
  unfold clientIdSettled, ensureClientId.
  destruct (order_c order) as [c|] eqn:Ec; [|discriminate].
  rewrite andb_true_iff, negb_true_iff. intros [Hc Hb].
  cbn [falsy]. rewrite Hc, Ec. destruct (Js.BigInt c); [reflexivity|discriminate].
Qed.

(** An order whose client id [BigInt] reads is returned as it is. *)
Lemma ensureClientId_read now order c n :
  order_c order = Some c -> c <> EmptyString -> Js.BigInt c = Ok n ->
  ensureClientId now order = (Ok n, order).
Proof.
  intros Ec Hc Hn. unfold ensureClientId. rewrite Ec. cbn [falsy].
  destruct (String.eqb_spec c EmptyString) as [->|_]; [contradiction|].
  now rewrite Ec, Hn.
Qed.

(** [ensureClientId] returns the id that it leaves on the order. *)
Lemma ensureClientId_returns_id now order :
  exists n c,
    fst (ensureClientId now order) = Ok n /\
    order_c (snd (ensureClientId now order)) = Some c /\
    c <> EmptyString /\
    Js.BigInt c = Ok n /\
    forall later,
      ensureClientId later (snd (ensureClientId now order)) =
        (Ok n, snd (ensureClientId now order)).
Proof.
  assert (S : forall o n c,
            order_c o = Some c -> c <> EmptyString -> Js.BigInt c = Ok n ->
            forall r, r = (Ok n, o) ->
            fst r = Ok n /\ order_c (snd r) = Some c /\ c <> EmptyString /\
            Js.BigInt c = Ok n /\
            forall later, ensureClientId later (snd r) = (Ok n, snd r)).
  { intros o n c Ec Hc Hn r ->. cbn [fst snd]. repeat split; auto.
    intros later. now apply (ensureClientId_read later o c n). }
  pose proof toString_nonempty as N.
  destruct (falsy (order_c order)) eqn:Hf.
  - exists now, (Js.toString now).
    apply (S (set_order_c order (Js.toString now)));
      [reflexivity | apply N | apply BigInt_toString |].
    unfold ensureClientId. rewrite Hf. cbn [order_c set_order_c].
    now rewrite BigInt_toString.
  - destruct (order_c order) as [c|] eqn:Ec; [|discriminate].
    cbn [falsy] in Hf. apply String.eqb_neq in Hf.
    destruct (Js.BigInt c) as [n|e] eqn:Hn.
    + exists n, c. apply (S order); auto.
      now apply (ensureClientId_read now order c n).
    + destruct (BigInt_toHex c Hf) as [hash Hh].
      exists hash, (Js.toString hash).
      apply (S (set_order_c order (Js.toString hash)));
        [reflexivity | apply N | apply BigInt_toString |].
      unfold ensureClientId. rewrite Ec. cbn [falsy].
      destruct (String.eqb_spec c EmptyString) as [->|_]; [contradiction|].
      now rewrite Ec, Hn, Hh.
Qed.

Lemma ensureClientId_again now later order :
  ensureClientId later (snd (ensureClientId now order)) = ensureClientId now order.
Proof.
  destruct (ensureClientId_returns_id now order) as (n & c & R & _ & _ & _ & L).
  rewrite (L later). rewrite <- R. now destruct (ensureClientId now order).
Qed.

(** The order that [ensureClientId] leaves is settled. *)
Lemma ensureClientId_leaves_settled now order :
  clientIdSettled (snd (ensureClientId now order)) = true.
Proof.
  destruct (ensureClientId_returns_id now order) as (n & c & _ & W & N & B & _).
  unfold clientIdSettled. rewrite W, B. apply String.eqb_neq in N. now rewrite N.
Qed.

(** ** What the adapter writes into the request *)

Section Callback.

Context {A : Type} (f g : A -> Result PermitAction * A).
Context (erase : A -> A) (settled : A -> bool).
Hypothesis g_again : forall x, g (snd (f x)) = f x.
Hypothesis f_frame : forall x, erase (snd (f x)) = erase x.
Hypothesis f_settled : forall x, settled x = true -> snd (f x) = x.

Lemma forEachAdd_again baseNonce items : forall idx,
  forEachAdd g baseNonce (snd (forEachAdd f baseNonce items idx)) idx =
  forEachAdd f baseNonce items idx.
Proof.
  induction items as [|item rest IH]; intros idx; [reflexivity|].
  cbn [forEachAdd]. pose proof (g_again item) as Hf.
  destruct (f item) as [[permit|e] item'] eqn:E; cbn [snd] in Hf.
  - specialize (IH (idx + 1)).
    destruct (forEachAdd f baseNonce rest (idx + 1)) as [r rest'] eqn:R.
    cbn [snd] in IH |- *. cbn [forEachAdd]. now rewrite Hf, IH.
  - cbn [snd forEachAdd]. now rewrite Hf.
Qed.

Lemma forEachAdd_frame baseNonce items : forall idx,
  map erase (snd (forEachAdd f baseNonce items idx)) = map erase items.
Proof.
  induction items as [|item rest IH]; intros idx; [reflexivity|].
  cbn [forEachAdd]. pose proof (f_frame item) as Hf.
  destruct (f item) as [[permit|e] item']; cbn [snd] in Hf.
  - specialize (IH (idx + 1)).
    destruct (forEachAdd f baseNonce rest (idx + 1)) as [r rest'].
    cbn [snd map] in IH |- *. now rewrite Hf, IH.
  - cbn [snd map]. now rewrite Hf.
Qed.

Lemma forEachAdd_settled baseNonce items : forall idx,
  forallb settled items = true -> snd (forEachAdd f baseNonce items idx) = items.
Proof.
  induction items as [|item rest IH]; intros idx H; [reflexivity|].
  cbn [forallb] in H. apply andb_true_iff in H as [H1 H2].
  cbn [forEachAdd]. pose proof (f_settled item H1) as Hf.
  destruct (f item) as [[permit|e] item']; cbn [snd] in Hf; subst item'.
  - specialize (IH (idx + 1) H2).
    destruct (forEachAdd f baseNonce rest (idx + 1)) as [r rest'].
    cbn [snd] in IH |- *. now rewrite IH.
  - reflexivity.
Qed.

(** A loop that returns has run its callback on every item. *)
Lemma forEachAdd_returns baseNonce items : forall idx,
  isOk (fst (forEachAdd f baseNonce items idx)) = true ->
  snd (forEachAdd f baseNonce items idx) = map (fun item => snd (f item)) items /\
  Forall (fun item => isOk (fst (f item)) = true) items.
Proof.
  induction items as [|item rest IH]; intros idx; [now split|].
  cbn [forEachAdd map].
  destruct (f item) as [[permit|e] item'] eqn:E; [|discriminate].
  specialize (IH (idx + 1)).
  destruct (forEachAdd f baseNonce rest (idx + 1)) as [[added|e] rest'];
    [|discriminate].
  cbn [fst snd bind isOk] in *. intros _. destruct (IH eq_refl) as [IH1 IH2].
  split; [now rewrite IH1|]. constructor; [now rewrite E | exact IH2].
Qed.

End Callback.

Lemma erase_eq_fields o o' :
  eraseOrderC o' = eraseOrderC o ->
  order_a o' = order_a o /\ order_b o' = order_b o /\ order_p o' = order_p o /\
  order_s o' = order_s o /\ order_r o' = order_r o /\ order_t o' = order_t o.
Proof. destruct o, o'; simpl; intros E; inversion E; auto 10. Qed.

Lemma orderTif_erase o o' : eraseOrderC o' = eraseOrderC o -> orderTif o' = orderTif o.
Proof.
  intros E. apply erase_eq_fields in E as (_ & _ & _ & _ & _ & Et).
  unfold orderTif. now rewrite Et.
Qed.

(** *** [buildPlaceAction] *)

Lemma buildPlaceAction_snd now order market :
  snd (buildPlaceAction now order market) = snd (ensureClientId now order).
Proof. unfold buildPlaceAction. now destruct (ensureClientId now order). Qed.

Lemma buildPlaceAction_frame now order market :
  eraseOrderC (snd (buildPlaceAction now order market)) = eraseOrderC order.
Proof. rewrite buildPlaceAction_snd. apply ensureClientId_frame. Qed.

Lemma buildPlaceAction_settled now order market :
  clientIdSettled order = true -> snd (buildPlaceAction now order market) = order.
Proof. rewrite buildPlaceAction_snd. apply ensureClientId_settled. Qed.

Lemma buildPlaceAction_again now later order market :
  buildPlaceAction later (snd (buildPlaceAction now order market)) market =
  buildPlaceAction now order market.
Proof.
  unfold buildPlaceAction. pose proof (ensureClientId_again now later order) as F.
  destruct (ensureClientId now order) as [r order']. cbn [snd] in *. now rewrite F.
Qed.

(** *** [buildModifyAction] *)

Lemma buildModifyAction_snd now modify market :
  snd (buildModifyAction now modify market) =
    {| modify_oid := modify_oid modify;
       modify_order := snd (ensureClientId now (modify_order modify)) |}.
Proof.
  unfold buildModifyAction. now destruct (ensureClientId now (modify_order modify)).
Qed.

Lemma buildModifyAction_frame now modify market :
  eraseModifyC (snd (buildModifyAction now modify market)) = eraseModifyC modify.
Proof.
  rewrite buildModifyAction_snd. unfold eraseModifyC. cbn [modify_oid modify_order].
  now rewrite ensureClientId_frame.
Qed.

Lemma buildModifyAction_settled now modify market :
  clientIdSettled (modify_order modify) = true ->
  snd (buildModifyAction now modify market) = modify.
Proof.
  intros H. rewrite buildModifyAction_snd, (ensureClientId_settled now _ H).
  now destruct modify.
Qed.

Lemma buildModifyAction_again now later modify market :
  buildModifyAction later (snd (buildModifyAction now modify market)) market =
  buildModifyAction now modify market.
Proof.
  unfold buildModifyAction.
  pose proof (ensureClientId_again now later (modify_order modify)) as F.
  destruct (ensureClientId now (modify_order modify)) as [r order'].
  cbn [snd modify_order modify_oid] in *. now rewrite F.
Qed.

(** *** The callbacks of the batch cases and the "order" case *)

Lemma batchOrderItem_frame now context order :
  eraseOrderC (snd (batchOrderItem now context order)) = eraseOrderC order.
Proof.
  unfold batchOrderItem. destruct (resolveMarket (order_a order) context);
    [apply buildPlaceAction_frame | reflexivity].
Qed.

Lemma batchOrderItem_settled now context order :
  clientIdSettled order = true -> snd (batchOrderItem now context order) = order.
Proof.
  intros H. unfold batchOrderItem. destruct (resolveMarket (order_a order) context);
    [now apply buildPlaceAction_settled | reflexivity].
Qed.

Lemma batchOrderItem_again now later context order :
  batchOrderItem later context (snd (batchOrderItem now context order)) =
  batchOrderItem now context order.
Proof.
  unfold batchOrderItem at 2 3.
  destruct (resolveMarket (order_a order) context) as [market|e] eqn:E.
  - unfold batchOrderItem.
    destruct (erase_eq_fields _ _ (buildPlaceAction_frame now order market)) as [-> _].
    rewrite E. apply buildPlaceAction_again.
  - cbn [snd]. unfold batchOrderItem. now rewrite E.
Qed.

(** An order that converts has had its client id read. *)
Lemma batchOrderItem_returns now context order :
  isOk (fst (batchOrderItem now context order)) = true ->
  snd (batchOrderItem now context order) = snd (ensureClientId now order).
Proof.
  unfold batchOrderItem. destruct (resolveMarket (order_a order) context);
    [intros _; apply buildPlaceAction_snd | discriminate].
Qed.

Lemma modifyBatchItem_frame now context modify :
  eraseModifyC (snd (modifyBatchItem now context modify)) = eraseModifyC modify.
Proof.
  unfold modifyBatchItem.
  destruct (resolveMarket (order_a (modify_order modify)) context);
    [apply buildModifyAction_frame | reflexivity].
Qed.

Lemma modifyBatchItem_settled now context modify :
  clientIdSettled (modify_order modify) = true ->
  snd (modifyBatchItem now context modify) = modify.
Proof.
  intros H. unfold modifyBatchItem.
  destruct (resolveMarket (order_a (modify_order modify)) context);
    [now apply buildModifyAction_settled | reflexivity].
Qed.

Lemma eraseModifyC_order m m' :
  eraseModifyC m' = eraseModifyC m ->
  eraseOrderC (modify_order m') = eraseOrderC (modify_order m) /\
  modify_oid m' = modify_oid m.
Proof.
  intros E. split; [exact (f_equal modify_order E) | exact (f_equal modify_oid E)].
Qed.

Lemma modifyBatchItem_again now later context modify :
  modifyBatchItem later context (snd (modifyBatchItem now context modify)) =
  modifyBatchItem now context modify.
Proof.
  unfold modifyBatchItem at 2 3.
  destruct (resolveMarket (order_a (modify_order modify)) context) as [market|e] eqn:E.
  - unfold modifyBatchItem.
    destruct (eraseModifyC_order _ _ (buildModifyAction_frame now modify market)) as [Eo _].
    destruct (erase_eq_fields _ _ Eo) as [-> _].
    rewrite E. apply buildModifyAction_again.
  - cbn [snd]. unfold modifyBatchItem. now rewrite E.
Qed.

Lemma modifyBatchItem_returns now context modify :
  isOk (fst (modifyBatchItem now context modify)) = true ->
  modify_order (snd (modifyBatchItem now context modify)) =
    snd (ensureClientId now (modify_order modify)).
Proof.
  unfold modifyBatchItem.
  destruct (resolveMarket (order_a (modify_order modify)) context); [|discriminate].
  intros _. now rewrite buildModifyAction_snd.
Qed.

Lemma orderCase_frame now baseNonce order context :
  eraseOrderC (snd (orderCase now baseNonce order context)) = eraseOrderC order.
Proof.
  unfold orderCase. destruct (order_a order); [|reflexivity].
  destruct (resolveMarket _ context) as [market|e]; [|reflexivity].
  pose proof (buildPlaceAction_frame now order market) as F.
  destruct (buildPlaceAction now order market). exact F.
Qed.

Lemma orderCase_settled now baseNonce order context :
  (order_a order <> None -> clientIdSettled order = true) ->
  snd (orderCase now baseNonce order context) = order.
Proof.
  intros H. unfold orderCase. destruct (order_a order); [|reflexivity].
  destruct (resolveMarket _ context) as [market|e]; [|reflexivity].
  pose proof (buildPlaceAction_settled now order market (H ltac:(discriminate))) as F.
  destruct (buildPlaceAction now order market). exact F.
Qed.

Lemma orderCase_again now later baseNonce order context :
  orderCase later baseNonce (snd (orderCase now baseNonce order context)) context =
  orderCase now baseNonce order context.
Proof.
  unfold orderCase at 2 3. destruct (order_a order) as [a|] eqn:Ea.
  - destruct (resolveMarket (Some a) context) as [market|e] eqn:E.
    + pose proof (buildPlaceAction_again now later order market) as G.
      pose proof (buildPlaceAction_frame now order market) as F.
      destruct (buildPlaceAction now order market) as [r order'] eqn:B.
      cbn [snd] in *. apply erase_eq_fields in F as [Fa _].
      unfold orderCase. rewrite Fa, Ea, E, G. reflexivity.
    + cbn [snd]. unfold orderCase. now rewrite Ea, E.
  - cbn [snd]. unfold orderCase. now rewrite Ea.
Qed.

(** An "order" case that returns has read the client id of an order whose
    [a] is defined. *)
Lemma orderCase_returns now baseNonce order context :
  isOk (fst (orderCase now baseNonce order context)) = true ->
  order_a order <> None ->
  snd (orderCase now baseNonce order context) = snd (ensureClientId now order).
Proof.
  unfold orderCase. destruct (order_a order); [|contradiction].
  destruct (resolveMarket _ context) as [market|e]; [|discriminate].
  intros _ _. rewrite <- (buildPlaceAction_snd now order market).
  now destruct (buildPlaceAction now order market).
Qed.

(** *** [switchOnType] case by case *)

Lemma buildPermitActions_order pk now request context :
  action_type (read_action request) = "order" ->
  switchOnType pk now request context =
    match action_order (read_action request) with
    | Some order =>
        let (r, order') := orderCase now (read_nonce request) order context in
        (r, set_action_order (read_action request) (Some order'))
    | None =>
        let (r, self') :=
          orderCase now (read_nonce request) (action_self (read_action request)) context in
        (r, set_action_self (read_action request) self')
    end.
Proof. intros E. unfold switchOnType. rewrite E. reflexivity. Qed.

Lemma buildPermitActions_batchOrder pk now request context :
  action_type (read_action request) = "batchOrder" ->
  switchOnType pk now request context =
    let (r, orders') :=
      forEachAdd (batchOrderItem now context) (read_nonce request)
                 (orEmpty (action_orders (read_action request))) 0 in
    (r, set_action_orders (read_action request)
          (writeBack (action_orders (read_action request)) orders')).
Proof. intros E. unfold switchOnType. rewrite E. reflexivity. Qed.

Lemma buildPermitActions_modify pk now request context :
  action_type (read_action request) = "modify" ->
  switchOnType pk now request context =
    match action_order (read_action request) with
    | None => (Ok [], read_action request)
    | Some order =>
        match resolveMarket (order_a order) context with
        | Throw e => (Throw e, read_action request)
        | Ok market =>
            let oid := match action_oid (read_action request) with
                       | Some v => Some v
                       | None => Some (Num 0)
                       end in
            let (r, modify') :=
              buildModifyAction now {| modify_oid := oid; modify_order := order |} market in
            (do permit <- r;
             Ok [{| permitAction := permit; info_nonce := read_nonce request + 0 |}],
             set_action_order (read_action request) (Some (modify_order modify')))
        end
    end.
Proof. intros E. unfold switchOnType. rewrite E. reflexivity. Qed.

Lemma buildPermitActions_modifyBatch pk now request context :
  action_type (read_action request) = "modifyBatch" ->
  switchOnType pk now request context =
    let (r, modifies') :=
      forEachAdd (modifyBatchItem now context) (read_nonce request)
                 (orEmpty (action_modifies (read_action request))) 0 in
    (r, set_action_modifies (read_action request)
          (writeBack (action_modifies (read_action request)) modifies')).
Proof. intros E. unfold switchOnType. rewrite E. reflexivity. Qed.

(** The other cases leave the action object as it is. *)
Lemma buildPermitActions_other pk now request context :
  action_type (read_action request) <> "order" ->
  action_type (read_action request) <> "batchOrder" ->
  action_type (read_action request) <> "modify" ->
  action_type (read_action request) <> "modifyBatch" ->
  snd (switchOnType pk now request context) = read_action request.
Proof.
  intros N1 N2 N3 N4. unfold switchOnType.
  repeat match goal with
         | |- context [String.eqb (action_type (read_action request)) ?s] =>
             destruct (String.eqb_spec (action_type (read_action request)) s);
             [try contradiction|]; cbv iota
         end;
    repeat match goal with
           | |- context [let (_, _) := ?p in _] => destruct p
           | |- context [match action_asset ?a with _ => _ end] => destruct (action_asset a)
           | |- context [match action_amount ?a with Some _ => _ | None => (_, _) end] =>
               destruct (action_amount a)
           end; reflexivity.
Qed.

Lemma eraseActionC_set_order action order order' :
  action_order action = Some order -> eraseOrderC order' = eraseOrderC order ->
  eraseActionC (set_action_order action (Some order')) = eraseActionC action.
Proof.
  intros E F. unfold eraseActionC, set_action_order. simpl. rewrite E. simpl.
  now rewrite F.
Qed.

Lemma writeBack_erase {A : Type} (erase : A -> A) (old : option (list A)) items :
  map erase items = map erase (orEmpty old) ->
  option_map (map erase) (writeBack old items) = option_map (map erase) old.
Proof. destruct old; simpl; [now intros -> | reflexivity]. Qed.

Lemma writeBack_same {A : Type} (old : option (list A)) :
  writeBack old (orEmpty old) = old.
Proof. now destruct old. Qed.

Lemma orEmpty_writeBack {A : Type} (old : option (list A)) items :
  (old = None -> items = []) -> orEmpty (writeBack old items) = items.
Proof. destruct old; simpl; [reflexivity|]. intros H. now rewrite H. Qed.

Lemma writeBack_writeBack {A : Type} (old : option (list A)) items items' :
  writeBack (writeBack old items) items' = writeBack old items'.
Proof. now destruct old. Qed.

Lemma forEachAdd_nil_items {A : Type} (f : A -> Result PermitAction * A) baseNonce idx :
  snd (forEachAdd f baseNonce [] idx) = [].
Proof. reflexivity. Qed.

Lemma string_cases (type : string) :
  type = "order" \/ type = "batchOrder" \/ type = "modify" \/ type = "modifyBatch" \/
  (type <> "order" /\ type <> "batchOrder" /\ type <> "modify" /\ type <> "modifyBatch").
Proof.
  destruct (string_dec type "order"); [tauto|].
  destruct (string_dec type "batchOrder"); [tauto|].
  destruct (string_dec type "modify"); [tauto|].
  destruct (string_dec type "modifyBatch"); tauto.
Qed.

(** The call changes nothing in the action object but client ids. *)
Lemma buildPermitActions_frame pk now request context :
  eraseActionC (snd (switchOnType pk now request context)) =
  eraseActionC (read_action request).
Proof.
  destruct (string_cases (action_type (read_action request)))
    as [E | [E | [E | [E | (N1 & N2 & N3 & N4)]]]].
  - rewrite (buildPermitActions_order _ _ _ _ E).
    destruct (action_order (read_action request)) as [order|] eqn:Eo.
    + pose proof (orderCase_frame now (read_nonce request) order context) as F.
      destruct (orderCase now (read_nonce request) order context) as [r order'].
      cbn [snd] in *. now apply eraseActionC_set_order with (order := order).
    + pose proof (orderCase_frame now (read_nonce request)
                    (action_self (read_action request)) context) as F.
      destruct (orderCase now (read_nonce request) _ context) as [r self'].
      cbn [snd] in *. unfold eraseActionC, set_action_self. simpl. now rewrite F.
  - rewrite (buildPermitActions_batchOrder _ _ _ _ E).
    pose proof (forEachAdd_frame (batchOrderItem now context) eraseOrderC
                  (batchOrderItem_frame now context) (read_nonce request)
                  (orEmpty (action_orders (read_action request))) 0) as F.
    destruct (forEachAdd (batchOrderItem now context) _ _ 0) as [r orders'].
    cbn [snd] in *. unfold eraseActionC, set_action_orders. simpl.
    now rewrite (writeBack_erase eraseOrderC _ _ F).
  - rewrite (buildPermitActions_modify _ _ _ _ E).
    destruct (action_order (read_action request)) as [order|] eqn:Eo; [|reflexivity].
    destruct (resolveMarket (order_a order) context) as [market|e]; [|reflexivity].
    cbv zeta.
    match goal with
    | |- context [buildModifyAction now ?m market] =>
        pose proof (buildModifyAction_frame now m market) as F;
        destruct (buildModifyAction now m market) as [r modify']
    end.
    cbn [snd] in *. apply eraseModifyC_order in F as [F _]. cbn [modify_order] in F.
    now apply eraseActionC_set_order with (order := order).
  - rewrite (buildPermitActions_modifyBatch _ _ _ _ E).
    pose proof (forEachAdd_frame (modifyBatchItem now context) eraseModifyC
                  (modifyBatchItem_frame now context) (read_nonce request)
                  (orEmpty (action_modifies (read_action request))) 0) as F.
    destruct (forEachAdd (modifyBatchItem now context) _ _ 0) as [r modifies'].
    cbn [snd] in *. unfold eraseActionC, set_action_modifies. simpl.
    now rewrite (writeBack_erase eraseModifyC _ _ F).
  - now rewrite buildPermitActions_other.
Qed.

Lemma buildPermitActions_type pk now request context :
  action_type (snd (switchOnType pk now request context)) =
  action_type (read_action request).
Proof.
  exact (f_equal action_type (buildPermitActions_frame pk now request context)).
Qed.

Lemma set_action_order_same action order :
  action_order action = order -> set_action_order action order = action.
Proof. destruct action; simpl; now intros ->. Qed.

Lemma set_action_self_same action :
  set_action_self action (action_self action) = action.
Proof. now destruct action. Qed.

Lemma set_action_orders_same action :
  set_action_orders action (action_orders action) = action.
Proof. now destruct action. Qed.

Lemma set_action_modifies_same action :
  set_action_modifies action (action_modifies action) = action.
Proof. now destruct action. Qed.

(** The client ids that a request reads are those of its type. *)
Lemma clientIdOrders_order action :
  action_type action = "order" ->
  clientIdOrders action =
    let order := match action_order action with
                 | Some o => o
                 | None => action_self action
                 end in
    match order_a order with
    | Some _ => [order]
    | None => []
    end.
Proof. intros E. unfold clientIdOrders. now rewrite E. Qed.

Lemma clientIdOrders_batchOrder action :
  action_type action = "batchOrder" ->
  clientIdOrders action = orEmpty (action_orders action).
Proof. intros E. unfold clientIdOrders. now rewrite E. Qed.

Lemma clientIdOrders_modify action :
  action_type action = "modify" ->
  clientIdOrders action = match action_order action with Some o => [o] | None => [] end.
Proof. intros E. unfold clientIdOrders. now rewrite E. Qed.

Lemma clientIdOrders_modifyBatch action :
  action_type action = "modifyBatch" ->
  clientIdOrders action = map modify_order (orEmpty (action_modifies action)).
Proof. intros E. unfold clientIdOrders. now rewrite E. Qed.

Lemma clientIdOrders_other action :
  action_type action <> "order" -> action_type action <> "batchOrder" ->
  action_type action <> "modify" -> action_type action <> "modifyBatch" ->
  clientIdOrders action = [].
Proof.
  intros N1 N2 N3 N4. unfold clientIdOrders.
  apply String.eqb_neq in N1, N2, N3, N4. now rewrite N1, N2, N3, N4.
Qed.

Lemma forallb_of_map {A B : Type} (f : A -> B) (p : B -> bool) l :
  forallb p (map f l) = forallb (fun x => p (f x)) l.
Proof. induction l as [|x l IH]; cbn [map forallb]; [reflexivity | now rewrite IH]. Qed.

Lemma forallb_same {A : Type} (p q : A -> bool) l :
  (forall x, p x = q x) -> forallb p l = forallb q l.
Proof.
  intros H. induction l as [|x l IH]; cbn [forallb]; [reflexivity | now rewrite H, IH].
Qed.

(** Settled client ids are not written. *)
Lemma switchOnType_settled pk now request context :
  clientIdsSettled (read_action request) = true ->
  snd (switchOnType pk now request context) = read_action request.
Proof.
  unfold clientIdsSettled. intros S.
  destruct (string_cases (action_type (read_action request)))
    as [E | [E | [E | [E | (N1 & N2 & N3 & N4)]]]].
  - rewrite (clientIdOrders_order _ E) in S. cbv zeta in S.
    rewrite (buildPermitActions_order _ _ _ _ E).
    destruct (action_order (read_action request)) as [order|] eqn:Eo.
    + assert (F : snd (orderCase now (read_nonce request) order context) = order).
      { apply orderCase_settled. intros Ha.
        destruct (order_a order) as [a|]; [|contradiction].
        cbn [forallb] in S. now apply andb_true_iff in S as [S _]. }
      destruct (orderCase now (read_nonce request) order context) as [r order'].
      cbn [snd] in *. subst order'. now apply set_action_order_same.
    + assert (F : snd (orderCase now (read_nonce request)
                         (action_self (read_action request)) context) =
                  action_self (read_action request)).
      { apply orderCase_settled. intros Ha.
        destruct (order_a (action_self (read_action request))) as [a|];
          [|contradiction].
        cbn [forallb] in S. now apply andb_true_iff in S as [S _]. }
      destruct (orderCase now (read_nonce request) _ context) as [r self'].
      cbn [snd] in *. subst self'. apply set_action_self_same.
  - rewrite (clientIdOrders_batchOrder _ E) in S.
    rewrite (buildPermitActions_batchOrder _ _ _ _ E).
    pose proof (forEachAdd_settled (batchOrderItem now context) clientIdSettled
                  (batchOrderItem_settled now context) (read_nonce request) _ 0 S) as F.
    destruct (forEachAdd (batchOrderItem now context) _ _ 0) as [r orders'].
    cbn [snd] in *. subst orders'. rewrite writeBack_same. apply set_action_orders_same.
  - rewrite (clientIdOrders_modify _ E) in S.
    rewrite (buildPermitActions_modify _ _ _ _ E).
    destruct (action_order (read_action request)) as [order|] eqn:Eo; [|reflexivity].
    destruct (resolveMarket (order_a order) context) as [market|e]; [|reflexivity].
    cbv zeta. cbn [forallb] in S. apply andb_true_iff in S as [S _].
    match goal with
    | |- context [buildModifyAction now ?m market] =>
        pose proof (buildModifyAction_settled now m market S) as F;
        destruct (buildModifyAction now m market) as [r modify']
    end.
    cbn [snd] in *. subst modify'. cbn [modify_order]. now apply set_action_order_same.
  - rewrite (clientIdOrders_modifyBatch _ E), forallb_of_map in S.
    rewrite (buildPermitActions_modifyBatch _ _ _ _ E).
    pose proof (forEachAdd_settled (modifyBatchItem now context)
                  (fun m => clientIdSettled (modify_order m))
                  (modifyBatchItem_settled now context) (read_nonce request) _ 0 S) as F.
    destruct (forEachAdd (modifyBatchItem now context) _ _ 0) as [r modifies'].
    cbn [snd] in *. subst modifies'. rewrite writeBack_same.
    apply set_action_modifies_same.
  - now apply buildPermitActions_other.
Qed.

Lemma forEachAdd_none {A : Type} (f : A -> Result PermitAction * A) baseNonce
    (old : option (list A)) idx :
  old = None -> snd (forEachAdd f baseNonce (orEmpty old) idx) = [].
Proof. now intros ->. Qed.

(** A later call on the action object that a call left returns what that call
    returned and writes nothing more, whatever the clock reads then. *)
Lemma switchOnType_again pk now later request context :
  switchOnType pk later
    {| read_action := snd (switchOnType pk now request context);
       read_nonce := read_nonce request |} context =
  switchOnType pk now request context.
Proof.
  pose proof (buildPermitActions_type pk now request context) as T.
  destruct (string_cases (action_type (read_action request)))
    as [E | [E | [E | [E | (N1 & N2 & N3 & N4)]]]].
  - rewrite buildPermitActions_order by (cbn [read_action]; congruence).
    cbn [read_action read_nonce]. clear T.
    rewrite (buildPermitActions_order _ _ _ _ E).
    destruct (action_order (read_action request)) as [order|] eqn:Eo.
    + pose proof (orderCase_again now later (read_nonce request) order context) as G.
      destruct (orderCase now (read_nonce request) order context) as [r order'].
      cbn [snd action_order set_action_order] in *. rewrite G. reflexivity.
    + pose proof (orderCase_again now later (read_nonce request)
                    (action_self (read_action request)) context) as G.
      destruct (orderCase now (read_nonce request) (action_self (read_action request))
                          context) as [r self'].
      cbn [snd action_order action_self set_action_self] in *. rewrite Eo, G.
      reflexivity.
  - rewrite buildPermitActions_batchOrder by (cbn [read_action]; congruence).
    cbn [read_action read_nonce]. clear T.
    rewrite (buildPermitActions_batchOrder _ _ _ _ E).
    pose proof (forEachAdd_again (batchOrderItem now context)
                  (batchOrderItem later context)
                  (batchOrderItem_again now later context) (read_nonce request)
                  (orEmpty (action_orders (read_action request))) 0) as G.
    pose proof (forEachAdd_none (batchOrderItem now context) (read_nonce request)
                  (action_orders (read_action request)) 0) as Z.
    destruct (forEachAdd (batchOrderItem now context) (read_nonce request)
                (orEmpty (action_orders (read_action request))) 0) as [r orders'].
    cbn [snd action_orders set_action_orders] in *.
    rewrite orEmpty_writeBack by assumption. rewrite G.
    now rewrite writeBack_writeBack.
  - rewrite buildPermitActions_modify by (cbn [read_action]; congruence).
    cbn [read_action read_nonce]. clear T.
    rewrite (buildPermitActions_modify _ _ _ _ E).
    destruct (action_order (read_action request)) as [order|] eqn:Eo;
      [|cbn [snd]; now rewrite Eo].
    destruct (resolveMarket (order_a order) context) as [market|e] eqn:Em;
      [|cbn [snd]; now rewrite Eo, Em].
    cbv zeta.
    match goal with
    | |- context [buildModifyAction now ?m market] =>
        pose proof (buildModifyAction_again now later m market) as G;
        pose proof (buildModifyAction_frame now m market) as F;
        destruct (buildModifyAction now m market) as [r modify'] eqn:B
    end.
    cbn [snd action_order action_oid set_action_order] in *.
    destruct (eraseModifyC_order _ _ F) as [Fo Fi]. cbn [modify_order modify_oid] in Fo, Fi.
    destruct (erase_eq_fields _ _ Fo) as [Fa _]. rewrite Fa, Em.
    replace {| modify_oid := match action_oid (read_action request) with
                             | Some v => Some v
                             | None => Some (Num 0)
                             end;
               modify_order := modify_order modify' |} with modify'
      by (destruct modify' as [oid' order']; cbn [modify_order modify_oid] in *; now subst).
    rewrite G. reflexivity.
  - rewrite buildPermitActions_modifyBatch by (cbn [read_action]; congruence).
    cbn [read_action read_nonce]. clear T.
    rewrite (buildPermitActions_modifyBatch _ _ _ _ E).
    pose proof (forEachAdd_again (modifyBatchItem now context)
                  (modifyBatchItem later context)
                  (modifyBatchItem_again now later context) (read_nonce request)
                  (orEmpty (action_modifies (read_action request))) 0) as G.
    pose proof (forEachAdd_none (modifyBatchItem now context) (read_nonce request)
                  (action_modifies (read_action request)) 0) as Z.
    destruct (forEachAdd (modifyBatchItem now context) (read_nonce request)
                (orEmpty (action_modifies (read_action request))) 0) as [r modifies'].
    cbn [snd action_modifies set_action_modifies] in *.
    rewrite orEmpty_writeBack by assumption. rewrite G.
    now rewrite writeBack_writeBack.
  - rewrite buildPermitActions_other by assumption. clear T.
    replace {| read_action := read_action request; read_nonce := read_nonce request |}
      with request by now destruct request.
    unfold switchOnType.
    apply String.eqb_neq in N1, N2, N3, N4. rewrite N1, N2, N3, N4. reflexivity.
Qed.

(** A call that returns has read every client id of the request. *)
Lemma switchOnType_written pk now request context :
  isOk (fst (switchOnType pk now request context)) = true ->
  clientIdOrders (snd (switchOnType pk now request context)) =
    map (fun order => snd (ensureClientId now order))
        (clientIdOrders (read_action request)).
Proof.
  pose proof (buildPermitActions_type pk now request context) as T.
  destruct (string_cases (action_type (read_action request)))
    as [E | [E | [E | [E | (N1 & N2 & N3 & N4)]]]].
  - rewrite (clientIdOrders_order _ E), clientIdOrders_order by congruence.
    clear T. rewrite (buildPermitActions_order _ _ _ _ E). cbv zeta.
    destruct (action_order (read_action request)) as [order|] eqn:Eo.
    + pose proof (orderCase_returns now (read_nonce request) order context) as W.
      pose proof (orderCase_frame now (read_nonce request) order context) as F.
      destruct (orderCase now (read_nonce request) order context) as [r order'].
      cbn [fst snd action_order set_action_order] in *. intros Hr.
      apply erase_eq_fields in F as [Fa _]. rewrite Fa.
      destruct (order_a order) as [a|]; [|reflexivity].
      cbn [map]. now rewrite (W Hr) by discriminate.
    + pose proof (orderCase_returns now (read_nonce request)
                    (action_self (read_action request)) context) as W.
      pose proof (orderCase_frame now (read_nonce request)
                    (action_self (read_action request)) context) as F.
      destruct (orderCase now (read_nonce request) _ context) as [r self'].
      cbn [fst snd action_order action_self set_action_self] in *. intros Hr.
      rewrite Eo. apply erase_eq_fields in F as [Fa _]. rewrite Fa.
      destruct (order_a (action_self (read_action request))) as [a|]; [|reflexivity].
      cbn [map]. now rewrite (W Hr) by discriminate.
  - rewrite (clientIdOrders_batchOrder _ E), clientIdOrders_batchOrder by congruence.
    clear T. rewrite (buildPermitActions_batchOrder _ _ _ _ E).
    pose proof (forEachAdd_returns (batchOrderItem now context) (read_nonce request)
                  (orEmpty (action_orders (read_action request))) 0) as W.
    destruct (forEachAdd (batchOrderItem now context) _ _ 0) as [r orders'].
    cbn [fst snd action_orders set_action_orders] in *. intros Hr.
    destruct (W Hr) as [-> Ho].
    rewrite orEmpty_writeBack by (now intros ->).
    apply map_ext_in. intros order Hi. rewrite Forall_forall in Ho.
    now apply batchOrderItem_returns, Ho.
  - rewrite (clientIdOrders_modify _ E), clientIdOrders_modify by congruence.
    clear T. rewrite (buildPermitActions_modify _ _ _ _ E).
    destruct (action_order (read_action request)) as [order|] eqn:Eo;
      [|cbn [snd]; now rewrite Eo].
    destruct (resolveMarket (order_a order) context) as [market|e]; [|discriminate].
    cbv zeta.
    match goal with
    | |- context [buildModifyAction now ?m market] =>
        pose proof (buildModifyAction_snd now m market) as F;
        destruct (buildModifyAction now m market) as [r modify']
    end.
    cbn [fst snd action_order set_action_order modify_order modify_oid] in *.
    intros _. now rewrite F.
  - rewrite (clientIdOrders_modifyBatch _ E), clientIdOrders_modifyBatch by congruence.
    clear T. rewrite (buildPermitActions_modifyBatch _ _ _ _ E).
    pose proof (forEachAdd_returns (modifyBatchItem now context) (read_nonce request)
                  (orEmpty (action_modifies (read_action request))) 0) as W.
    destruct (forEachAdd (modifyBatchItem now context) _ _ 0) as [r modifies'].
    cbn [fst snd action_modifies set_action_modifies] in *. intros Hr.
    destruct (W Hr) as [-> Ho].
    rewrite orEmpty_writeBack by (now intros ->).
    rewrite !map_map. apply map_ext_in. intros modify Hi. rewrite Forall_forall in Ho.
    now apply modifyBatchItem_returns, Ho.
  - intros _. rewrite buildPermitActions_other by assumption.
    now rewrite clientIdOrders_other.
Qed.

Lemma buildPermitEnvelopes_snd pk now request context :
  snd (envelopesOfRead pk now request context) =
  {| read_action := snd (switchOnType pk now request context);
     read_nonce := read_nonce request |}.
Proof.
  unfold envelopesOfRead.
  now destruct (switchOnType pk now request context).
Qed.

Lemma isOk_envelopesOfRead pk now request context :
  isOk (fst (envelopesOfRead pk now request context)) =
  isOk (fst (switchOnType pk now request context)).
Proof.
  unfold envelopesOfRead.
  now destruct (switchOnType pk now request context) as [[infos|e] action'].
Qed.

(** ** Batches *)

(** The loop of a batch adds what its callback returns for each item, in the
    order of the items; when it throws, it throws the error of the first
    item whose callback throws. *)
Lemma forEachAdd_actions {A : Type} (f : A -> Result PermitAction * A) baseNonce items :
  forall idx,
  match fst (forEachAdd f baseNonce items idx) with
  | Ok added =>
      map (fun info => Ok (permitAction info)) added = map (fun item => fst (f item)) items
  | Throw e =>
      exists pre bad post,
        items = pre ++ bad :: post /\
        forallb (fun item => isOk (fst (f item))) pre = true /\
        fst (f bad) = Throw e
  end.
Proof.
  induction items as [|item rest IH]; intros idx; [reflexivity|].
  cbn [forEachAdd map].
  destruct (f item) as [[permit|e] item'] eqn:E; cbn [fst].
  - specialize (IH (idx + 1)).
    destruct (forEachAdd f baseNonce rest (idx + 1)) as [[added|e] rest'];
      cbn [fst bind] in *.
    + cbn [map permitAction]. now rewrite IH.
    + destruct IH as (pre & bad & post & -> & Hpre & Hbad).
      exists (item :: pre), bad, post. cbn [app forallb]. rewrite E. now cbn [fst isOk].
  - exists [], item, rest. rewrite E. now cbn [app forallb fst].
Qed.

(** What the callbacks of the batch cases return. *)
Lemma cancelItem_converts now context cancel :
  fst (cancelItem context cancel) = convertSubItem now context (CancelItem cancel).
Proof. reflexivity. Qed.

Lemma cancelByCloidItem_converts now context cancel :
  fst (cancelByCloidItem context cancel) = convertSubItem now context (CloidItem cancel).
Proof.
  unfold cancelByCloidItem, isCancelByCloidRequest, convertSubItem. cbn [fst].
  now destruct (cancel_cloid cancel).
Qed.

Lemma batchOrderItem_converts now context order :
  fst (batchOrderItem now context order) = convertSubItem now context (OrderItem order).
Proof.
  unfold batchOrderItem, convertSubItem.
  destruct (resolveMarket (order_a order) context) as [market|e]; [|reflexivity].
  unfold buildPlaceAction, placeOf. rewrite ensureClientId_spec. cbn [fst bind].
  reflexivity.
Qed.

Lemma modifyBatchItem_converts now context modify :
  fst (modifyBatchItem now context modify) =
    convertSubItem now context (ModifyItem modify).
Proof.
  unfold modifyBatchItem, convertSubItem. cbv zeta.
  destruct (resolveMarket (order_a (modify_order modify)) context) as [market|e];
    [|reflexivity].
  unfold buildModifyAction. rewrite ensureClientId_spec. cbn [fst bind].
  reflexivity.
Qed.

Section Batch.

Context {A : Type} (f : A -> Result PermitAction * A) (wrap : A -> SubItem).
Context (convert : SubItem -> Result PermitAction).
Hypothesis f_converts : forall item, fst (f item) = convert (wrap item).

(** A batch loop from index 0: the permit actions are the conversions of the
    items, in order, with the nonces counting up from the base nonce. *)
Lemma forEachAdd_batch baseNonce items :
  match fst (forEachAdd f baseNonce items 0) with
  | Ok infos =>
      map (fun info => Ok (permitAction info)) infos = map convert (map wrap items) /\
      map info_nonce infos = nonceRange baseNonce (List.length (map wrap items))
  | Throw e =>
      exists pre bad post,
        map wrap items = pre ++ bad :: post /\
        forallb (fun item => isOk (convert item)) pre = true /\
        convert bad = Throw e
  end.
Proof.
  pose proof (forEachAdd_actions f baseNonce items 0) as P.
  pose proof (forEachAdd_nonces f baseNonce items 0) as N.
  destruct (fst (forEachAdd f baseNonce items 0)) as [infos|e].
  - destruct N as [N _]. split.
    + rewrite P, map_map. apply map_ext. intros item. apply f_converts.
    + rewrite N, length_map. unfold nonceRange. apply map_ext. intros i. lia.
  - destruct P as (pre & bad & post & -> & Hpre & Hbad).
    exists (map wrap pre), (wrap bad), (map wrap post). split; [|split].
    + now rewrite map_app.
    + rewrite forallb_of_map. rewrite <- Hpre. apply forallb_same.
      intros item. now rewrite f_converts.
    + now rewrite <- f_converts.
Qed.

End Batch.

(** The permit actions of a batch request. *)
Lemma switchOnType_batch pk now request context :
  isBatchType (action_type (read_action request)) = true ->
  match fst (switchOnType pk now request context) with
  | Ok infos =>
      map (fun info => Ok (permitAction info)) infos =
        map (convertSubItem now context) (subItems (read_action request)) /\
      map info_nonce infos =
        nonceRange (read_nonce request) (List.length (subItems (read_action request)))
  | Throw e =>
      exists pre bad post,
        subItems (read_action request) = pre ++ bad :: post /\
        forallb (fun item => isOk (convertSubItem now context item)) pre = true /\
        convertSubItem now context bad = Throw e
  end.
Proof.
  unfold isBatchType, switchOnType, subItems.
  set (action := read_action request). set (type := action_type action).
  intros H.
  destruct (String.eqb_spec type "order") as [E|_]; [rewrite E in H; discriminate|].
  destruct (String.eqb_spec type "cancel") as [E|_].
  { rewrite E. simpl (String.eqb _ _). cbv iota.
    pose proof (forEachAdd_batch (cancelItem context) CancelItem
                  (convertSubItem now context) (cancelItem_converts now context)
                  (read_nonce request) (orEmpty (action_cancels action))) as F.
    destruct (forEachAdd (cancelItem context) (read_nonce request)
                (orEmpty (action_cancels action)) 0) as [[added|e] items']; exact F. }
  destruct (String.eqb_spec type "cancelByCloid") as [E|_].
  { rewrite E. simpl (String.eqb _ _). cbv iota.
    pose proof (forEachAdd_batch (cancelByCloidItem context) CloidItem
                  (convertSubItem now context) (cancelByCloidItem_converts now context)
                  (read_nonce request) (orEmpty (action_cancels action))) as F.
    destruct (forEachAdd (cancelByCloidItem context) (read_nonce request)
                (orEmpty (action_cancels action)) 0) as [[added|e] items']; exact F. }
  destruct (String.eqb_spec type "batchOrder") as [E|_].
  { pose proof (forEachAdd_batch (batchOrderItem now context) OrderItem
                  (convertSubItem now context) (batchOrderItem_converts now context)
                  (read_nonce request) (orEmpty (action_orders action))) as F.
    destruct (forEachAdd (batchOrderItem now context) (read_nonce request)
                (orEmpty (action_orders action)) 0) as [[added|e] items']; exact F. }
  simpl in H.
  destruct (String.eqb_spec type "modifyBatch") as [E|_]; [|discriminate].
  rewrite E. simpl (String.eqb _ _). cbv iota.
  pose proof (forEachAdd_batch (modifyBatchItem now context) ModifyItem
                (convertSubItem now context) (modifyBatchItem_converts now context)
                (read_nonce request) (orEmpty (action_modifies action))) as F.
  destruct (forEachAdd (modifyBatchItem now context) (read_nonce request)
              (orEmpty (action_modifies action)) 0) as [[added|e] items']; exact F.
Qed.

(** C6: a batch request (batchOrder, cancel, cancelByCloid, modifyBatch) whose
    nonce is the integer N and which has k sub-items yields k envelopes in
    input order: the action of the i-th envelope is the conversion of the
    i-th sub-item, and the nonces are N, N+1, ..., N+k-1, strictly increasing
    and pairwise distinct.  The call throws instead exactly when some
    sub-item does not convert, with the error of the first such sub-item, or
    when the nonce is no integer, with a RangeError. *)
Theorem batch_nonces_sequential pk now request context :
  isBatchType (action_type (req_action request)) = true ->
  let items := subItems (req_action request) in
  match Js.BigIntOfNumeric (req_nonce request),
        fst (buildPermitEnvelopesFromExchangeRequest pk now request context) with
  | Ok base, Ok envelopes =>
      map (fun envelope => Ok (action envelope)) envelopes =
        map (convertSubItem now context) items /\
      map nonce envelopes = nonceRange base (List.length items) /\
      List.length envelopes = List.length items /\
      Sorted.StronglySorted Z.lt (map nonce envelopes) /\
      NoDup (map nonce envelopes)
  | Ok base, Throw e =>
      exists pre bad post,
        items = pre ++ bad :: post /\
        forallb (fun item => isOk (convertSubItem now context item)) pre = true /\
        convertSubItem now context bad = Throw e
  | Throw _, r => r = Throw RangeError
  end.
Proof.
  intros H items.
  destruct (Js.BigIntOfNumeric (req_nonce request)) as [base|err] eqn:Hn.
  - rewrite (buildPermitEnvelopes_of_read _ _ _ _ _ Hn). cbn [fst].
    set (read := {| read_action := req_action request; read_nonce := base |}).
    pose proof (switchOnType_batch pk now read context H) as A.
    pose proof (buildPermitEnvelopes_nonces pk now read context) as B.
    destruct (fst (envelopesOfRead pk now read context)) as [envelopes|e];
      destruct (fst (switchOnType pk now read context)) as [infos|e'];
      try contradiction.
    + destruct A as [A1 A2], B as [B1 B2]. cbn [read read_action read_nonce] in A1, A2.
      fold items in A1, A2. rewrite B1, A2. repeat split.
      * rewrite <- A1, <- (map_map action (fun permit => Ok permit)), B2.
        now rewrite map_map.
      * rewrite <- (length_map nonce), B1, A2. apply nonceRange_length.
      * apply nonceRange_sorted.
      * apply nonceRange_NoDup.
    + subst e'. exact A.
  - rewrite (buildPermitEnvelopes_unread _ _ _ _ _ Hn). cbn [fst].
    now rewrite (BigIntOfNumeric_throws _ _ Hn).
Qed.

(** C6 (witness): three different orders with the base nonce 1000. *)
Lemma batch_nonces_sequential_witness :
  exists envelopes,
    fst (buildPermitEnvelopesFromExchangeRequest noPublicKey 1700000000123
           {| req_action :=
                set_action_orders (bareAction "batchOrder")
                  (Some [sampleOrder (Some "17") "Ioc";
                         {| order_a := Some (Str "BTC-PERP"); order_b := false;
                            order_p := "2"; order_s := "3"; order_r := true;
                            order_t := None; order_c := None |};
                         sampleOrder (Some "abc") "Alo"]);
              req_nonce := ANumber (Integer 1000) |} sampleContext) = Ok envelopes /\
    map action envelopes =
      [Place 64 17 0 21000 (Some 131425000000) IOC false None 0 None;
       Place 64 1700000000123 1 300000000 (Some 2000000) GTC true None 0 None;
       Place 64 6382179 0 21000 (Some 131425000000) ALO false None 0 None] /\
    map nonce envelopes = [1000; 1001; 1002].
Proof.
  pose proof (batch_nonces_sequential noPublicKey 1700000000123
           {| req_action :=
                set_action_orders (bareAction "batchOrder")
                  (Some [sampleOrder (Some "17") "Ioc";
                         {| order_a := Some (Str "BTC-PERP"); order_b := false;
                            order_p := "2"; order_s := "3"; order_r := true;
                            order_t := None; order_c := None |};
                         sampleOrder (Some "abc") "Alo"]);
              req_nonce := ANumber (Integer 1000) |} sampleContext eq_refl) as H.
  cbv zeta in H. cbn [Js.BigIntOfNumeric Js.BigIntOfNumber req_nonce] in H.
  destruct (fst (buildPermitEnvelopesFromExchangeRequest _ _ _ _)) as [envelopes|e]
    eqn:B; [|vm_compute in B; discriminate B].
  - exists envelopes. split; [reflexivity|]. destruct H as (A & N & _).
    split; [|exact N].
    assert (I : forall l l' : list PermitAction, map Ok l = map Ok l' -> l = l').
    { induction l as [|x l IH]; destruct l' as [|y l']; cbn [map]; intros E;
        try discriminate; [reflexivity|].
      injection E as -> E. f_equal. now apply IH. }
    apply I. rewrite map_map. rewrite A. vm_compute. reflexivity.
Defined.

(** C7 (counterexample): the call writes a client id into an order that has
    none. *)
Lemma adapter_writes_client_id :
  option_map (map order_c)
    (action_orders
       (req_action
          (snd (buildPermitEnvelopesFromExchangeRequest noPublicKey 1700000000123
                  {| req_action :=
                       set_action_orders (bareAction "batchOrder")
                                         (Some [sampleOrder None "Gtc"]);
                     req_nonce := ABigInt 1000 |} sampleContext))))
  = Some [Some "1700000000123"] /\
  order_c (sampleOrder None "Gtc") = None.
Proof. split; reflexivity. Qed.

(** C7 (amended): the call is a function of the request, the context and the
    clock, and it does write into the request, but only client ids.  With
    every [c] forgotten the request after the call is the request before.  A
    request whose client ids, those that its type reads, are all present
    integer literals is left as it is.  A second call with the same context
    and clock on the request that the first call left returns the same
    envelopes and writes nothing more, and a later call at any clock reading
    returns the same permit actions and nonces.  A call that returns has
    written every client id that the request reads: the decimal of the clock
    reading where [c] was missing or empty, the decimal of the number that
    its bytes spell where [c] was no integer literal, and [c] itself
    otherwise; the request is then settled.  Each single [ensureClientId]
    call returns and writes these values for the clock reading of that
    call. *)
Theorem adapter_writes_only_client_ids pk now request context :
  let result := buildPermitEnvelopesFromExchangeRequest pk now request context in
  let after := snd result in
  eraseRequestC after = eraseRequestC request /\
  (clientIdsSettled (req_action request) = true -> after = request) /\
  buildPermitEnvelopesFromExchangeRequest pk now after context = result /\
  (forall later,
     buildPermitActions pk later after context =
       (fst (buildPermitActions pk now request context), req_action after)) /\
  (isOk (fst result) = true ->
   clientIdOrders (req_action after) =
     map (fun order => set_order_c order (writtenClientId now (order_c order)))
         (clientIdOrders (req_action request)) /\
   clientIdsSettled (req_action after) = true) /\
  (forall reading order,
     ensureClientId reading order =
       (Ok (clientIdOf reading (order_c order)),
        set_order_c order (writtenClientId reading (order_c order)))).
Proof.
  cbv zeta.
  rewrite <- !and_assoc. split; [|intros reading order; apply ensureClientId_spec].
  rewrite !and_assoc.
  destruct (Js.BigIntOfNumeric (req_nonce request)) as [base|e] eqn:Hn.
  - set (read := {| read_action := req_action request; read_nonce := base |}).
    rewrite (buildPermitEnvelopes_read _ _ _ _ _ Hn). fold read. cbn [fst snd].
    assert (Hn' : Js.BigIntOfNumeric
                    (req_nonce {| req_action := snd (switchOnType pk now read context);
                                  req_nonce := req_nonce request |}) = Ok base)
      by exact Hn.
    assert (G : forall later,
              switchOnType pk later
                {| read_action := snd (switchOnType pk now read context);
                   read_nonce := base |} context =
              switchOnType pk now read context)
      by (intros later; exact (switchOnType_again pk now later read context)).
    split; [|split; [|split; [|split]]].
    + unfold eraseRequestC. cbn [req_action req_nonce].
      now rewrite (buildPermitActions_frame pk now read context).
    + intros H. rewrite (switchOnType_settled pk now read context H).
      now destruct request.
    + rewrite (buildPermitEnvelopes_read _ _ _ _ _ Hn'). cbn [req_action req_nonce].
      unfold envelopesOfRead. rewrite (G now).
      now destruct (switchOnType pk now read context).
    + intros later. rewrite (buildPermitActions_read _ _ _ _ _ Hn').
      rewrite (buildPermitActions_read _ _ _ _ _ Hn). cbn [req_action req_nonce].
      fold read. rewrite (G later).
      now destruct (switchOnType pk now read context).
    + rewrite isOk_envelopesOfRead. intros Hr. cbn [req_action].
      unfold clientIdsSettled.
      rewrite (switchOnType_written pk now read context Hr). cbn [read read_action].
      split.
      * apply map_ext. intros order. now rewrite ensureClientId_spec.
      * rewrite forallb_of_map. apply forallb_forall.
        intros order _. apply ensureClientId_leaves_settled.
  - rewrite (buildPermitEnvelopes_unread _ _ _ _ _ Hn). cbn [fst snd].
    split; [reflexivity|]. split; [reflexivity|].
    split; [apply (buildPermitEnvelopes_unread _ _ _ _ _ Hn)|].
    split; [|discriminate].
    intros later. now rewrite !(buildPermitActions_unread _ _ _ _ _ Hn).
Qed.

(** ** The codec: round trips, layout by layout *)

Lemma length_toLE span : forall n, List.length (Borsh.toLE span n) = span.
Proof. induction span; intros n; simpl; auto. Qed.

Lemma fromLE_toLE span : forall n,
  0 <= n < 256 ^ Z.of_nat span -> Borsh.fromLE (Borsh.toLE span n) = n.
Proof.
  induction span as [|span IH]; intros n H.
  - simpl in *. lia.
  - rewrite Nat2Z.inj_succ, Z.pow_succ_r in H by lia.
    cbn [Borsh.toLE Borsh.fromLE]. rewrite IH.
    + pose proof (Z.div_mod n 256 ltac:(lia)). lia.
    + split; [apply Z.div_pos; lia | apply Z.div_lt_upper_bound; lia].
Qed.

Lemma firstn_exact {A : Type} (a b : list A) n :
  List.length a = n -> firstn n (a ++ b) = a.
Proof. intros <-. now rewrite firstn_app, Nat.sub_diag, firstn_all, firstn_O, app_nil_r. Qed.

Lemma skipn_exact {A : Type} (a b : list A) n :
  List.length a = n -> skipn n (a ++ b) = b.
Proof. intros <-. now rewrite skipn_app, Nat.sub_diag, skipn_all. Qed.

Lemma ltb_length_app {A : Type} (a b : list A) n :
  List.length a = n -> (List.length (a ++ b) <? n)%nat = false.
Proof. intros <-. apply Nat.ltb_ge. rewrite length_app. lia. Qed.

Lemma RoundTrip_uint span n :
  0 <= n < 256 ^ Z.of_nat span ->
  Borsh.RoundTrip (Borsh.UInt span) (Borsh.JNumber n) (Borsh.toLE span n) (Borsh.JNumber n).
Proof.
  intros H. split.
  - cbn [Borsh.encode].
    replace ((0 <=? n) && (n <? 256 ^ Z.of_nat span)) with true; [reflexivity|].
    symmetry. apply andb_true_iff. split; [apply Z.leb_le | apply Z.ltb_lt]; lia.
  - intros rest. cbn [Borsh.decode].
    rewrite ltb_length_app, firstn_exact, skipn_exact, fromLE_toLE
      by (apply length_toLE || assumption).
    reflexivity.
Qed.

Lemma RoundTrip_unsigned span n :
  0 <= n < 256 ^ Z.of_nat span ->
  Borsh.RoundTrip (Borsh.BNLayout span false) (Borsh.JBN n) (Borsh.toLE span n)
                  (Borsh.JBN n).
Proof.
  intros H. split.
  - cbn [Borsh.encode]. cbv zeta.
    replace ((0 <=? n) && (n <? 256 ^ Z.of_nat span)) with true; [reflexivity|].
    symmetry. apply andb_true_iff. split; [apply Z.leb_le | apply Z.ltb_lt]; lia.
  - intros rest. cbn [Borsh.decode].
    rewrite ltb_length_app, firstn_exact, skipn_exact, fromLE_toLE
      by (apply length_toLE || assumption).
    reflexivity.
Qed.

Lemma RoundTrip_i64 n :
  - 2 ^ 63 <= n < 2 ^ 63 ->
  Borsh.RoundTrip Borsh.i64 (Borsh.JBN n) (Borsh.toLE 8 (n mod 2 ^ 64)) (Borsh.JBN n).
Proof.
  intros H. unfold Borsh.i64.
  assert (W : 256 ^ Z.of_nat 8 = 2 ^ 64) by reflexivity.
  assert (W2 : 2 ^ 64 / 2 = 2 ^ 63) by reflexivity.
  assert (M : 0 <= n mod 2 ^ 64 < 2 ^ 64) by (apply Z.mod_pos_bound; lia).
  split.
  - cbn [Borsh.encode]. cbv zeta. rewrite W, W2.
    replace ((- 2 ^ 63 <=? n) && (n <? 2 ^ 63)) with true; [reflexivity|].
    symmetry. apply andb_true_iff. split; [apply Z.leb_le | apply Z.ltb_lt]; lia.
  - intros rest. cbn [Borsh.decode]. cbv zeta.
    rewrite ltb_length_app, firstn_exact, skipn_exact, fromLE_toLE
      by (apply length_toLE || (rewrite W; assumption)).
    rewrite W, W2. cbn [andb]. f_equal. f_equal. f_equal.
    pose proof (Z.div_mod n (2 ^ 64) ltac:(lia)) as Q.
    destruct (Z.leb_spec (2 ^ 63) (n mod 2 ^ 64)) as [G|G];
      change (2 ^ 64) with 18446744073709551616 in *;
      change (2 ^ 63) with 9223372036854775808 in *; lia.
Qed.

Lemma RoundTrip_bool b :
  Borsh.RoundTrip Borsh.bool (Borsh.JBool b) [if b then 1 else 0] (Borsh.JBool b).
Proof. split; [reflexivity|]. intros rest. now destruct b. Qed.

Lemma RoundTrip_publicKey key :
  List.length key = 32%nat ->
  Borsh.RoundTrip Borsh.publicKey (Borsh.JBytes key) key (Borsh.JBytes key).
Proof.
  intros H. split.
  - cbn [Borsh.encode Borsh.publicKey]. now rewrite H.
  - intros rest. cbn [Borsh.decode Borsh.publicKey].
    now rewrite ltb_length_app, firstn_exact, skipn_exact.
Qed.

Lemma RoundTrip_array count bs :
  List.length bs = count -> forallb Borsh.isByte bs = true ->
  Borsh.RoundTrip (Borsh.ArrayU8 count) (Borsh.JBytes bs) bs (Borsh.JBytes bs).
Proof.
  intros H B. split.
  - cbn [Borsh.encode]. now rewrite H, Nat.eqb_refl, B.
  - intros rest. cbn [Borsh.decode].
    now rewrite ltb_length_app, firstn_exact, skipn_exact.
Qed.

Lemma RoundTrip_none l :
  Borsh.RoundTrip (Borsh.option l) Borsh.JNull [0] Borsh.JNull.
Proof. split; [reflexivity|]. intros rest. reflexivity. Qed.

Lemma RoundTrip_some l src bytes out :
  src <> Borsh.JNull -> Borsh.RoundTrip l src bytes out ->
  Borsh.RoundTrip (Borsh.option l) src (1 :: bytes) out.
Proof.
  intros N [E D]. split.
  - cbn [Borsh.encode Borsh.option]. rewrite E. now destruct src.
  - intros rest. cbn [Borsh.decode Borsh.option]. apply D.
Qed.

Lemma RoundTrip_struct_nil props :
  Borsh.RoundTrip (Borsh.struct []) (Borsh.JObject props) [] (Borsh.JObject []).
Proof. split; [reflexivity|]. intros rest. reflexivity. Qed.

Lemma RoundTrip_struct_cons property l fs props v b1 out b2 outs :
  Borsh.getProp props property = Some v ->
  Borsh.RoundTrip l v b1 out ->
  Borsh.RoundTrip (Borsh.struct fs) (Borsh.JObject props) b2 (Borsh.JObject outs) ->
  Borsh.RoundTrip (Borsh.struct ((property, l) :: fs)) (Borsh.JObject props) (b1 ++ b2)
                  (Borsh.JObject ((property, out) :: outs)).
Proof.
  intros G [E1 D1] [E2 D2]. split.
  - cbn [Borsh.encode Borsh.struct Borsh.encodeFields] in *. now rewrite G, E1, E2.
  - intros rest. cbn [Borsh.decode Borsh.struct Borsh.decodeFields] in *.
    rewrite <- app_assoc, D1. specialize (D2 rest).
    destruct (Borsh.decodeFields Borsh.decode fs (b2 ++ rest)) as [[props' b']|];
      [|discriminate]. now inversion D2.
Qed.

Lemma encodeVariant_skip props pre : forall vs tag,
  noneIn props pre = true ->
  Borsh.encodeVariant Borsh.encode props (pre ++ vs) tag =
  Borsh.encodeVariant Borsh.encode props vs (tag + Z.of_nat (List.length pre)).
Proof.
  induction pre as [|[name vl] pre IH]; intros vs tag H.
  - simpl. f_equal. lia.
  - cbn [noneIn forallb fst] in H. apply andb_true_iff in H as [H1 H2].
    cbn [app Borsh.encodeVariant].
    destruct (Borsh.getProp props name); [discriminate|].
    rewrite IH by assumption. f_equal. cbn [List.length]. lia.
Qed.

Lemma decodeVariant_skip pre : forall vs b,
  Borsh.decodeVariant Borsh.decode (pre ++ vs) (Z.of_nat (List.length pre)) b =
  Borsh.decodeVariant Borsh.decode vs 0 b.
Proof.
  induction pre as [|[name vl] pre IH]; intros vs b; [reflexivity|].
  cbn [app Borsh.decodeVariant List.length].
  destruct (Z.eqb_spec (Z.of_nat (S (List.length pre))) 0) as [E|_]; [lia|].
  replace (Z.of_nat (S (List.length pre)) - 1) with (Z.of_nat (List.length pre)) by lia.
  apply IH.
Qed.

(** The variant [name] of a rust enum, after the variants [pre]. *)
Lemma RoundTrip_variant pre name l post props v bytes out :
  noneIn props pre = true ->
  Borsh.getProp props name = Some v ->
  Borsh.RoundTrip l v bytes out ->
  Borsh.RoundTrip (Borsh.rustEnum (pre ++ (name, l) :: post)) (Borsh.JObject props)
                  (Z.of_nat (List.length pre) :: bytes)
                  (Borsh.JObject [(name, out)]).
Proof.
  intros N G [E D]. split.
  - cbn [Borsh.encode Borsh.rustEnum]. rewrite encodeVariant_skip by assumption.
    cbn [Borsh.encodeVariant]. now rewrite G, E.
  - intros rest. cbn [Borsh.decode Borsh.rustEnum app].
    rewrite decodeVariant_skip. cbn [Borsh.decodeVariant]. now rewrite D.
Qed.

Lemma RoundTrip_variant_at i vs name l props v bytes out :
  nth_error vs i = Some (name, l) ->
  noneIn props (firstn i vs) = true ->
  Borsh.getProp props name = Some v ->
  Borsh.RoundTrip l v bytes out ->
  Borsh.RoundTrip (Borsh.rustEnum vs) (Borsh.JObject props) (Z.of_nat i :: bytes)
                  (Borsh.JObject [(name, out)]).
Proof.
  intros Hn N G R.
  destruct (nth_error_split vs i Hn) as (pre & post & -> & L).
  rewrite firstn_app, L, Nat.sub_diag, firstn_O, app_nil_r in N.
  rewrite <- L in N |- *. rewrite firstn_all in N.
  eapply RoundTrip_variant; eassumption.
Qed.

(** *** Ranges *)

Lemma isU8_range n : isU8 n = true -> 0 <= n < 256 ^ Z.of_nat 1.
Proof.
  unfold isU8. rewrite andb_true_iff, Z.leb_le, Z.ltb_lt.
  change (256 ^ Z.of_nat 1) with 256. lia.
Qed.

Lemma isU16_range n : isU16 n = true -> 0 <= n < 256 ^ Z.of_nat 2.
Proof.
  unfold isU16. rewrite andb_true_iff, Z.leb_le, Z.ltb_lt.
  change (256 ^ Z.of_nat 2) with 65536. lia.
Qed.

Lemma isU64_range n : isU64 n = true -> 0 <= n < 256 ^ Z.of_nat 8.
Proof.
  unfold isU64. rewrite andb_true_iff, Z.leb_le, Z.ltb_lt.
  change (256 ^ Z.of_nat 8) with (2 ^ 64). lia.
Qed.

Lemma isU128_range n : isU128 n = true -> 0 <= n < 256 ^ Z.of_nat 16.
Proof.
  unfold isU128. rewrite andb_true_iff, Z.leb_le, Z.ltb_lt.
  change (256 ^ Z.of_nat 16) with (2 ^ 128). lia.
Qed.

Lemma isI64_range n : isI64 n = true -> - 2 ^ 63 <= n < 2 ^ 63.
Proof. unfold isI64. rewrite andb_true_iff, Z.leb_le, Z.ltb_lt. lia. Qed.

Lemma isAddress_length key : isAddress key = true -> List.length key = 32%nat.
Proof. apply Nat.eqb_eq. Qed.

Lemma isBytes32_array b :
  isBytes32 b = true -> List.length b = 32%nat /\ forallb Borsh.isByte b = true.
Proof. unfold isBytes32. rewrite andb_true_iff, Nat.eqb_eq. auto. Qed.

Ltac split_valid :=
  repeat match goal with
         | H : _ && _ = true |- _ => apply andb_true_iff in H as [? ?]
         end.

(** One field of a struct, by the rule of its layout. *)
Ltac rt_field :=
  first
    [ eassumption
    | apply RoundTrip_bool
    | apply RoundTrip_uint; first [now apply isU8_range | now apply isU16_range]
    | apply RoundTrip_unsigned; first [now apply isU64_range | now apply isU128_range]
    | apply RoundTrip_i64; now apply isI64_range
    | apply RoundTrip_publicKey; now apply isAddress_length
    | apply RoundTrip_array; now apply isBytes32_array ].

Ltac rt_struct :=
  repeat (eapply RoundTrip_struct_cons; [reflexivity | rt_field | ]);
  apply RoundTrip_struct_nil.

Ltac rt_lengths :=
  repeat rewrite ?length_app, ?length_toLE, ?length_cons, ?length_nil; cbn [List.length].

(** *** The schemas *)

Lemma RoundTrip_optionU64 v :
  validOption isU64 v = true ->
  exists bytes,
    Borsh.RoundTrip (Borsh.option Borsh.u64) (toBNOrNull v) bytes (toBNOrNull v) /\
    (List.length bytes <= 9)%nat.
Proof.
  destruct v as [n|]; cbn [validOption toBNOrNull]; intros H.
  - eexists. split; [apply RoundTrip_some; [discriminate|]; rt_field|].
    rt_lengths. lia.
  - exists [0]. split; [apply RoundTrip_none | simpl; lia].
Qed.

Lemma RoundTrip_optionKey key :
  validOption isAddress key = true ->
  Borsh.RoundTrip (Borsh.option Borsh.publicKey)
    (match key with Some k => Borsh.JBytes k | None => Borsh.JNull end)
    (match key with Some k => 1 :: k | None => [0] end)
    (match key with Some k => Borsh.JBytes k | None => Borsh.JNull end).
Proof.
  destruct key as [k|]; cbn [validOption]; intros H.
  - apply RoundTrip_some; [discriminate|]. rt_field.
  - apply RoundTrip_none.
Qed.

Lemma RoundTrip_healthFloor floor :
  validOption validHealthFloor floor = true ->
  exists bytes,
    Borsh.RoundTrip (Borsh.option healthFloorSchema) (toBorshHealthFloor floor) bytes
                    (toBorshHealthFloor floor) /\
    (List.length bytes <= 10)%nat.
Proof.
  destruct floor as [floor|]; cbn [validOption toBorshHealthFloor]; intros H.
  - unfold validHealthFloor in H.
    assert (M : isU8 (HealthMetric_code (metric floor)) = true)
      by (now destruct (metric floor)).
    eexists. split.
    + apply RoundTrip_some; [discriminate|]. unfold healthFloorSchema. rt_struct.
    + rt_lengths. lia.
  - exists [0]. split; [apply RoundTrip_none | simpl; lia].
Qed.

Lemma RoundTrip_tif tif :
  validTif tif = true ->
  exists bytes,
    Borsh.RoundTrip tifSchema (toBorshTif tif) bytes (toBorshTif tif) /\
    (List.length bytes <= 9)%nat.
Proof.
  intros H. unfold tifSchema.
  destruct tif; cbn [validTif toBorshTif] in *; eexists; (split; [|shelve]).
  - eapply (RoundTrip_variant_at 0); [reflexivity ..| rt_struct].
  - eapply (RoundTrip_variant_at 1); [reflexivity ..| rt_struct].
  - eapply (RoundTrip_variant_at 2); [reflexivity ..| rt_struct].
  - eapply (RoundTrip_variant_at 3); [reflexivity ..| rt_struct].
  - eapply (RoundTrip_variant_at 4); [reflexivity ..| rt_struct].
  Unshelve. all: rt_lengths; lia.
Qed.

Lemma RoundTrip_mode mode :
  validMode mode = true ->
  exists bytes,
    Borsh.RoundTrip replayModeSchema (toBorshReplayMode mode) bytes
                    (toBorshReplayMode mode) /\
    (List.length bytes <= 33)%nat.
Proof.
  intros H. unfold replayModeSchema.
  destruct mode; cbn [validMode toBorshReplayMode] in *.
  - eexists. split; [eapply (RoundTrip_variant_at 0); [reflexivity ..| rt_struct]|].
    rt_lengths. lia.
  - exists (1 :: salt ++ []).
    split; [eapply (RoundTrip_variant_at 1); [reflexivity ..| rt_struct]|].
    apply isBytes32_array in H as [L _]. rt_lengths. lia.
  - exists (2 :: id ++ []).
    split; [eapply (RoundTrip_variant_at 2); [reflexivity ..| rt_struct]|].
    apply isBytes32_array in H as [L _]. rt_lengths. lia.
  - eexists. split; [eapply (RoundTrip_variant_at 3); [reflexivity ..| rt_struct]|].
    rt_lengths. lia.
Qed.

Lemma RoundTrip_action action :
  validAction action = true ->
  exists bytes,
    Borsh.RoundTrip permitActionSchema (toBorshAction action) bytes (toBorshAction action) /\
    (List.length bytes <= 81)%nat.
Proof.
  intros H. unfold permitActionSchema.
  destruct action; cbn [validAction toBorshAction] in H |- *; split_valid;
    repeat match goal with
           | H : validTif ?t = true |- _ =>
               destruct (RoundTrip_tif t H) as (? & ? & ?); clear H
           | H : validOption validHealthFloor ?f = true |- _ =>
               destruct (RoundTrip_healthFloor f H) as (? & ? & ?); clear H
           | H : validOption isU64 ?v = true |- _ =>
               destruct (RoundTrip_optionU64 v H) as (? & ? & ?); clear H
           | H : match ?l with Integer _ => _ | NonInteger _ => false end = true |- _ =>
               destruct l; [cbn [Num.toUInt] | discriminate H]
           end.
  - eexists. split; [eapply (RoundTrip_variant_at 0); [reflexivity ..| rt_struct]|].
    rt_lengths. lia.
  - eexists. split; [eapply (RoundTrip_variant_at 4); [reflexivity ..| rt_struct]|].
    rt_lengths. lia.
  - eexists. split; [eapply (RoundTrip_variant_at 1); [reflexivity ..| rt_struct]|].
    rt_lengths. lia.
  - eexists. split; [eapply (RoundTrip_variant_at 2); [reflexivity ..| rt_struct]|].
    rt_lengths. lia.
  - eexists. split; [eapply (RoundTrip_variant_at 3); [reflexivity ..| rt_struct]|].
    rt_lengths. lia.
  - match goal with H : isAddress _ = true |- _ =>
      pose proof (isAddress_length _ H) end.
    eexists. split; [eapply (RoundTrip_variant_at 8); [reflexivity ..| rt_struct]|].
    rt_lengths. lia.
  - match goal with H : isAddress _ = true |- _ =>
      pose proof (isAddress_length _ H) end.
    eexists. split; [eapply (RoundTrip_variant_at 5); [reflexivity ..| rt_struct]|].
    rt_lengths. lia.
  - eexists. split; [eapply (RoundTrip_variant_at 6); [reflexivity ..| rt_struct]|].
    rt_lengths. lia.
  - eexists. split; [eapply (RoundTrip_variant_at 7); [reflexivity ..| rt_struct]|].
    rt_lengths. lia.
Qed.

Lemma RoundTrip_bytes l src bytes bytes' out :
  Borsh.RoundTrip l src bytes out -> bytes = bytes' -> Borsh.RoundTrip l src bytes' out.
Proof. now intros R <-. Qed.

Lemma toLE_1 n : 0 <= n < 256 ^ Z.of_nat 1 -> Borsh.toLE 1 n = [n].
Proof.
  change (256 ^ Z.of_nat 1) with 256. intros H. cbn [Borsh.toLE].
  now rewrite Z.mod_small.
Qed.

Lemma isU8_code_cluster c : isU8 (ClusterType_code c) = true.
Proof. now destruct c. Qed.

Lemma isU8_code_key k : isU8 (KeyType_code k) = true.
Proof. now destruct k. Qed.

Lemma RoundTrip_domain d :
  isAddress (programId d) = true -> isU8 (version d) = true ->
  Borsh.RoundTrip permitDomainSchema
    (Borsh.JObject [("programId", Borsh.JBytes (programId d));
                    ("cluster", Borsh.JNumber (ClusterType_code (cluster d)));
                    ("version", Borsh.JNumber (version d))])
    (domainBytes d)
    (Borsh.JObject [("programId", Borsh.JBytes (programId d));
                    ("cluster", Borsh.JNumber (ClusterType_code (cluster d)));
                    ("version", Borsh.JNumber (version d))]).
Proof.
  intros Hp Hv. pose proof (isU8_code_cluster (cluster d)) as Hc.
  eapply RoundTrip_bytes; [unfold permitDomainSchema; rt_struct|].
  unfold domainBytes.
  rewrite !toLE_1 by (now apply isU8_range). now rewrite app_nil_r.
Qed.

(** The envelope schema on the object of an envelope: the bytes are the
    fields in schema order, and they decode to the same object. *)
Lemma RoundTrip_envelope envelope :
  validEnvelope envelope = true ->
  exists actionBytes modeBytes,
    Borsh.encode permitActionSchema (toBorshAction (action envelope)) = Some actionBytes /\
    Borsh.encode replayModeSchema (toBorshReplayMode (mode envelope)) = Some modeBytes /\
    Borsh.RoundTrip permitEnvelopeSchema (serializable envelope)
      (envelopeBytes envelope actionBytes modeBytes) (serializable envelope) /\
    (List.length (envelopeBytes envelope actionBytes modeBytes) <= 238)%nat.
Proof.
  unfold validEnvelope. intros H. split_valid.
  match goal with H : validAction _ = true |- _ =>
    destruct (RoundTrip_action _ H) as (actionBytes & Ra & La) end.
  match goal with H : validMode _ = true |- _ =>
    destruct (RoundTrip_mode _ H) as (modeBytes & Rm & Lm) end.
  match goal with H : validOption isAddress _ = true |- _ =>
    pose proof (RoundTrip_optionKey _ H) as Rr end.
  pose proof (RoundTrip_domain (domain envelope) ltac:(assumption) ltac:(assumption)) as Rd.
  pose proof (isU8_code_key (keyType envelope)) as Hk.
  exists actionBytes, modeBytes.
  split; [exact (proj1 Ra)|]. split; [exact (proj1 Rm)|]. split.
  - eapply RoundTrip_bytes; [unfold permitEnvelopeSchema, serializable; rt_struct|].
    unfold envelopeBytes.
    rewrite !toLE_1 by (now apply isU8_range).
    rewrite <- ?app_assoc. now rewrite app_nil_r.
  - unfold envelopeBytes, domainBytes.
    assert ((List.length (match relayer envelope with
                          | Some key => 1 :: key
                          | None => [0]
                          end)%Z <= 33)%nat).
    { destruct (relayer envelope); cbn [validOption] in *;
        repeat match goal with
               | H : isAddress _ = true |- _ => apply isAddress_length in H
               end; rt_lengths; lia. }
    repeat match goal with
           | H : isAddress _ = true |- _ => apply isAddress_length in H
           end.
    rt_lengths. lia.
Qed.

(** *** The decoded object read back *)

Lemma fromBorshAction_toBorshAction props property action :
  validAction action = true ->
  Borsh.getProp props property = Some (toBorshAction action) ->
  fromBorshAction props property = Some action.
Proof.
  intros V G. unfold fromBorshAction. rewrite G.
  destruct action as [? ? ? ? price tif ? triggerPrice ? floor
                     |? ? ? ? ? price tif ? triggerPrice ? floor
                     | | | marketId | |? ? floor|? bps floor| ];
    try reflexivity;
    try (destruct marketId; reflexivity);
    try (destruct bps as [z|d];
         [|cbn [validAction] in V; rewrite andb_false_r in V; discriminate V]);
    try (destruct floor as [[[] ?]|]; reflexivity);
    destruct price, tif, triggerPrice, floor as [[[] ?]|]; reflexivity.
Qed.

Lemma fromBorshReplayMode_toBorshReplayMode props property mode :
  Borsh.getProp props property = Some (toBorshReplayMode mode) ->
  fromBorshReplayMode props property = Some mode.
Proof.
  intros G. unfold fromBorshReplayMode. rewrite G. now destruct mode.
Qed.

Lemma fromBorshEnvelope_serializable envelope :
  validAction (action envelope) = true ->
  fromBorshEnvelope (serializable envelope) = Some envelope.
Proof.
  destruct envelope as [[pid ver cl] auth kt act md exp fee rel n].
  cbn [action]. intros V. unfold fromBorshEnvelope, serializable.
  rewrite (fromBorshAction_toBorshAction _ "action" act V) by reflexivity.
  rewrite (fromBorshReplayMode_toBorshReplayMode _ "mode" md) by reflexivity.
  destruct cl, kt, rel; reflexivity.
Qed.

(** C1: decoding is the inverse of encoding on valid envelopes: a valid
    envelope encodes, and the bytes decode to the envelope. *)
Theorem decode_encode_round_trip envelope :
  validEnvelope envelope = true ->
  exists bytes,
    encodePermitEnvelope envelope = Ok bytes /\
    decodePermitEnvelope bytes = inl envelope.
Proof.
  intros H. destruct (RoundTrip_envelope envelope H) as (a & m & _ & _ & [E D] & L).
  exists (envelopeBytes envelope a m). split.
  - unfold encodePermitEnvelope. rewrite E.
    replace (List.length (envelopeBytes envelope a m) <=? 512)%nat with true;
      [reflexivity|]. symmetry. apply Nat.leb_le. lia.
  - unfold decodePermitEnvelope. specialize (D []). rewrite app_nil_r in D.
    rewrite D, fromBorshEnvelope_serializable; [reflexivity|].
    unfold validEnvelope in H. now split_valid.
Qed.

(** C1 (witness): a Modify envelope with a GTT time in force, a health
    floor, a nonce-salt replay mode and a relayer. *)
Lemma decode_encode_round_trip_witness :
  exists bytes,
    encodePermitEnvelope
      (sampleEnvelope
         (Modify 64 5 (2 ^ 100) 1 21000 (Some 131425000000) (GTT 99) true None 0
                 (Some {| metric := RatioBps; min := -7 |}))
         (Nonce (sampleKey 255)) (Some (sampleKey 3))) = Ok bytes /\
    decodePermitEnvelope bytes =
      inl (sampleEnvelope
             (Modify 64 5 (2 ^ 100) 1 21000 (Some 131425000000) (GTT 99) true None 0
                     (Some {| metric := RatioBps; min := -7 |}))
             (Nonce (sampleKey 255)) (Some (sampleKey 3))).
Proof.
  apply (decode_encode_round_trip
           (sampleEnvelope
              (Modify 64 5 (2 ^ 100) 1 21000 (Some 131425000000) (GTT 99) true None 0
                      (Some {| metric := RatioBps; min := -7 |}))
              (Nonce (sampleKey 255)) (Some (sampleKey 3)))).
  vm_compute. reflexivity.
Defined.

(** C2 (counterexample): on the mainnet domain of version 1 the byte after
    the program id is the cluster (0) and the next one the version (1), not
    the other way round. *)
Lemma domain_encodes_cluster_before_version :
  match encodePermitEnvelope (sampleEnvelope Noop (HlWindow 128) None) with
  | Ok bytes =>
      firstn 34 bytes = domainBytes (domain (sampleEnvelope Noop (HlWindow 128) None)) /\
      firstn 34 bytes <>
        domainBytesVersionFirst (domain (sampleEnvelope Noop (HlWindow 128) None))
  | Throw _ => False
  end.
Proof. vm_compute. split; [reflexivity | discriminate]. Qed.

(** C2 (amended): a valid envelope encodes to its fields in this order: the
    domain as the 32-byte program id, the cluster byte and then the version
    byte; the authorizer; the key type; the action; the replay mode; the
    expiry; the fee cap; the optional relayer; the nonce. *)
Theorem encode_field_order envelope :
  validEnvelope envelope = true ->
  exists actionBytes modeBytes,
    Borsh.encode permitActionSchema (toBorshAction (action envelope)) = Some actionBytes /\
    Borsh.encode replayModeSchema (toBorshReplayMode (mode envelope)) = Some modeBytes /\
    encodePermitEnvelope envelope =
      Ok (programId (domain envelope)
          ++ [ClusterType_code (cluster (domain envelope))]
          ++ [version (domain envelope)]
          ++ authorizer envelope
          ++ [KeyType_code (keyType envelope)]
          ++ actionBytes
          ++ modeBytes
          ++ Borsh.toLE 8 (expiresUnix envelope mod 2 ^ 64)
          ++ Borsh.toLE 8 (maxFeeQuote envelope)
          ++ match relayer envelope with Some key => 1 :: key | None => [0] end
          ++ Borsh.toLE 8 (nonce envelope)).
Proof.
  intros H. destruct (RoundTrip_envelope envelope H) as (a & m & Ea & Em & [E _] & L).
  exists a, m. split; [exact Ea|]. split; [exact Em|].
  unfold encodePermitEnvelope. rewrite E.
  replace (List.length (envelopeBytes envelope a m) <=? 512)%nat with true
    by (symmetry; apply Nat.leb_le; lia).
  unfold envelopeBytes, domainBytes. now rewrite <- ?app_assoc.
Qed.

(** C2 (witness): the Noop envelope of the sample domain. *)
Lemma encode_field_order_witness :
  exists actionBytes modeBytes,
    encodePermitEnvelope (sampleEnvelope Noop (HlWindow 128) None) =
      Ok (sampleKey 7 ++ [0] ++ [1] ++ sampleKey 9 ++ [0] ++ actionBytes ++ modeBytes
          ++ Borsh.toLE 8 1700000060 ++ Borsh.toLE 8 1000000 ++ [0]
          ++ Borsh.toLE 8 1700000000123).
Proof.
  destruct (encode_field_order (sampleEnvelope Noop (HlWindow 128) None) eq_refl)
    as (a & m & _ & _ & E).
  exists a, m. exact E.
Defined.

(** ** Signer *)

Lemma Buffer_set_app pre mid post src offset :
  List.length pre = offset -> List.length mid = List.length src ->
  Buffer.set (pre ++ mid ++ post) src offset = Ok (pre ++ src ++ post).
Proof.
  intros Hp Hm. unfold Buffer.set.
  replace (offset + List.length src <=? List.length (pre ++ mid ++ post))%nat with true
    by (symmetry; apply Nat.leb_le; rewrite !length_app; lia).
  rewrite firstn_exact by assumption.
  rewrite skipn_app, Hp.
  replace (offset + List.length src - offset)%nat with (List.length mid) by lia.
  rewrite (skipn_all2 pre) by lia. rewrite skipn_exact by reflexivity. reflexivity.
Qed.

Lemma writeUInt16LE_ok buf value offset :
  0 <= value <= 65535 -> (offset + 2 <= List.length buf)%nat ->
  Buffer.writeUInt16LE buf value offset =
    Ok (firstn offset buf ++ [value mod 256; value / 256] ++ skipn (offset + 2) buf).
Proof.
  intros Hv Ho. unfold Buffer.writeUInt16LE.
  replace (0 <=? value) with true by (symmetry; apply Z.leb_le; lia).
  replace (value <=? 65535) with true by (symmetry; apply Z.leb_le; lia).
  replace (offset + 2 <=? List.length buf)%nat with true
    by (symmetry; apply Nat.leb_le; lia).
  reflexivity.
Qed.

(** The instruction data is the header, the signature, the public key and
    the message, one after the other. *)
Lemma createEd25519Instruction_data pid signature key message :
  List.length signature = 64%nat -> List.length key = 32%nat ->
  Z.of_nat (List.length message) <= 65535 ->
  createEd25519Instruction pid signature key message =
    Ok {| ix_keys := []; ix_programId := pid;
          ix_data := ed25519Header (Z.of_nat (List.length message))
                     ++ signature ++ key ++ message |}.
Proof.
  intros Hs Hk Hm. unfold createEd25519Instruction, Buffer.alloc.
  replace (16 + 64 + 32 + List.length message)%nat
    with (16 + (64 + (32 + List.length message)))%nat by lia.
  rewrite !repeat_app.
  set (sigZeros := List.repeat 0 64). set (keyZeros := List.repeat 0 32).
  set (msgZeros := List.repeat 0 (List.length message)).
  assert (Ls : List.length sigZeros = List.length signature)
    by (subst sigZeros; now rewrite repeat_length).
  assert (Lk : List.length keyZeros = List.length key)
    by (subst keyZeros; now rewrite repeat_length).
  assert (Lm : List.length msgZeros = List.length message)
    by (subst msgZeros; now rewrite repeat_length).
  clearbody sigZeros keyZeros msgZeros.
  set (n := Z.of_nat (List.length message)).
  assert (Hn : 0 <= n <= 65535) by lia. clearbody n.
  cbv zeta. unfold Buffer.setIndex.
  cbn [List.repeat app List.length firstn skipn Nat.ltb Nat.leb Nat.add].
  repeat (rewrite writeUInt16LE_ok by (cbn [List.length Z.of_nat]; lia);
          cbn [bind firstn skipn app Nat.add]).
  change (1 mod 256) with 1.
  change (Z.of_nat 16 mod 256) with 16. change (Z.of_nat 16 / 256) with 0.
  change (0 mod 256) with 0. change (0 / 256) with 0.
  change (Z.of_nat (16 + 64) mod 256) with 80. change (Z.of_nat (16 + 64) / 256) with 0.
  change (Z.of_nat (16 + 64 + 32) mod 256) with 112.
  change (Z.of_nat (16 + 64 + 32) / 256) with 0.
  match goal with
  | |- context [Buffer.set ?buf signature 16] =>
      change buf with (ed25519Header n ++ sigZeros ++ keyZeros ++ msgZeros)
  end.
  rewrite Buffer_set_app by (reflexivity || assumption). cbn [bind].
  replace (ed25519Header n ++ signature ++ keyZeros ++ msgZeros)
    with ((ed25519Header n ++ signature) ++ keyZeros ++ msgZeros)
    by (now rewrite <- app_assoc).
  rewrite Buffer_set_app
    by (assumption || (rewrite length_app, Hs; reflexivity)). cbn [bind].
  replace ((ed25519Header n ++ signature) ++ key ++ msgZeros)
    with (((ed25519Header n ++ signature) ++ key) ++ msgZeros ++ [])
    by (now rewrite app_nil_r, <- app_assoc).
  rewrite Buffer_set_app
    by (assumption || (rewrite !length_app, Hs, Hk; reflexivity)). cbn [bind].
  now rewrite app_nil_r, <- !app_assoc.
Qed.

Lemma slice_middle (pre mid post : Bytes) offset len :
  List.length pre = offset -> List.length mid = len ->
  Buffer.slice (pre ++ mid ++ post) offset len = mid.
Proof.
  intros Hp Hm. unfold Buffer.slice.
  now rewrite skipn_exact, firstn_exact.
Qed.

Lemma slice_end (pre mid : Bytes) offset :
  List.length pre = offset -> Buffer.slice (pre ++ mid) offset (List.length mid) = mid.
Proof.
  intros Hp. rewrite <- (app_nil_r mid) at 1. now apply slice_middle.
Qed.

(** C3: for a 64-byte signature S, a 32-byte public key P and a message M of
    n bytes (n within 16 bits, as the messages of [sign] are), the
    verification instruction has data of length 112 + n, with byte 0 equal
    to 1, S at offset 16, P at offset 80 and M at offset 112, the header
    fields signatureOffset = 16, pubkeyOffset = 80, messageOffset = 112 and
    messageLength = n, and the three instruction-index fields 0. *)
Theorem verification_instruction_layout pid S P M :
  List.length S = 64%nat -> List.length P = 32%nat ->
  Z.of_nat (List.length M) <= 65535 ->
  exists instruction,
    createEd25519Instruction pid S P M = Ok instruction /\
    let data := ix_data instruction in
    List.length data = (112 + List.length M)%nat /\
    nth 0 data 0 = 1 /\
    Buffer.slice data 16 64 = S /\
    Buffer.slice data 80 32 = P /\
    Buffer.slice data 112 (List.length M) = M /\
    Buffer.readUInt16LE data 1 = 16 /\
    Buffer.readUInt16LE data 3 = 0 /\
    Buffer.readUInt16LE data 5 = 80 /\
    Buffer.readUInt16LE data 7 = 0 /\
    Buffer.readUInt16LE data 9 = 112 /\
    Buffer.readUInt16LE data 11 = Z.of_nat (List.length M) /\
    Buffer.readUInt16LE data 13 = 0 /\
    nth 15 data 0 = 0.
Proof.
  intros Hs Hp Hm. eexists. split; [now apply createEd25519Instruction_data|].
  cbn [ix_data]. cbv zeta.
  set (n := Z.of_nat (List.length M)).
  repeat split; try reflexivity.
  - rewrite !length_app, Hs, Hp. reflexivity.
  - now apply slice_middle.
  - rewrite app_assoc. apply slice_middle; [rewrite length_app, Hs; reflexivity|assumption].
  - rewrite (app_assoc (ed25519Header n)), (app_assoc (ed25519Header n ++ S)).
    apply slice_end. rewrite !length_app, Hs, Hp. reflexivity.
  - unfold Buffer.readUInt16LE, ed25519Header. cbn [nth app].
    pose proof (Z.div_mod n 256 ltac:(lia)). lia.
Qed.

(** C3 (witness): a signature of 5s, a key of 8s and a three-byte message. *)
Lemma verification_instruction_layout_witness :
  exists instruction,
    createEd25519Instruction (sampleKey 0) (List.repeat 5 64) (sampleKey 8) [10; 20; 30]
      = Ok instruction /\
    List.length (ix_data instruction) = 115%nat /\
    Buffer.slice (ix_data instruction) 112 3 = [10; 20; 30].
Proof.
  destruct (verification_instruction_layout (sampleKey 0) (List.repeat 5 64) (sampleKey 8)
              [10; 20; 30] eq_refl eq_refl ltac:(vm_compute; discriminate))
    as (instruction & E & L & _ & _ & _ & M & _).
  exists instruction. split; [exact E|]. split; [exact L | exact M].
Defined.

Lemma encodePermitEnvelope_length envelope message :
  encodePermitEnvelope envelope = Ok message -> (List.length message <= 512)%nat.
Proof.
  unfold encodePermitEnvelope.
  destruct (Borsh.encode permitEnvelopeSchema (serializable envelope)) as [bytes|];
    [|discriminate].
  destruct (Nat.leb_spec (List.length bytes) 512); [|discriminate].
  now intros [= <-].
Qed.

(** [sign] on an envelope that encodes. *)
Lemma sign_encodable nacl pid envelope keypair message :
  (forall m k, List.length (nacl m k) = 64%nat) ->
  List.length (publicKey keypair) = 32%nat ->
  encodePermitEnvelope envelope = Ok message ->
  sign nacl pid envelope keypair =
    Ok {| sp_envelope := envelope;
          sp_signature := nacl message (secretKey keypair);
          sp_publicKey := publicKey keypair;
          sp_verifyInstruction :=
            {| ix_keys := []; ix_programId := pid;
               ix_data := ed25519Header (Z.of_nat (List.length message))
                          ++ nacl message (secretKey keypair)
                          ++ publicKey keypair ++ message |} |}.
Proof.
  intros Hn Hk E. unfold sign, generatePermitSignature. rewrite E.
  cbn [bind ps_signature ps_message ps_publicKey].
  pose proof (encodePermitEnvelope_length _ _ E).
  rewrite createEd25519Instruction_data by (auto; lia). reflexivity.
Qed.

(** C9: [signWithSession] on an envelope whose session form encodes, with a
    keypair of a 32-byte public key and a signing function of 64-byte
    signatures, returns a signed permit whose envelope is the given one with
    the authorizer replaced by the session public key and every other field
    unchanged, and whose signature is the detached signature, under the
    session key, of the canonical encoding of that envelope. *)
Theorem signWithSession_replaces_authorizer nacl pid envelope sessionKeypair :
  (forall m k, List.length (nacl m k) = 64%nat) ->
  List.length (publicKey sessionKeypair) = 32%nat ->
  isOk (encodePermitEnvelope
          {| domain := domain envelope; authorizer := publicKey sessionKeypair;
             keyType := keyType envelope; action := action envelope;
             mode := mode envelope; expiresUnix := expiresUnix envelope;
             maxFeeQuote := maxFeeQuote envelope; relayer := relayer envelope;
             nonce := nonce envelope |}) = true ->
  exists signed message,
    signWithSession nacl pid envelope sessionKeypair = Ok signed /\
    authorizer (sp_envelope signed) = publicKey sessionKeypair /\
    domain (sp_envelope signed) = domain envelope /\
    keyType (sp_envelope signed) = keyType envelope /\
    action (sp_envelope signed) = action envelope /\
    mode (sp_envelope signed) = mode envelope /\
    expiresUnix (sp_envelope signed) = expiresUnix envelope /\
    maxFeeQuote (sp_envelope signed) = maxFeeQuote envelope /\
    relayer (sp_envelope signed) = relayer envelope /\
    nonce (sp_envelope signed) = nonce envelope /\
    encodePermitEnvelope (sp_envelope signed) = Ok message /\
    sp_signature signed = nacl message (secretKey sessionKeypair) /\
    sp_publicKey signed = publicKey sessionKeypair.
Proof.
  intros Hn Hk He. unfold signWithSession.
  match type of He with isOk ?r = true => destruct r as [message|] eqn:E end;
    [|discriminate].
  rewrite (sign_encodable nacl pid _ sessionKeypair message Hn Hk E).
  eexists. exists message. split; [reflexivity|].
  cbn [sp_envelope sp_signature sp_publicKey authorizer domain keyType action mode
       expiresUnix maxFeeQuote relayer nonce].
  repeat split. exact E.
Qed.

(** C9 (witness): the Noop envelope signed by a session key of 8s, with a
    signing function that returns 64 zero bytes. *)
Lemma signWithSession_replaces_authorizer_witness :
  exists signed,
    signWithSession (fun _ _ => List.repeat 0 64) (sampleKey 0)
      (sampleEnvelope Noop (HlWindow 128) None)
      {| publicKey := sampleKey 8; secretKey := List.repeat 1 64 |} = Ok signed /\
    authorizer (sp_envelope signed) = sampleKey 8 /\
    nonce (sp_envelope signed) = 1700000000123.
Proof.
  destruct (signWithSession_replaces_authorizer (fun _ _ => List.repeat 0 64) (sampleKey 0)
              (sampleEnvelope Noop (HlWindow 128) None)
              {| publicKey := sampleKey 8; secretKey := List.repeat 1 64 |}
              (fun _ _ => eq_refl) eq_refl eq_refl)
    as (signed & message & E & A & _ & _ & _ & _ & _ & _ & _ & N & _).
  exists signed. split; [exact E|]. split; [exact A | exact N].
Defined.

(** ** Further properties *)

(** X1: [sign] on an envelope that encodes returns the envelope as given,
    the detached signature of its canonical bytes and the signer's public
    key, and a verification instruction whose data is the 16-byte header,
    the signature, the public key and the canonical bytes, so that the
    message read back at offset 112 is the envelope's encoding. *)
Theorem sign_builds_verification_instruction nacl pid envelope keypair message :
  (forall m k, List.length (nacl m k) = 64%nat) ->
  List.length (publicKey keypair) = 32%nat ->
  encodePermitEnvelope envelope = Ok message ->
  exists signed,
    sign nacl pid envelope keypair = Ok signed /\
    sp_envelope signed = envelope /\
    sp_signature signed = nacl message (secretKey keypair) /\
    sp_publicKey signed = publicKey keypair /\
    ix_data (sp_verifyInstruction signed) =
      ed25519Header (Z.of_nat (List.length message))
      ++ sp_signature signed ++ sp_publicKey signed ++ message /\
    Buffer.slice (ix_data (sp_verifyInstruction signed)) 112 (List.length message)
      = message.
Proof.
  intros Hn Hk E. rewrite (sign_encodable nacl pid envelope keypair message Hn Hk E).
  eexists. split; [reflexivity|].
  cbn [sp_envelope sp_signature sp_publicKey sp_verifyInstruction ix_data].
  repeat split.
  rewrite (app_assoc (ed25519Header _)), (app_assoc (ed25519Header _ ++ _)).
  apply slice_end. rewrite !length_app, Hn, Hk. reflexivity.
Qed.

(** X1 (witness): the Noop envelope signed with a key of 8s. *)
Lemma sign_builds_verification_instruction_witness :
  exists signed message,
    sign (fun _ _ => List.repeat 0 64) (sampleKey 0)
         (sampleEnvelope Noop (HlWindow 128) None)
         {| publicKey := sampleKey 8; secretKey := List.repeat 1 64 |} = Ok signed /\
    encodePermitEnvelope (sampleEnvelope Noop (HlWindow 128) None) = Ok message /\
    Buffer.slice (ix_data (sp_verifyInstruction signed)) 112 (List.length message)
      = message.
Proof.
  destruct (encodePermitEnvelope (sampleEnvelope Noop (HlWindow 128) None))
    as [message|e] eqn:E; [|vm_compute in E; discriminate E].
  destruct (sign_builds_verification_instruction (fun _ _ => List.repeat 0 64)
              (sampleKey 0) (sampleEnvelope Noop (HlWindow 128) None)
              {| publicKey := sampleKey 8; secretKey := List.repeat 1 64 |} message
              (fun _ _ => eq_refl) eq_refl E)
    as (signed & S & _ & _ & _ & _ & M).
  exists signed, message. split; [exact S|]. split; [reflexivity | exact M].
Defined.

(** X2: a valid envelope encodes to at most 238 bytes, so the 512-byte
    buffer of [encodePermitEnvelope] is never too small. *)
Theorem encodePermitEnvelope_fits_buffer envelope :
  validEnvelope envelope = true ->
  exists bytes,
    encodePermitEnvelope envelope = Ok bytes /\ (List.length bytes <= 238)%nat.
Proof.
  intros H. destruct (RoundTrip_envelope envelope H) as (a & m & _ & _ & [E _] & L).
  exists (envelopeBytes envelope a m). split; [|exact L].
  unfold encodePermitEnvelope. rewrite E.
  replace (List.length (envelopeBytes envelope a m) <=? 512)%nat with true;
    [reflexivity|]. symmetry. apply Nat.leb_le. lia.
Qed.

(** X2 (witness): the largest action, Modify with every option present. *)
Lemma encodePermitEnvelope_fits_buffer_witness :
  exists bytes,
    encodePermitEnvelope
      (sampleEnvelope
         (Modify 64 5 (2 ^ 100) 1 21000 (Some 131425000000) (GTT 99) true (Some 7) 0
                 (Some {| metric := RatioBps; min := -7 |}))
         (Nonce (sampleKey 255)) (Some (sampleKey 3))) = Ok bytes /\
    (List.length bytes <= 238)%nat.
Proof.
  apply (encodePermitEnvelope_fits_buffer
           (sampleEnvelope
              (Modify 64 5 (2 ^ 100) 1 21000 (Some 131425000000) (GTT 99) true (Some 7) 0
                      (Some {| metric := RatioBps; min := -7 |}))
              (Nonce (sampleKey 255)) (Some (sampleKey 3)))).
  vm_compute. reflexivity.
Defined.

(** ** Markets of a context *)

Section MapLookup.

Context {K V : Type} (eqb : K -> K -> bool) (key : V -> K).
Hypothesis eqb_eq : forall a b, eqb a b = true <-> a = b.

Lemma JsMap_get_set (m : list (K * V)) k v k' :
  JsMap.get eqb (JsMap.set eqb m k v) k' =
    if eqb k k' then Some v else JsMap.get eqb m k'.
Proof.
  induction m as [|[k0 v0] m IH]; cbn [JsMap.set JsMap.get].
  - reflexivity.
  - destruct (eqb k0 k) eqn:E0; cbn [JsMap.get].
    + apply eqb_eq in E0. subst k0. now destruct (eqb k k').
    + rewrite IH. destruct (eqb k0 k') eqn:E1; [|reflexivity].
      apply eqb_eq in E1. subst k0.
      destruct (eqb k k') eqn:E2; [|reflexivity].
      apply eqb_eq in E2. subst k'.
      assert (T : eqb k k = true) by now apply eqb_eq.
      congruence.
Qed.

Lemma find_snoc (p : V -> bool) l x :
  find p (l ++ [x]) =
    match find p l with
    | Some y => Some y
    | None => if p x then Some x else None
    end.
Proof.
  induction l as [|y l IH]; cbn [app find]; [reflexivity|].
  now destruct (p y).
Qed.

(** After the registrations, a key yields the value registered last under
    it. *)
Lemma JsMap_get_registered values : forall (m : list (K * V)) k,
  JsMap.get eqb (fold_left (fun m v => JsMap.set eqb m (key v) v) values m) k =
    match find (fun v => eqb (key v) k) (rev values) with
    | Some v => Some v
    | None => JsMap.get eqb m k
    end.
Proof.
  induction values as [|v values IH]; intros m k; cbn [fold_left rev find].
  - reflexivity.
  - rewrite IH, find_snoc, JsMap_get_set.
    destruct (find (fun v0 => eqb (key v0) k) (rev values)); [reflexivity|].
    now destruct (eqb (key v) k).
Qed.

End MapLookup.

(** X3: in a context made by [createHyperliquidContext], a number resolves
    to the market registered last under that index and a string to the
    market registered last under that symbol; an index or symbol that no
    market carries, and an undefined identifier, throw the unknown-market
    error.  A string of digits is looked up as a symbol, never as an
    index. *)
Theorem resolveMarket_registered markets programId authorizer clusterType relayer
    expirySeconds hlWindowK maxFeeQuote :
  let context :=
    createHyperliquidContext markets programId authorizer clusterType relayer
                             expirySeconds hlWindowK maxFeeQuote in
  (forall n,
     resolveMarket (Some (Num n)) context =
       match find (fun m => index m =? n) (rev markets) with
       | Some market => Ok market
       | None => Throw (UnknownMarketIndex n)
       end) /\
  (forall s,
     resolveMarket (Some (Str s)) context =
       match find (fun m => String.eqb (symbol m) s) (rev markets) with
       | Some market => Ok market
       | None => Throw (UnknownMarketSymbol (Some s))
       end) /\
  resolveMarket None context = Throw (UnknownMarketSymbol None).
Proof.
  cbv zeta. unfold resolveMarket, createHyperliquidContext.
  cbn [ctx_markets byIndex bySymbol].
  split; [|split; [|reflexivity]].
  - intros n. rewrite (JsMap_get_registered Z.eqb index Z.eqb_eq).
    now destruct (find (fun m => index m =? n) (rev markets)).
  - intros s. rewrite (JsMap_get_registered String.eqb symbol String.eqb_eq).
    now destruct (find (fun m => String.eqb (symbol m) s) (rev markets)).
Qed.

(** ** The client id of an order *)

(** X4: [ensureClientId] never throws.  It returns an id n and leaves on the
    order a non-empty client id that [BigInt] reads as n, so the id sent to
    the exchange is the id of the permit; every later call, at any time,
    returns the same n and changes nothing. *)
Theorem ensureClientId_returns_written_id now order :
  exists n c,
    fst (ensureClientId now order) = Ok n /\
    order_c (snd (ensureClientId now order)) = Some c /\
    c <> EmptyString /\
    Js.BigInt c = Ok n /\
    forall later,
      ensureClientId later (snd (ensureClientId now order)) =
        (Ok n, snd (ensureClientId now order)).
Proof.
  destruct (ensureClientId_returns_id now order) as (n & c & Returned & Written).
  exists n, c. split; [exact Returned | exact Written].
Qed.

(** ** A failing sub-item *)

(** The loop stops at the first item whose callback throws: the items before
    it are as their callbacks left them, the failing item as its callback
    left it, and the items after it untouched. *)
Lemma forEachAdd_first_failure {A : Type} (f : A -> Result PermitAction * A)
    baseNonce pre bad post e bad' : forall idx,
  forallb (fun item => isOk (fst (f item))) pre = true ->
  f bad = (Throw e, bad') ->
  forEachAdd f baseNonce (pre ++ bad :: post) idx =
    (Throw e, map (fun item => snd (f item)) pre ++ bad' :: post).
Proof.
  induction pre as [|item pre IH]; intros idx Hpre Hbad.
  - cbn [app forEachAdd map]. now rewrite Hbad.
  - cbn [forallb] in Hpre. apply andb_true_iff in Hpre as [Hi Hpre].
    cbn [app forEachAdd map]. rewrite (IH (idx + 1) Hpre Hbad).
    destruct (f item) as [[permit|e'] item']; [reflexivity | discriminate].
Qed.

Lemma envelopesOfRead_first_failure pk now request context pre bad post e bad' :
  action_type (read_action request) = "batchOrder" ->
  action_orders (read_action request) = Some (pre ++ bad :: post) ->
  forallb (fun order => isOk (fst (batchOrderItem now context order))) pre = true ->
  batchOrderItem now context bad = (Throw e, bad') ->
  envelopesOfRead pk now request context =
    (Throw e,
     {| read_action :=
          set_action_orders (read_action request)
            (Some (map (fun order => snd (batchOrderItem now context order)) pre
                   ++ bad' :: post));
        read_nonce := read_nonce request |}).
Proof.
  intros Et Eo Hpre Hbad. unfold envelopesOfRead.
  rewrite (buildPermitActions_batchOrder pk now request context Et), Eo.
  cbn [orEmpty writeBack].
  now rewrite (forEachAdd_first_failure _ _ pre bad post e bad' 0 Hpre Hbad).
Qed.

(** X5: a batchOrder request with an integer nonce throws the error of its
    first order that does not convert.  The orders before it have received
    their client ids, and the orders after it are left as they were.  With a
    nonce that is no integer the request throws before any order is read. *)
Theorem batchOrder_stops_at_first_failure pk now request context pre bad post e bad' :
  action_type (req_action request) = "batchOrder" ->
  action_orders (req_action request) = Some (pre ++ bad :: post) ->
  forallb (fun order => isOk (fst (batchOrderItem now context order))) pre = true ->
  batchOrderItem now context bad = (Throw e, bad') ->
  buildPermitEnvelopesFromExchangeRequest pk now request context =
    match Js.BigIntOfNumeric (req_nonce request) with
    | Ok _ =>
        (Throw e,
         {| req_action :=
              set_action_orders (req_action request)
                (Some (map (fun order => snd (batchOrderItem now context order)) pre
                       ++ bad' :: post));
            req_nonce := req_nonce request |})
    | Throw err => (Throw err, request)
    end.
Proof.
  intros Et Eo Hpre Hbad.
  destruct (Js.BigIntOfNumeric (req_nonce request)) as [base|err] eqn:Hn.
  - rewrite (buildPermitEnvelopes_of_read _ _ _ _ _ Hn).
    now rewrite (envelopesOfRead_first_failure pk now
                   {| read_action := req_action request; read_nonce := base |}
                   context pre bad post e bad' Et Eo Hpre Hbad).
  - apply (buildPermitEnvelopes_unread _ _ _ _ _ Hn).
Qed.

(** X5 (witness): the second of three orders names an unknown market. *)
Lemma batchOrder_stops_at_first_failure_witness :
  buildPermitEnvelopesFromExchangeRequest noPublicKey 1700000000123
    {| req_action :=
         set_action_orders (bareAction "batchOrder")
           (Some [sampleOrder None "Ioc";
                  {| order_a := Some (Num 9); order_b := true; order_p := "1";
                     order_s := "1"; order_r := false; order_t := None;
                     order_c := None |};
                  sampleOrder None "Gtc"]);
       req_nonce := ABigInt 5 |} sampleContext =
    (Throw (UnknownMarketIndex 9),
     {| req_action :=
          set_action_orders (bareAction "batchOrder")
            (Some [sampleOrder (Some "1700000000123") "Ioc";
                   {| order_a := Some (Num 9); order_b := true; order_p := "1";
                      order_s := "1"; order_r := false; order_t := None;
                      order_c := None |};
                   sampleOrder None "Gtc"]);
        req_nonce := ABigInt 5 |}).
Proof.
  exact (batchOrder_stops_at_first_failure noPublicKey 1700000000123
           {| req_action :=
                set_action_orders (bareAction "batchOrder")
                  (Some [sampleOrder None "Ioc";
                         {| order_a := Some (Num 9); order_b := true; order_p := "1";
                            order_s := "1"; order_r := false; order_t := None;
                            order_c := None |};
                         sampleOrder None "Gtc"]);
              req_nonce := ABigInt 5 |} sampleContext
           [sampleOrder None "Ioc"]
           {| order_a := Some (Num 9); order_b := true; order_p := "1";
              order_s := "1"; order_r := false; order_t := None; order_c := None |}
           [sampleOrder None "Gtc"] (UnknownMarketIndex 9)
           {| order_a := Some (Num 9); order_b := true; order_p := "1";
              order_s := "1"; order_r := false; order_t := None; order_c := None |}
           eq_refl eq_refl eq_refl eq_refl).
Defined.

(** ** Nonces of every request *)

Lemma sequentialFrom_nil base : sequentialFrom base (Ok []).
Proof. reflexivity. Qed.

Lemma sequentialFrom_one base (r : Result PermitAction) :
  sequentialFrom base
    (do permit <- r; Ok [{| permitAction := permit; info_nonce := base + 0 |}]).
Proof. destruct r; cbn; [|exact I]. unfold nonceRange. cbn. reflexivity. Qed.

Lemma sequentialFrom_forEachAdd {A : Type} (f : A -> Result PermitAction * A) base items :
  sequentialFrom base (fst (forEachAdd f base items 0)).
Proof.
  pose proof (forEachAdd_nonces f base items 0) as F. unfold sequentialFrom.
  destruct (fst (forEachAdd f base items 0)) as [added|e]; [|exact I].
  destruct F as [F _]. unfold nonceRange.
  assert (L : List.length added = List.length items)
    by (now rewrite <- (length_map info_nonce), F, length_map, length_seq).
  rewrite L, F. apply map_ext. intros i. lia.
Qed.

(** The permit actions of a request, of whatever type, carry the nonces that
    count up from the request's nonce. *)
Lemma buildPermitActions_sequential pk now request context :
  sequentialFrom (read_nonce request) (fst (switchOnType pk now request context)).
Proof.
  unfold switchOnType.
  set (base := read_nonce request). set (a := read_action request).
  repeat match goal with
         | |- context [String.eqb (action_type a) ?s] =>
             destruct (String.eqb (action_type a) s); cbv iota
         end.
  - unfold orderCase. destruct (action_order a) as [order|].
    + destruct (order_a order); [|apply sequentialFrom_nil].
      destruct (resolveMarket _ context); [|exact I].
      destruct (buildPlaceAction now order a0) as [r o']. apply sequentialFrom_one.
    + destruct (order_a (action_self a)); [|apply sequentialFrom_nil].
      destruct (resolveMarket _ context); [|exact I].
      destruct (buildPlaceAction now (action_self a) a0) as [r o'].
      apply sequentialFrom_one.
  - pose proof (sequentialFrom_forEachAdd (cancelItem context) base
                  (orEmpty (action_cancels a))) as F.
    now destruct (forEachAdd (cancelItem context) base (orEmpty (action_cancels a)) 0).
  - pose proof (sequentialFrom_forEachAdd (cancelByCloidItem context) base
                  (orEmpty (action_cancels a))) as F.
    now destruct (forEachAdd (cancelByCloidItem context) base
                    (orEmpty (action_cancels a)) 0).
  - pose proof (sequentialFrom_forEachAdd (batchOrderItem now context) base
                  (orEmpty (action_orders a))) as F.
    now destruct (forEachAdd (batchOrderItem now context) base
                    (orEmpty (action_orders a)) 0).
  - destruct (action_asset a); [|apply sequentialFrom_nil].
    cbn [fst]. destruct (resolveMarket _ context); [|exact I].
    cbn [bind]. unfold sequentialFrom, nonceRange. reflexivity.
  - cbn [fst].
    match goal with |- sequentialFrom _ (bind ?m _) => destruct m; [|exact I] end.
    cbn [bind].
    match goal with |- sequentialFrom _ (match ?m with _ => _ end) =>
      destruct m eqn:E; [|exact I] end.
    revert E.
    match goal with |- bind ?m _ = _ -> _ => destruct m; [|discriminate] end.
    cbn [bind].
    match goal with |- bind ?m _ = _ -> _ => destruct m; [|discriminate] end.
    cbn [bind]. intros [= <-]. unfold sequentialFrom, nonceRange. reflexivity.
  - destruct (action_amount a); [|apply sequentialFrom_nil].
    cbn [fst]. destruct (decimalToFixed _ 6); [|exact I].
    cbn [bind]. unfold sequentialFrom, nonceRange. reflexivity.
  - unfold sequentialFrom, nonceRange. reflexivity.
  - destruct (action_order a) as [order|]; [|apply sequentialFrom_nil].
    destruct (resolveMarket _ context); [|exact I].
    match goal with |- context [buildModifyAction now ?m ?k] =>
      destruct (buildModifyAction now m k) as [r m'] end.
    apply sequentialFrom_one.
  - pose proof (sequentialFrom_forEachAdd (modifyBatchItem now context) base
                  (orEmpty (action_modifies a))) as F.
    now destruct (forEachAdd (modifyBatchItem now context) base
                    (orEmpty (action_modifies a)) 0).
  - apply sequentialFrom_nil.
Qed.

(** The first envelope of a request carries the request's own nonce. *)
Lemma envelopesOfRead_first_nonce pk now request context first rest :
  fst (envelopesOfRead pk now request context) = Ok (first :: rest) ->
  nonce first = read_nonce request.
Proof.
  pose proof (buildPermitEnvelopes_nonces pk now request context) as N.
  pose proof (buildPermitActions_sequential pk now request context) as Q.
  intros E. rewrite E in N.
  destruct (fst (switchOnType pk now request context)) as [infos|e];
    [|contradiction].
  destruct N as [N _]. unfold sequentialFrom in Q. rewrite <- N in Q.
  rewrite <- (length_map info_nonce), <- N in Q. cbn [map List.length] in Q.
  unfold nonceRange in Q. cbn [seq map] in Q. injection Q as Q _. lia.
Qed.

(** The envelopes of a call that returns carry the nonces that count up
    from the request's nonce. *)
Lemma buildPermitEnvelopes_nonceRange pk now request context envelopes :
  fst (buildPermitEnvelopesFromExchangeRequest pk now request context) = Ok envelopes ->
  exists base,
    Js.BigIntOfNumeric (req_nonce request) = Ok base /\
    map nonce envelopes = nonceRange base (List.length envelopes).
Proof.
  intros E. destruct (buildPermitEnvelopes_returns _ _ _ _ _ E) as (base & Hb & E').
  exists base. split; [exact Hb|].
  set (read := {| read_action := req_action request; read_nonce := base |}) in *.
  pose proof (buildPermitEnvelopes_nonces pk now read context) as N.
  pose proof (buildPermitActions_sequential pk now read context) as Q.
  rewrite E' in N.
  destruct (fst (switchOnType pk now read context)) as [infos|e]; [|contradiction].
  destruct N as [N _]. unfold sequentialFrom in Q. cbn [read read_nonce] in Q.
  rewrite N, Q. f_equal. now rewrite <- (length_map nonce), N, length_map.
Qed.

(** X6: the legacy [buildPermitAction] returns [null] exactly when the
    request yields no envelope, and otherwise the action of the first
    envelope with the request's own nonce, as a bigint; the further envelopes
    of a batch are dropped.  It throws what the envelope builder throws and
    leaves the request as the envelope builder leaves it. *)
Theorem buildPermitAction_first_or_null pk now payload context :
  snd (buildPermitAction pk now payload context) =
    snd (buildPermitEnvelopesFromExchangeRequest pk now payload context) /\
  match fst (buildPermitEnvelopesFromExchangeRequest pk now payload context) with
  | Ok [] => fst (buildPermitAction pk now payload context) = Ok None
  | Ok (first :: _) =>
      fst (buildPermitAction pk now payload context) =
        Ok (Some {| permitAction := action first; info_nonce := nonce first |}) /\
      Js.BigIntOfNumeric (req_nonce payload) = Ok (nonce first)
  | Throw e => fst (buildPermitAction pk now payload context) = Throw e
  end.
Proof.
  unfold buildPermitAction.
  assert (N : forall first rest,
            fst (buildPermitEnvelopesFromExchangeRequest pk now payload context) =
              Ok (first :: rest) ->
            Js.BigIntOfNumeric (req_nonce payload) = Ok (nonce first)).
  { intros first rest.
    destruct (Js.BigIntOfNumeric (req_nonce payload)) as [base|e] eqn:Hn.
    - rewrite (buildPermitEnvelopes_of_read _ _ _ _ _ Hn). cbn [fst]. intros E.
      now rewrite (envelopesOfRead_first_nonce _ _ _ _ _ _ E).
    - now rewrite (buildPermitEnvelopes_unread _ _ _ _ _ Hn). }
  destruct (buildPermitEnvelopesFromExchangeRequest pk now payload context)
    as [[envelopes|e] payload']; cbn [fst snd bind] in *;
    (split; [reflexivity|]); [|reflexivity].
  destruct envelopes as [|first rest]; [reflexivity|].
  split; [reflexivity | now apply (N first rest)].
Qed.

(** ** What the adapter never emits *)

Lemma toTimeInForceValue_plain tif value :
  toTimeInForceValue tif = Ok value ->
  match value with GTC | IOC | ALO => true | _ => false end = true.
Proof.
  unfold toTimeInForceValue.
  repeat match goal with
         | |- context [if ?b then _ else _] => destruct b
         end; intros [= <-] || discriminate; reflexivity.
Qed.

Lemma buildPlaceAction_plain now order market permit :
  fst (buildPlaceAction now order market) = Ok permit -> adapterAction permit = true.
Proof.
  unfold buildPlaceAction.
  destruct (ensureClientId now order) as [[clientId|e] order']; cbn [fst bind];
    [|discriminate].
  destruct (decimalToFixed (order_p order') _); cbn [bind]; [|discriminate].
  destruct (decimalToFixed (order_s order') _); cbn [bind]; [|discriminate].
  destruct (toTimeInForceValue (orderTif order')) as [tif|e] eqn:T; cbn [bind];
    [|discriminate].
  intros [= <-]. cbn [adapterAction]. rewrite (toTimeInForceValue_plain _ _ T).
  now destruct (order_b order').
Qed.

Lemma buildModifyAction_plain now modify market permit :
  fst (buildModifyAction now modify market) = Ok permit -> adapterAction permit = true.
Proof.
  unfold buildModifyAction.
  destruct (ensureClientId now (modify_order modify)) as [[clientId|e] order'];
    cbn [fst bind]; [|discriminate].
  destruct (decimalToFixed (order_p order') _); cbn [bind]; [|discriminate].
  destruct (decimalToFixed (order_s order') _); cbn [bind]; [|discriminate].
  destruct (toTimeInForceValue (orderTif order')) as [tif|e] eqn:T; cbn [bind];
    [|discriminate].
  destruct (Js.BigIntOf (modify_oid modify)); cbn [bind]; [|discriminate].
  intros [= <-]. cbn [adapterAction]. rewrite (toTimeInForceValue_plain _ _ T).
  now destruct (order_b order').
Qed.

Lemma forEachAdd_Forall {A : Type} (f : A -> Result PermitAction * A)
    (P : PermitAction -> Prop) baseNonce items :
  (forall item permit, fst (f item) = Ok permit -> P permit) ->
  forall idx added,
    fst (forEachAdd f baseNonce items idx) = Ok added ->
    Forall (fun info => P (permitAction info)) added.
Proof.
  intros Hf. induction items as [|item rest IH]; intros idx added; cbn [forEachAdd].
  - intros [= <-]. constructor.
  - pose proof (Hf item) as Hi.
    destruct (f item) as [[permit|e] item']; cbn [fst] in *; [|discriminate].
    specialize (IH (idx + 1)).
    destruct (forEachAdd f baseNonce rest (idx + 1)) as [[added'|e] rest'];
      cbn [fst bind] in *; [|discriminate].
    intros [= <-]. constructor; [now apply Hi | now apply IH].
Qed.

Lemma Forall_one (P : PermitAction -> Prop) (r : Result PermitAction) n added :
  (forall permit, r = Ok permit -> P permit) ->
  (do permit <- r; Ok [{| permitAction := permit; info_nonce := n |}]) = Ok added ->
  Forall (fun info => P (permitAction info)) added.
Proof.
  intros H. destruct r as [permit|e]; cbn [bind]; [|discriminate].
  intros [= <-]. constructor; [now apply H | constructor].
Qed.

Lemma orderTif_withTrigger order trigger' :
  orderTif (withTrigger order trigger') = orderTif order.
Proof. unfold orderTif, withTrigger. cbn [order_t]. now destruct (order_t order). Qed.

(** Every action of the adapter is plain. *)
Lemma buildPermitActions_plain pk now request context infos :
  fst (switchOnType pk now request context) = Ok infos ->
  Forall (fun info => adapterAction (permitAction info) = true) infos.
Proof.
  revert infos.
  unfold switchOnType.
  set (base := read_nonce request). set (a := read_action request).
  assert (L : forall A (f : A -> Result PermitAction * A) items infos,
             (forall item permit, fst (f item) = Ok permit -> adapterAction permit = true) ->
             fst (forEachAdd f base items 0) = Ok infos ->
             Forall (fun info => adapterAction (permitAction info) = true) infos).
  { intros A f items infos Hf.
    exact (forEachAdd_Forall f (fun permit => adapterAction permit = true)
             base items Hf 0 infos). }
  assert (O : forall order infos,
             fst (orderCase now base order context) = Ok infos ->
             Forall (fun info => adapterAction (permitAction info) = true) infos).
  { intros order infos. unfold orderCase.
    destruct (order_a order); [|intros [= <-]; constructor].
    destruct (resolveMarket _ context) as [market|e']; [|discriminate].
    pose proof (buildPlaceAction_plain now order market) as Hp.
    destruct (buildPlaceAction now order market) as [r o']. cbn [fst] in *.
    apply (Forall_one (fun permit => adapterAction permit = true)). exact Hp. }
  repeat match goal with
         | |- context [String.eqb (action_type a) ?s] =>
             destruct (String.eqb (action_type a) s); cbv iota
         end.
  - intros infos. destruct (action_order a) as [order|].
    + pose proof (O order infos) as Ho.
      now destruct (orderCase now base order context).
    + pose proof (O (action_self a) infos) as Ho.
      now destruct (orderCase now base (action_self a) context).
  - intros infos.
    pose proof (L _ (cancelItem context) (orEmpty (action_cancels a)) infos) as F.
    destruct (forEachAdd (cancelItem context) base (orEmpty (action_cancels a)) 0).
    cbn [fst] in *. apply F. intros item permit. unfold cancelItem. cbn [fst].
    destruct (resolveMarket _ context); cbn [bind]; [|discriminate].
    destruct (Js.BigIntOf _); cbn [bind]; [|discriminate]. now intros [= <-].
  - intros infos.
    pose proof (L _ (cancelByCloidItem context) (orEmpty (action_cancels a)) infos) as F.
    destruct (forEachAdd (cancelByCloidItem context) base
                (orEmpty (action_cancels a)) 0).
    cbn [fst] in *. apply F. intros item permit. unfold cancelByCloidItem. cbn [fst].
    destruct (isCancelByCloidRequest item); [|discriminate].
    destruct (resolveMarket _ context); cbn [bind]; [|discriminate].
    destruct (Js.BigIntOf _); cbn [bind]; [|discriminate]. now intros [= <-].
  - intros infos.
    pose proof (L _ (batchOrderItem now context) (orEmpty (action_orders a)) infos) as F.
    destruct (forEachAdd (batchOrderItem now context) base
                (orEmpty (action_orders a)) 0).
    cbn [fst] in *. apply F. intros item permit. unfold batchOrderItem.
    destruct (resolveMarket _ context) as [market|e']; [|discriminate].
    apply buildPlaceAction_plain.
  - intros infos. destruct (action_asset a); [|intros [= <-]; constructor].
    cbn [fst]. destruct (resolveMarket _ context); cbn [bind]; [|discriminate].
    intros [= <-]. constructor; [reflexivity | constructor].
  - intros infos. cbn [fst].
    match goal with |- bind ?m _ = _ -> _ => destruct m; [|discriminate] end.
    cbn [bind].
    match goal with |- match ?m with _ => _ end = _ -> _ =>
      destruct m eqn:E; [|discriminate] end.
    intros [= <-]. revert E.
    match goal with |- bind ?m _ = _ -> _ => destruct m; [|discriminate] end.
    cbn [bind].
    match goal with |- bind ?m _ = _ -> _ => destruct m; [|discriminate] end.
    cbn [bind]. intros [= <-]. constructor; [reflexivity | constructor].
  - intros infos. destruct (action_amount a); [|intros [= <-]; constructor].
    cbn [fst]. destruct (decimalToFixed _ 6); cbn [bind]; [|discriminate].
    intros [= <-]. constructor; [reflexivity | constructor].
  - intros infos [= <-]. constructor; [reflexivity | constructor].
  - intros infos. destruct (action_order a) as [order|]; [|intros [= <-]; constructor].
    destruct (resolveMarket _ context) as [market|e']; [|discriminate].
    match goal with |- context [buildModifyAction now ?m ?k] =>
      pose proof (buildModifyAction_plain now m k) as Hp;
      destruct (buildModifyAction now m k) as [r m'] end.
    cbn [fst] in *.
    apply (Forall_one (fun permit => adapterAction permit = true)). exact Hp.
  - intros infos.
    pose proof (L _ (modifyBatchItem now context) (orEmpty (action_modifies a)) infos)
      as F.
    destruct (forEachAdd (modifyBatchItem now context) base
                (orEmpty (action_modifies a)) 0).
    cbn [fst] in *. apply F. intros item permit. unfold modifyBatchItem.
    destruct (resolveMarket _ context) as [market|e']; [|discriminate].
    apply buildModifyAction_plain.
  - intros infos [= <-]. constructor.
Qed.

(** ** The exchange client *)

(** X7: the time in force that the client sends is always one the adapter
    supports: "Ioc" and "FrontendMarket" become IOC and every other value,
    "Alo" included, becomes GTC; [mapTifForAmbient] never yields "Alo". *)
Theorem mapTifForAmbient_always_supported tif :
  toTimeInForceValue (mapTifForAmbient tif) =
    Ok (if String.eqb tif "Ioc" || String.eqb tif "FrontendMarket" then IOC else GTC) /\
  toTimeInForceValue (mapTifForAmbient tif) <> Ok ALO /\
  mapTifForAmbient "Alo" = "Gtc".
Proof.
  unfold mapTifForAmbient.
  destruct (String.eqb tif "Ioc" || String.eqb tif "FrontendMarket");
    repeat split; discriminate.
Qed.

Lemma quot_base_nonce n : Z.quot (n - Z.rem n 1000) 1000 = Z.quot n 1000.
Proof.
  rewrite (Z.quot_rem' n 1000) at 1.
  replace (1000 * Z.quot n 1000 + Z.rem n 1000 - Z.rem n 1000)
    with (Z.quot n 1000 * 1000) by lia.
  apply Z.quot_mul. discriminate.
Qed.

Lemma alignEnvelopeExpiry_expiry envelope :
  expiresUnix (alignEnvelopeExpiry envelope) = Z.quot (nonce envelope) 1000 + 60.
Proof.
  unfold alignEnvelopeExpiry. cbv zeta. cbn [expiresUnix]. now rewrite quot_base_nonce.
Qed.

(** X8: [alignEnvelopeExpiry] sets the expiry to the nonce's whole seconds
    (the nonce divided by 1000, truncated toward zero) plus 60, whatever the
    expiry was, and changes no other field; a second call changes nothing. *)
Theorem alignEnvelopeExpiry_seconds envelope :
  alignEnvelopeExpiry envelope =
    {| domain := domain envelope;
       authorizer := authorizer envelope;
       keyType := keyType envelope;
       action := action envelope;
       mode := mode envelope;
       expiresUnix := Z.quot (nonce envelope) 1000 + 60;
       maxFeeQuote := maxFeeQuote envelope;
       relayer := relayer envelope;
       nonce := nonce envelope |} /\
  alignEnvelopeExpiry (alignEnvelopeExpiry envelope) = alignEnvelopeExpiry envelope.
Proof.
  unfold alignEnvelopeExpiry. cbv zeta. cbn [nonce domain authorizer keyType action
    mode maxFeeQuote relayer]. now rewrite quot_base_nonce.
Qed.

(** ** The envelope builder *)

(** The public methods pass on what they are given: for a side 0 or 1, the
    call that states an action builds the envelope of that action. *)
Lemma builderCall_build this now signer permit givenNonce expiresIn relayerKey :
  adapterAction permit = true ->
  builderCall this now signer permit givenNonce expiresIn relayerKey =
    Builder.build this now signer permit givenNonce expiresIn relayerKey.
Proof.
  assert (S : forall side,
            (side =? 0) || (side =? 1) = true ->
            Builder.sideCode (if side =? 0 then "bid" else "ask") = side).
  { intros side H. apply orb_true_iff in H as [H|H]; apply Z.eqb_eq in H; now subst. }
  destruct permit; cbn [adapterAction builderCall]; intros H; try reflexivity;
    [unfold Builder.placeOrder | unfold Builder.modify];
    split_valid; cbn [Builder.orDefault];
    match goal with H : (_ =? 0) || _ = true |- _ => rewrite (S _ H) end;
    reflexivity.
Qed.

Lemma envelopesOfRead_match_builder pk now request context envelopes :
  ctx_hlWindowK context = None \/ ctx_hlWindowK context = Some 128 ->
  fst (envelopesOfRead pk now request context) = Ok envelopes ->
  Forall (fun envelope =>
            envelope =
              Builder.buildEnvelope
                (Builder.constructor
                   {| config_programId := ctx_programId context;
                      config_cluster := Some (ctx_clusterType context);
                      config_defaultExpiry := ctx_expirySeconds context;
                      config_defaultMaxFee := ctx_maxFeeQuote context |})
                now
                {| params_authorizer := ctx_authorizer context;
                   params_action := action envelope;
                   params_nonce := Some (nonce envelope);
                   params_expiresIn := None;
                   params_relayer := ctx_relayer context;
                   params_replayMode := None |} /\
            envelope =
              builderCall
                (Builder.constructor
                   {| config_programId := ctx_programId context;
                      config_cluster := Some (ctx_clusterType context);
                      config_defaultExpiry := ctx_expirySeconds context;
                      config_defaultMaxFee := ctx_maxFeeQuote context |})
                now (ctx_authorizer context) (action envelope)
                (Some (nonce envelope)) None (ctx_relayer context))
         envelopes.
Proof.
  intros K. unfold envelopesOfRead.
  pose proof (buildPermitActions_plain pk now request context) as P.
  destruct (switchOnType pk now request context) as [[infos|e] action'];
    cbn [fst bind] in *; [|discriminate].
  specialize (P infos eq_refl). rewrite Forall_forall in P.
  intros [= <-]. apply Forall_forall. intros envelope Hin.
  apply in_map_iff in Hin as (info & <- & Hin).
  cbn [action nonce]. rewrite (builderCall_build _ _ _ _ _ _ _ (P info Hin)).
  unfold Builder.build, Builder.buildEnvelope, Builder.constructor.
  cbn [params_authorizer params_action params_nonce params_expiresIn
       params_relayer params_replayMode builder_programId builder_cluster
       builder_defaultExpiry builder_defaultMaxFee config_programId config_cluster
       config_defaultExpiry config_defaultMaxFee].
  unfold DEFAULT_WINDOW_K, DEFAULT_EXPIRY, DEFAULT_MAX_FEE.
  destruct K as [-> | ->]; split; reflexivity.
Qed.

(** X9: the adapter and the builder make the same envelopes.  With a window
    of 128 (the context's default), every envelope that the adapter returns
    is the one that a [PermitBuilder] configured with the context's program
    id, cluster, expiry and fee builds at the same time for the same
    authorizer, action, nonce and relayer, and it is the envelope that the
    builder's public method for that action returns when it is passed the
    action's fields. *)
Theorem adapter_envelopes_match_builder pk now request context envelopes :
  ctx_hlWindowK context = None \/ ctx_hlWindowK context = Some 128 ->
  fst (buildPermitEnvelopesFromExchangeRequest pk now request context) = Ok envelopes ->
  Forall (fun envelope =>
            envelope =
              Builder.buildEnvelope
                (Builder.constructor
                   {| config_programId := ctx_programId context;
                      config_cluster := Some (ctx_clusterType context);
                      config_defaultExpiry := ctx_expirySeconds context;
                      config_defaultMaxFee := ctx_maxFeeQuote context |})
                now
                {| params_authorizer := ctx_authorizer context;
                   params_action := action envelope;
                   params_nonce := Some (nonce envelope);
                   params_expiresIn := None;
                   params_relayer := ctx_relayer context;
                   params_replayMode := None |} /\
            envelope =
              builderCall
                (Builder.constructor
                   {| config_programId := ctx_programId context;
                      config_cluster := Some (ctx_clusterType context);
                      config_defaultExpiry := ctx_expirySeconds context;
                      config_defaultMaxFee := ctx_maxFeeQuote context |})
                now (ctx_authorizer context) (action envelope)
                (Some (nonce envelope)) None (ctx_relayer context))
         envelopes.
Proof.
  intros K E. destruct (buildPermitEnvelopes_returns _ _ _ _ _ E) as (base & _ & E').
  exact (envelopesOfRead_match_builder pk now _ context envelopes K E').
Qed.

(** X9 (witness): the two orders of a batch through the sample context. *)
Lemma adapter_envelopes_match_builder_witness :
  exists envelopes,
    fst (buildPermitEnvelopesFromExchangeRequest noPublicKey 1700000000123
           {| req_action :=
                set_action_orders (bareAction "batchOrder")
                  (Some [sampleOrder None "Ioc"; sampleOrder (Some "7") "Gtc"]);
              req_nonce := ANumber (Integer 1700000000123) |} sampleContext) = Ok envelopes /\
    List.length envelopes = 2%nat /\
    Forall (fun envelope =>
              envelope =
                builderCall
                  (Builder.constructor
                     {| config_programId := ctx_programId sampleContext;
                        config_cluster := Some (ctx_clusterType sampleContext);
                        config_defaultExpiry := ctx_expirySeconds sampleContext;
                        config_defaultMaxFee := ctx_maxFeeQuote sampleContext |})
                  1700000000123 (ctx_authorizer sampleContext) (action envelope)
                  (Some (nonce envelope)) None (ctx_relayer sampleContext))
           envelopes.
Proof.
  eexists. split; [vm_compute; reflexivity|]. split; [reflexivity|].
  eapply Forall_impl;
    [|apply (adapter_envelopes_match_builder noPublicKey 1700000000123
               {| req_action :=
                    set_action_orders (bareAction "batchOrder")
                      (Some [sampleOrder None "Ioc"; sampleOrder (Some "7") "Gtc"]);
                  req_nonce := ANumber (Integer 1700000000123) |} sampleContext)].
  - intros envelope [_ H]. exact H.
  - right. reflexivity.
  - vm_compute. reflexivity.
Defined.

(** A valid envelope encodes to its bytes field by field. *)
Lemma encodePermitEnvelope_valid envelope :
  validEnvelope envelope = true ->
  exists actionBytes modeBytes,
    Borsh.encode permitActionSchema (toBorshAction (action envelope)) = Some actionBytes /\
    Borsh.encode replayModeSchema (toBorshReplayMode (mode envelope)) = Some modeBytes /\
    encodePermitEnvelope envelope = Ok (envelopeBytes envelope actionBytes modeBytes).
Proof.
  intros H. destruct (RoundTrip_envelope envelope H) as (a & m & Ea & Em & [E _] & L).
  exists a, m. split; [exact Ea|]. split; [exact Em|].
  unfold encodePermitEnvelope. rewrite E.
  replace (List.length (envelopeBytes envelope a m) <=? 512)%nat with true;
    [reflexivity|]. symmetry. apply Nat.leb_le. lia.
Qed.

(** X10: the permit that [noop] builds, when its fields are within their
    widths, serializes to the program id, the cluster and the version 1, the
    authorizer, the key type 0, the action tag 7, the replay mode 3 with the
    window 128, the expiry (the clock's seconds plus the expiry period), the
    fee, the relayer option and the nonce (the given one, else the clock's
    milliseconds): 95 bytes without a relayer and 127 with one. *)
Theorem noop_permit_bytes this now signer givenNonce expiresIn relayerKey :
  validEnvelope (Builder.noop this now signer givenNonce expiresIn relayerKey) = true ->
  Builder.serialize (Builder.noop this now signer givenNonce expiresIn relayerKey) =
    Ok (builder_programId this ++ [ClusterType_code (builder_cluster this)] ++ [1]
        ++ signer ++ [0] ++ [7] ++ [3; 128]
        ++ Borsh.toLE 8 ((now / 1000
                          + match expiresIn with
                            | Some e => e
                            | None => builder_defaultExpiry this
                            end) mod 2 ^ 64)
        ++ Borsh.toLE 8 (builder_defaultMaxFee this)
        ++ match relayerKey with Some key => 1 :: key | None => [0] end
        ++ Borsh.toLE 8 (match givenNonce with Some n => n | None => now end)) /\
  match Builder.serialize (Builder.noop this now signer givenNonce expiresIn relayerKey) with
  | Ok bytes =>
      List.length bytes = match relayerKey with Some _ => 127%nat | None => 95%nat end
  | Throw _ => False
  end.
Proof.
  intros H. unfold Builder.serialize.
  destruct (encodePermitEnvelope_valid _ H) as (a & m & Ea & Em & E).
  rewrite E. cbn in Ea, Em. injection Ea as <-. injection Em as <-.
  unfold validEnvelope in H. split_valid.
  repeat match goal with
         | H : isAddress _ = true |- _ => apply isAddress_length in H
         end.
  unfold envelopeBytes, domainBytes, Builder.noop, Builder.build, Builder.buildEnvelope,
    Builder.generateNonce in *.
  cbn [domain programId version cluster authorizer keyType action mode expiresUnix
       maxFeeQuote relayer nonce KeyType_code params_authorizer params_action
       params_nonce params_expiresIn params_relayer params_replayMode validOption] in *.
  rewrite <- !app_assoc. split; [reflexivity|].
  rt_lengths.
  repeat match goal with H : List.length _ = _ |- _ => rewrite H end.
  destruct relayerKey as [key|]; cbn [validOption] in *.
  - match goal with H : isAddress key = true |- _ => apply isAddress_length in H end.
    cbn [List.length]. match goal with H : List.length key = _ |- _ => rewrite H end.
    reflexivity.
  - reflexivity.
Qed.

(** X10 (witness): a builder with every default, no relayer. *)
Lemma noop_permit_bytes_witness :
  match
    Builder.serialize
      (Builder.noop
         (Builder.constructor
            {| config_programId := sampleKey 7; config_cluster := None;
               config_defaultExpiry := None; config_defaultMaxFee := None |})
         1700000000123 (sampleKey 9) None None None)
  with
  | Ok bytes => List.length bytes = 95%nat
  | Throw _ => False
  end.
Proof.
  apply (noop_permit_bytes
           (Builder.constructor
              {| config_programId := sampleKey 7; config_cluster := None;
                 config_defaultExpiry := None; config_defaultMaxFee := None |})
           1700000000123 (sampleKey 9) None None None).
  vm_compute. reflexivity.
Defined.

(** ** Signing many envelopes *)

Lemma signLoop_encodable nacl keypair envelopes : forall messages signatures0 messages0,
  Forall2 (fun envelope message => encodePermitEnvelope envelope = Ok message)
          envelopes messages ->
  signLoop nacl envelopes keypair signatures0 messages0 =
    Ok (signatures0 ++ map (fun message => nacl message (secretKey keypair)) messages,
        messages0 ++ messages).
Proof.
  induction envelopes as [|envelope rest IH]; intros messages signatures0 messages0 H;
    inversion H as [|? message ? messages' E H']; subst.
  - cbn [signLoop map]. now rewrite !app_nil_r.
  - cbn [signLoop map]. unfold generatePermitSignature. rewrite E.
    cbn [bind ps_signature ps_message]. rewrite (IH messages' _ _ H').
    now rewrite <- !app_assoc.
Qed.

Lemma signLoop_throws nacl keypair envelopes : forall signatures0 messages0 e,
  signLoop nacl envelopes keypair signatures0 messages0 = Throw e ->
  exists envelope,
    In envelope envelopes /\ encodePermitEnvelope envelope = Throw e.
Proof.
  induction envelopes as [|envelope rest IH]; intros signatures0 messages0 e;
    cbn [signLoop]; [discriminate|].
  unfold generatePermitSignature.
  destruct (encodePermitEnvelope envelope) as [message|e'] eqn:E; cbn [bind].
  - intros H. destruct (IH _ _ _ H) as (bad & Hin & Hbad).
    exists bad. split; [now right | exact Hbad].
  - intros [= ->]. exists envelope. split; [now left | exact E].
Qed.

Lemma signLoop_returns nacl keypair envelopes : forall signatures0 messages0 raw,
  signLoop nacl envelopes keypair signatures0 messages0 = Ok raw ->
  exists messages,
    Forall2 (fun envelope message => encodePermitEnvelope envelope = Ok message)
            envelopes messages.
Proof.
  induction envelopes as [|envelope rest IH]; intros signatures0 messages0 raw;
    cbn [signLoop].
  - intros _. exists []. constructor.
  - unfold generatePermitSignature.
    destruct (encodePermitEnvelope envelope) as [message|e] eqn:E; cbn [bind];
      [|discriminate].
    intros H. destruct (IH _ _ _ H) as [messages F].
    exists (message :: messages). now constructor.
Qed.

(** What [signPermits] returns on an array of envelopes. *)
Lemma signPermits_array nacl envelopes keypair encoding :
  match signPermits nacl (Envelopes envelopes) keypair encoding with
  | Ok result =>
      Forall2 (fun envelope message => encodePermitEnvelope envelope = Ok message)
              envelopes (sr_rawMessages result) /\
      sr_rawSignatures result =
        map (fun message => nacl message (secretKey keypair)) (sr_rawMessages result) /\
      sr_signatureList result = map (bufferToString encoding) (sr_rawSignatures result) /\
      sr_messageList result = map (bufferToString encoding) (sr_rawMessages result) /\
      match envelopes with
      | [_] =>
          exists signature message,
            sr_signatureList result = [signature] /\
            sr_signatures result = OneString signature /\
            sr_messageList result = [message] /\
            sr_messages result = OneString message
      | _ =>
          sr_signatures result = Strings (sr_signatureList result) /\
          sr_messages result = Strings (sr_messageList result)
      end
  | Throw e =>
      exists envelope,
        In envelope envelopes /\ encodePermitEnvelope envelope = Throw e
  end.
Proof.
  unfold signPermits.
  destruct envelopes as [|first rest]; [cbn; repeat split; constructor|].
  cbn [List.length Nat.eqb].
  destruct (signLoop nacl (first :: rest) keypair [] []) as [raw|e] eqn:L; cbn [bind].
  - destruct (signLoop_returns nacl keypair _ _ _ _ L) as [messages F].
    rewrite (signLoop_encodable nacl keypair _ messages [] [] F) in L.
    cbn [app] in L. injection L as <-.
    cbn [fst snd sr_rawMessages sr_rawSignatures sr_signatureList sr_messageList
         sr_signatures sr_messages].
    split; [exact F|]. split; [reflexivity|]. split; [reflexivity|].
    split; [now destruct encoding|].
    inversion F as [|? message ? messages' E F']; subst.
    destruct rest as [|second rest'].
    + inversion F'; subst. cbn [map oneOrAll]. do 2 eexists.
      repeat split; now destruct encoding.
    + inversion F' as [|? message2 ? messages'' E2 F'']; subst.
      cbn [map oneOrAll]. split; [reflexivity | now destruct encoding].
  - exact (signLoop_throws nacl keypair _ _ _ _ L).
Qed.

(** X11: [signPermits] on an array returns, when every envelope encodes, the
    encodings in order as the raw messages, their detached signatures under
    the secret key as the raw signatures, and both lists in the chosen
    text encoding; [signatures] and [messages] are a single string for
    exactly one envelope and the list otherwise (the empty list for no
    envelope).  It throws exactly when some envelope does not encode, with
    that envelope's error; a single envelope is signed as the array of
    it. *)
Theorem signPermits_signs_each_envelope nacl envelopes keypair encoding :
  (forall envelope,
     signPermits nacl (OneEnvelope envelope) keypair encoding =
     signPermits nacl (Envelopes [envelope]) keypair encoding) /\
  match signPermits nacl (Envelopes envelopes) keypair encoding with
  | Ok result =>
      Forall2 (fun envelope message => encodePermitEnvelope envelope = Ok message)
              envelopes (sr_rawMessages result) /\
      sr_rawSignatures result =
        map (fun message => nacl message (secretKey keypair)) (sr_rawMessages result) /\
      sr_signatureList result = map (bufferToString encoding) (sr_rawSignatures result) /\
      sr_messageList result = map (bufferToString encoding) (sr_rawMessages result) /\
      match envelopes with
      | [_] =>
          exists signature message,
            sr_signatureList result = [signature] /\
            sr_signatures result = OneString signature /\
            sr_messageList result = [message] /\
            sr_messages result = OneString message
      | _ =>
          sr_signatures result = Strings (sr_signatureList result) /\
          sr_messages result = Strings (sr_messageList result)
      end
  | Throw e =>
      exists envelope,
        In envelope envelopes /\ encodePermitEnvelope envelope = Throw e
  end.
Proof.
  split; [reflexivity|]. apply signPermits_array.
Qed.

(** ** The text of a signature *)

Lemma length_toHex bytes :
  String.length (Buffer.toHex bytes) = (2 * List.length bytes)%nat.
Proof.
  induction bytes as [|b rest IH]; cbn [Buffer.toHex String.length List.length];
    [reflexivity|]. rewrite IH. lia.
Qed.

Lemma hexDigit_lower n : (n < 16)%nat -> isLowerHexDigit (Js.hexDigit n) = true.
Proof.
  intros H. do 16 (destruct n as [|n]; [reflexivity|]). lia.
Qed.

Lemma toHex_lower bytes :
  forallb Borsh.isByte bytes = true ->
  forallb isLowerHexDigit (list_ascii_of_string (Buffer.toHex bytes)) = true.
Proof.
  induction bytes as [|b rest IH];
    cbn [Buffer.toHex list_ascii_of_string forallb]; [reflexivity|].
  rewrite andb_true_iff. unfold Borsh.isByte at 1.
  rewrite andb_true_iff, Z.leb_le, Z.ltb_lt. intros [[B0 B1] Hr].
  rewrite (IH Hr), !hexDigit_lower; [reflexivity| |].
  - apply Nat.mod_upper_bound. lia.
  - apply Nat.Div0.div_lt_upper_bound. lia.
Qed.

Lemma length_toBase64 bytes :
  String.length (Buffer.toBase64 bytes) = (4 * ((List.length bytes + 2) / 3))%nat.
Proof.
  assert (G : forall n bytes, (List.length bytes < n)%nat ->
              String.length (Buffer.toBase64 bytes)
              = (4 * ((List.length bytes + 2) / 3))%nat).
  { clear bytes. induction n as [|n IH]; intros bytes H; [lia|].
    destruct bytes as [|a [|b [|c rest]]]; try reflexivity.
    cbn [Buffer.toBase64 String.length List.length] in *.
    rewrite IH by lia.
    replace (S (S (S (List.length rest))) + 2)%nat
      with (List.length rest + 2 + 1 * 3)%nat by lia.
    rewrite Nat.div_add by lia. lia. }
  apply (G (S (List.length bytes))). lia.
Qed.

(** X12: when the signing function returns 64 bytes, [signPermits] returns
    one signature text for every envelope: 128 lower-case hexadecimal digits
    in the encoding "hex", and 88 characters in the encoding "base64". *)
Theorem signature_text_format nacl envelopes keypair encoding result :
  (forall message key,
     List.length (nacl message key) = 64%nat /\
     forallb Borsh.isByte (nacl message key) = true) ->
  signPermits nacl (Envelopes envelopes) keypair encoding = Ok result ->
  List.length (sr_signatureList result) = List.length envelopes /\
  Forall (fun text =>
            match encoding with
            | hex =>
                String.length text = 128%nat /\
                forallb isLowerHexDigit (list_ascii_of_string text) = true
            | base64 => String.length text = 88%nat
            end)
         (sr_signatureList result).
Proof.
  intros Hn E. pose proof (signPermits_array nacl envelopes keypair encoding) as S.
  rewrite E in S. destruct S as (F & Rs & Sl & _).
  rewrite Sl, Rs, !length_map. split; [symmetry; exact (Forall2_length F)|].
  apply Forall_forall. intros text Hin.
  apply in_map_iff in Hin as (signature & <- & Hin).
  apply in_map_iff in Hin as (message & <- & _).
  destruct (Hn message (secretKey keypair)) as [L B].
  destruct encoding; cbn [bufferToString].
  - rewrite length_toHex, L. split; [reflexivity | now apply toHex_lower].
  - now rewrite length_toBase64, L.
Qed.

(** X12 (witness): two envelopes under a signing function of zeros. *)
Lemma signature_text_format_witness :
  exists result,
    signPermits (fun _ _ => List.repeat 0 64)
      (Envelopes [sampleEnvelope Noop (HlWindow 128) None;
                  sampleEnvelope (CancelById 64 5) (HlWindow 128) None])
      {| publicKey := sampleKey 8; secretKey := List.repeat 1 64 |} hex = Ok result /\
    List.length (sr_signatureList result) = 2%nat /\
    Forall (fun text =>
              String.length text = 128%nat /\
              forallb isLowerHexDigit (list_ascii_of_string text) = true)
           (sr_signatureList result).
Proof.
  eexists. split; [vm_compute; reflexivity|].
  apply (signature_text_format (fun _ _ => List.repeat 0 64)
           [sampleEnvelope Noop (HlWindow 128) None;
            sampleEnvelope (CancelById 64 5) (HlWindow 128) None]
           {| publicKey := sampleKey 8; secretKey := List.repeat 1 64 |} hex).
  - intros message key. split; reflexivity.
  - vm_compute. reflexivity.
Defined.

(** ** Local verification *)

Lemma sign_returns nacl pid envelope keypair signed :
  sign nacl pid envelope keypair = Ok signed ->
  exists message,
    encodePermitEnvelope envelope = Ok message /\
    sp_envelope signed = envelope /\
    sp_signature signed = nacl message (secretKey keypair) /\
    sp_publicKey signed = publicKey keypair.
Proof.
  unfold sign, generatePermitSignature.
  destruct (encodePermitEnvelope envelope) as [message|e]; cbn [bind]; [|discriminate].
  cbn [ps_signature ps_message].
  destruct (createEd25519Instruction pid _ _ message) as [ix|e]; cbn [bind];
    [|discriminate].
  intros [= <-]. exists message. repeat split.
Qed.

(** X13: a permit that [sign] or [signWithSession] returns passes [verify],
    provided the library's verification accepts the library's signatures
    under the keypair.  The check is against the signed permit's public key:
    the envelope's authorizer plays no part in it. *)
Theorem verify_accepts_signed nacl nacl_verify pid envelope keypair signed :
  (forall message,
     nacl_verify message (nacl message (secretKey keypair)) (publicKey keypair)
     = Ok true) ->
  sign nacl pid envelope keypair = Ok signed \/
  signWithSession nacl pid envelope keypair = Ok signed ->
  verify nacl_verify signed = Ok true.
Proof.
  intros V [S|S]; [|unfold signWithSession in S];
    destruct (sign_returns _ _ _ _ _ S) as (message & E & Ee & Es & Ek);
    unfold verify; rewrite Ee, E; cbn [bind]; rewrite Es, Ek; apply V.
Qed.

(** X13 (witness): a signing function of zeros and a verification that
    accepts the 64 zeros. *)
Lemma verify_accepts_signed_witness :
  exists signed,
    sign (fun _ _ => List.repeat 0 64) (sampleKey 0)
         (sampleEnvelope Noop (HlWindow 128) None)
         {| publicKey := sampleKey 8; secretKey := List.repeat 1 64 |} = Ok signed /\
    verify (fun _ signature _ =>
              Ok (forallb (Z.eqb 0) signature && (List.length signature =? 64)%nat))
           signed = Ok true.
Proof.
  eexists. split; [vm_compute; reflexivity|].
  apply (verify_accepts_signed (fun _ _ => List.repeat 0 64)
           (fun _ signature _ =>
              Ok (forallb (Z.eqb 0) signature && (List.length signature =? 64)%nat))
           (sampleKey 0) (sampleEnvelope Noop (HlWindow 128) None)
           {| publicKey := sampleKey 8; secretKey := List.repeat 1 64 |}).
  - intros message. reflexivity.
  - left. vm_compute. reflexivity.
Defined.

(** ** Signing a request *)

(** X14: [signHyperliquidRequest] returns the adapter's envelopes with one
    signature for each, in order: the i-th raw message is the encoding of
    the i-th envelope, the i-th raw signature its detached signature, and
    the nonces count up from the request's nonce.  It throws what the
    adapter throws, or the error of an envelope that does not encode; the
    request is left as the adapter leaves it, and the encoding defaults to
    "hex". *)
Theorem signHyperliquidRequest_signs_every_envelope pk nacl now request context
    keypair encoding :
  signHyperliquidRequest pk nacl now request context keypair None =
    signHyperliquidRequest pk nacl now request context keypair (Some hex) /\
  snd (signHyperliquidRequest pk nacl now request context keypair encoding) =
    snd (buildPermitEnvelopesFromExchangeRequest pk now request context) /\
  match fst (signHyperliquidRequest pk nacl now request context keypair encoding) with
  | Ok result =>
      fst (buildPermitEnvelopesFromExchangeRequest pk now request context)
        = Ok (hl_envelopes result) /\
      Forall2 (fun envelope message => encodePermitEnvelope envelope = Ok message)
              (hl_envelopes result) (sr_rawMessages (hl_signatureResult result)) /\
      sr_rawSignatures (hl_signatureResult result) =
        map (fun message => nacl message (secretKey keypair))
            (sr_rawMessages (hl_signatureResult result)) /\
      exists base,
        Js.BigIntOfNumeric (req_nonce request) = Ok base /\
        map nonce (hl_envelopes result) =
          nonceRange base (List.length (sr_signatureList (hl_signatureResult result)))
  | Throw e =>
      fst (buildPermitEnvelopesFromExchangeRequest pk now request context) = Throw e \/
      exists envelopes envelope,
        fst (buildPermitEnvelopesFromExchangeRequest pk now request context)
          = Ok envelopes /\
        In envelope envelopes /\ encodePermitEnvelope envelope = Throw e
  end.
Proof.
  split; [reflexivity|]. unfold signHyperliquidRequest.
  pose proof (buildPermitEnvelopes_nonceRange pk now request context) as Q.
  destruct (buildPermitEnvelopesFromExchangeRequest pk now request context)
    as [[envelopes|e] request']; cbn [fst snd bind] in *;
    (split; [reflexivity|]); [|now left].
  set (enc := match encoding with Some e => e | None => hex end).
  pose proof (signPermits_array nacl envelopes keypair enc) as S.
  destruct (signPermits nacl (Envelopes envelopes) keypair enc) as [result|e];
    cbn [bind fst hl_envelopes hl_signatureResult].
  - destruct S as (F & Rs & Sl & _). repeat split; try assumption.
    destruct (Q envelopes eq_refl) as (base & Hb & Hq).
    exists base. split; [exact Hb|]. rewrite Hq. f_equal.
    now rewrite Sl, Rs, !length_map, <- (Forall2_length F).
  - right. destruct S as (envelope & Hin & Hbad). now exists envelopes, envelope.
Qed.

(** ** What the client signs *)

(** The fields that every envelope of the adapter takes from the context. *)
Lemma envelopesOfRead_fields pk now request context envelopes :
  fst (envelopesOfRead pk now request context) = Ok envelopes ->
  Forall (fun envelope =>
            domain envelope = {| programId := ctx_programId context; version := 1;
                                 cluster := ctx_clusterType context |} /\
            authorizer envelope = ctx_authorizer context /\
            keyType envelope = Ed25519 /\
            mode envelope = HlWindow (match ctx_hlWindowK context with
                                      | Some w => w
                                      | None => DEFAULT_WINDOW_K
                                      end) /\
            maxFeeQuote envelope = match ctx_maxFeeQuote context with
                                   | Some f => f
                                   | None => DEFAULT_MAX_FEE
                                   end /\
            relayer envelope = ctx_relayer context /\
            expiresUnix envelope =
              now / 1000 + match ctx_expirySeconds context with
                           | Some e => e
                           | None => DEFAULT_EXPIRY
                           end)
         envelopes.
Proof.
  unfold envelopesOfRead.
  destruct (switchOnType pk now request context) as [[infos|e] action'];
    cbn [fst bind]; [|discriminate].
  intros [= <-]. apply Forall_forall. intros envelope Hin.
  apply in_map_iff in Hin as (info & <- & _). repeat split.
Qed.

Lemma buildPermitEnvelopes_fields pk now request context envelopes :
  fst (buildPermitEnvelopesFromExchangeRequest pk now request context) = Ok envelopes ->
  Forall (fun envelope =>
            domain envelope = {| programId := ctx_programId context; version := 1;
                                 cluster := ctx_clusterType context |} /\
            authorizer envelope = ctx_authorizer context /\
            keyType envelope = Ed25519 /\
            mode envelope = HlWindow (match ctx_hlWindowK context with
                                      | Some w => w
                                      | None => DEFAULT_WINDOW_K
                                      end) /\
            maxFeeQuote envelope = match ctx_maxFeeQuote context with
                                   | Some f => f
                                   | None => DEFAULT_MAX_FEE
                                   end /\
            relayer envelope = ctx_relayer context /\
            expiresUnix envelope =
              now / 1000 + match ctx_expirySeconds context with
                           | Some e => e
                           | None => DEFAULT_EXPIRY
                           end)
         envelopes.
Proof.
  intros E. destruct (buildPermitEnvelopes_returns _ _ _ _ _ E) as (base & _ & E').
  exact (envelopesOfRead_fields pk now _ context envelopes E').
Qed.

Lemma Forall2_map_l {A B C : Type} (f : A -> B) (P : B -> C -> Prop) l l' :
  Forall2 (fun a c => P (f a) c) l l' -> Forall2 P (map f l) l'.
Proof. induction 1; cbn [map]; constructor; assumption. Qed.

(** X15: the request that [signPayloadWithKeypair] returns carries the clock
    reading as nonce, the signer's key as text and one signature for every
    envelope of the adapter: the hexadecimal text of the detached signature
    over the envelope with its expiry moved to 60 seconds after the second
    of its own nonce.  Every such envelope names the client's program on
    Testnet, the signer as authorizer, the window 128, the fee 1000000 and
    no relayer, and the nonces count up from the clock reading. *)
Theorem signPayloadWithKeypair_signs_aligned pkFrom pkTo nacl now payloadAction signer
    program envelopes messages :
  pkFrom clientProgramId = Some program ->
  fst (buildPermitEnvelopesFromExchangeRequest pkFrom now
         {| req_action := payloadAction; req_nonce := ANumber (Integer now) |}
         (createHyperliquidContext clientMarkets program (publicKey signer)
                                   (Some Testnet) None None None None)) = Ok envelopes ->
  Forall2 (fun envelope message =>
             encodePermitEnvelope (alignEnvelopeExpiry envelope) = Ok message)
          envelopes messages ->
  exists signed,
    fst (signPayloadWithKeypair pkFrom pkTo nacl now payloadAction signer) = Ok signed /\
    signed_nonce signed = ANumber (Integer now) /\
    signed_pubkey signed = pkTo (publicKey signer) /\
    signed_signature signed =
      map (fun message => Buffer.toHex (nacl message (secretKey signer))) messages /\
    signed_action signed =
      snd (signPayloadWithKeypair pkFrom pkTo nacl now payloadAction signer) /\
    map nonce envelopes = nonceRange now (List.length messages) /\
    Forall (fun envelope =>
              expiresUnix (alignEnvelopeExpiry envelope)
                = Z.quot (nonce envelope) 1000 + 60 /\
              domain envelope = {| programId := program; version := 1;
                                   cluster := Testnet |} /\
              authorizer envelope = publicKey signer /\
              keyType envelope = Ed25519 /\
              mode envelope = HlWindow 128 /\
              maxFeeQuote envelope = 1000000 /\
              relayer envelope = None)
           envelopes.
Proof.
  intros Hp B F. unfold signPayloadWithKeypair. rewrite Hp.
  set (context := createHyperliquidContext clientMarkets program (publicKey signer)
                    (Some Testnet) None None None None) in *.
  set (request := {| req_action := payloadAction;
                     req_nonce := ANumber (Integer now) |}) in *.
  destruct (buildPermitEnvelopes_nonceRange pkFrom now request context envelopes B)
    as (base & Hb & Q).
  injection Hb as <-.
  pose proof (buildPermitEnvelopes_fields pkFrom now request context envelopes B) as D.
  destruct (buildPermitEnvelopesFromExchangeRequest pkFrom now request context)
    as [r payload']. cbn [fst snd] in *. subst r. cbn [bind].
  pose proof (signPermits_array nacl (map alignEnvelopeExpiry envelopes) signer hex) as S.
  destruct (signPermits nacl (Envelopes (map alignEnvelopeExpiry envelopes)) signer hex)
    as [result|e].
  - destruct S as (F' & Rs & Sl & _). cbn [bind].
    assert (M : sr_rawMessages result = messages).
    { clear - F F'. revert F'. generalize (sr_rawMessages result) as raw.
      induction F as [|envelope message envelopes messages E F IH]; intros raw F';
        inversion F' as [|? m ? raw' E' F'']; subst; [reflexivity|].
      f_equal; [congruence | now apply IH]. }
    eexists. split; [reflexivity|].
    cbn [signed_nonce signed_pubkey signed_signature signed_action normalizeToHexArray].
    repeat split.
    + rewrite map_id, Sl, Rs, M, map_map. reflexivity.
    + rewrite Q. f_equal. now rewrite <- (Forall2_length F).
    + apply Forall_forall. intros envelope Hin.
      rewrite Forall_forall in D. destruct (D envelope Hin) as (D1 & D2 & D3 & D4 & D5 & D6 & _).
      split; [apply alignEnvelopeExpiry_expiry|]. repeat split; assumption.
  - exfalso. destruct S as (bad & Hin & Hbad).
    apply in_map_iff in Hin as (envelope & <- & Hin).
    clear - F Hin Hbad. induction F as [|x m xs ms E F IH]; [contradiction|].
    destruct Hin as [->|Hin]; [congruence | now apply IH].
Qed.

(** X15 (witness): the order of the README. *)
Lemma signPayloadWithKeypair_signs_aligned_witness :
  exists signed,
    fst (signPayloadWithKeypair (fun _ => Some (sampleKey 7)) (fun _ => "signer")
           (fun _ _ => List.repeat 0 64) 1700000000123
           (set_action_self (bareAction "order")
                            (sampleOrder (Some "1700000000000") "Ioc"))
           {| publicKey := sampleKey 8; secretKey := List.repeat 1 64 |}) = Ok signed /\
    signed_nonce signed = ANumber (Integer 1700000000123) /\
    List.length (signed_signature signed) = 1%nat.
Proof.
  destruct (fst (buildPermitEnvelopesFromExchangeRequest (fun _ => Some (sampleKey 7))
                   1700000000123
                   {| req_action :=
                        set_action_self (bareAction "order")
                                        (sampleOrder (Some "1700000000000") "Ioc");
                      req_nonce := ANumber (Integer 1700000000123) |}
                   (createHyperliquidContext clientMarkets (sampleKey 7) (sampleKey 8)
                                             (Some Testnet) None None None None)))
    as [envelopes|e] eqn:B; [|vm_compute in B; discriminate B].
  assert (F : exists message,
             Forall2 (fun envelope message =>
                        encodePermitEnvelope (alignEnvelopeExpiry envelope) = Ok message)
                     envelopes [message]).
  { vm_compute in B. injection B as <-. eexists.
    constructor; [vm_compute; reflexivity | constructor]. }
  destruct F as [message F].
  destruct (signPayloadWithKeypair_signs_aligned
              (fun _ => Some (sampleKey 7)) (fun _ => "signer")
              (fun _ _ => List.repeat 0 64) 1700000000123
              (set_action_self (bareAction "order")
                               (sampleOrder (Some "1700000000000") "Ioc"))
              {| publicKey := sampleKey 8; secretKey := List.repeat 1 64 |}
              (sampleKey 7) envelopes [message] eq_refl B F)
    as (signed & S & Sn & _ & Sig & _).
  exists signed. split; [exact S|]. split; [exact Sn|]. now rewrite Sig.
Defined.

(** ** Program instructions *)

Lemma pushOptional_app keys more key writable :
  pushOptional (keys ++ more) key writable = keys ++ pushOptional more key writable.
Proof. destruct key; cbn [pushOptional]; [now rewrite app_assoc | reflexivity]. Qed.

Lemma pushOptional_signers keys key writable :
  filter meta_isSigner (pushOptional keys key writable) = filter meta_isSigner keys.
Proof.
  destruct key; cbn [pushOptional]; [|reflexivity].
  rewrite filter_app. cbn. apply app_nil_r.
Qed.

(** X16: [createConsumePermitInstruction] on a permit that [sign] returned
    yields two instructions: the permit's verification instruction first,
    then the ConsumePermit instruction, whose data is the byte 50, the index
    0 of the verification instruction and the 64-byte signature (66 bytes;
    the envelope's bytes travel in the verification instruction only).  The
    signature is the one that the verification instruction holds at offset
    16.  Its accounts are the nine fixed ones, in order, followed by the
    optional ones that are given, and only the submitter and the rent payer
    sign. *)
Theorem consume_instruction_carries_signature sysvar system nacl pid program envelope
    keypair signed accounts :
  (forall message key, List.length (nacl message key) = 64%nat) ->
  List.length (publicKey keypair) = 32%nat ->
  sign nacl pid envelope keypair = Ok signed ->
  exists consume,
    createConsumePermitInstruction sysvar system program signed accounts =
      [withAccountMetas (sp_verifyInstruction signed); consume] /\
    pix_programId consume = program /\
    pix_data consume = [50; 0] ++ sp_signature signed /\
    List.length (pix_data consume) = 66%nat /\
    Buffer.slice (pix_data (withAccountMetas (sp_verifyInstruction signed))) 16 64 =
      skipn 2 (pix_data consume) /\
    map (fun meta => (meta_pubkey meta, meta_isSigner meta, meta_isWritable meta))
        (firstn 9 (pix_keys consume)) =
      [(acc_submitter accounts, true, false); (sysvar, false, false);
       (acc_global accounts, false, true); (acc_cma accounts, false, true);
       (acc_market accounts, false, true); (acc_perOrderPda accounts, false, true);
       (acc_marketOrderLog accounts, false, true); (acc_rentPayer accounts, true, true);
       (system, false, false)] /\
    skipn 9 (pix_keys consume) = optionalAccounts accounts /\
    map meta_pubkey (filter meta_isSigner (pix_keys consume)) =
      [acc_submitter accounts; acc_rentPayer accounts].
Proof.
  intros Hn Hk S.
  destruct (sign_returns _ _ _ _ _ S) as (message & E & _).
  rewrite (sign_encodable nacl pid envelope keypair message Hn Hk E) in S.
  set (header := ed25519Header (Z.of_nat (List.length message))) in S.
  assert (Hh : List.length header = 16%nat) by reflexivity. clearbody header.
  apply (f_equal (fun r => match r with Ok s => s | Throw _ => signed end)) in S.
  cbv beta iota in S. subst signed.
  unfold createConsumePermitInstruction.
  cbn [sp_verifyInstruction sp_signature app]. eexists. split; [reflexivity|].
  cbn [pix_programId pix_data pix_keys withAccountMetas ix_data Buffer.concat
       List.concat PermitInstructionType_code app].
  rewrite app_nil_r. repeat split.
  - cbn [List.length]. now rewrite Hn.
  - cbn [skipn]. apply slice_middle; [exact Hh | apply Hn].
  - match goal with
    | |- context [pushOptional (pushOptional (pushOptional (pushOptional ?k _ _) _ _) _ _) _ _] =>
        rewrite <- (app_nil_r k) at 1
    end.
    rewrite !pushOptional_app. reflexivity.
  - match goal with
    | |- context [pushOptional (pushOptional (pushOptional (pushOptional ?k _ _) _ _) _ _) _ _] =>
        rewrite <- (app_nil_r k) at 1
    end.
    rewrite !pushOptional_app. reflexivity.
  - rewrite !pushOptional_signers. reflexivity.
Qed.

(** X16 (witness): the Noop permit with a session account. *)
Lemma consume_instruction_carries_signature_witness :
  exists signed consume,
    sign (fun _ _ => List.repeat 5 64) (sampleKey 0)
         (sampleEnvelope Noop (HlWindow 128) None)
         {| publicKey := sampleKey 8; secretKey := List.repeat 1 64 |} = Ok signed /\
    createConsumePermitInstruction (sampleKey 1) (sampleKey 0) (sampleKey 7) signed
      {| acc_submitter := sampleKey 10; acc_global := sampleKey 11;
         acc_cma := sampleKey 12; acc_market := sampleKey 13;
         acc_perOrderPda := sampleKey 14; acc_marketOrderLog := sampleKey 15;
         acc_rentPayer := sampleKey 16; acc_sessionPda := Some (sampleKey 17);
         acc_nonceWindowPda := None; acc_allowancePda := None;
         acc_usedNoncePda := None |} =
      [withAccountMetas (sp_verifyInstruction signed); consume] /\
    pix_data consume = [50; 0] ++ List.repeat 5 64.
Proof.
  destruct (sign (fun _ _ => List.repeat 5 64) (sampleKey 0)
                 (sampleEnvelope Noop (HlWindow 128) None)
                 {| publicKey := sampleKey 8; secretKey := List.repeat 1 64 |})
    as [signed|e] eqn:S; [|vm_compute in S; discriminate S].
  destruct (consume_instruction_carries_signature (sampleKey 1) (sampleKey 0)
              (fun _ _ => List.repeat 5 64) (sampleKey 0) (sampleKey 7)
              (sampleEnvelope Noop (HlWindow 128) None)
              {| publicKey := sampleKey 8; secretKey := List.repeat 1 64 |} signed
              {| acc_submitter := sampleKey 10; acc_global := sampleKey 11;
                 acc_cma := sampleKey 12; acc_market := sampleKey 13;
                 acc_perOrderPda := sampleKey 14; acc_marketOrderLog := sampleKey 15;
                 acc_rentPayer := sampleKey 16; acc_sessionPda := Some (sampleKey 17);
                 acc_nonceWindowPda := None; acc_allowancePda := None;
                 acc_usedNoncePda := None |}
              (fun _ _ => eq_refl) eq_refl S)
    as (consume & C & _ & D & _).
  exists signed, consume. split; [reflexivity|]. split; [exact C|].
  rewrite D. vm_compute in S. injection S as <-. reflexivity.
Defined.

Lemma writeBigInt64LE_app pre mid post value offset :
  List.length pre = offset -> List.length mid = 8%nat -> isI64 value = true ->
  Buffer.writeBigInt64LE (pre ++ mid ++ post) value offset =
    Ok (pre ++ Borsh.toLE 8 (value mod 2 ^ 64) ++ post).
Proof.
  intros Hp Hm Hv. unfold Buffer.writeBigInt64LE. unfold isI64 in Hv. rewrite Hv.
  replace (offset + 8 <=? List.length (pre ++ mid ++ post))%nat with true
    by (symmetry; apply Nat.leb_le; rewrite !length_app; lia).
  cbn [andb]. rewrite firstn_exact by assumption.
  replace (pre ++ mid ++ post) with ((pre ++ mid) ++ post) by (now rewrite app_assoc).
  rewrite skipn_exact by (rewrite length_app; lia). reflexivity.
Qed.

Lemma writeBigInt64LE_range buf value offset :
  isI64 value = false -> Buffer.writeBigInt64LE buf value offset = Throw RangeError.
Proof. intros Hv. unfold Buffer.writeBigInt64LE. unfold isI64 in Hv. now rewrite Hv. Qed.

Lemma writeUInt32LE_app pre mid value offset :
  List.length pre = offset -> List.length mid = 4%nat -> isU32 value = true ->
  Buffer.writeUInt32LE (pre ++ mid) value offset = Ok (pre ++ Borsh.toLE 4 value).
Proof.
  intros Hp Hm Hv. unfold Buffer.writeUInt32LE. unfold isU32 in Hv. rewrite Hv.
  replace (offset + 4 <=? List.length (pre ++ mid))%nat with true
    by (symmetry; apply Nat.leb_le; rewrite !length_app; lia).
  cbn [andb]. rewrite firstn_exact by assumption.
  rewrite skipn_all2 by (rewrite length_app; lia). now rewrite app_nil_r.
Qed.

Lemma writeUInt32LE_range buf value offset :
  isU32 value = false -> Buffer.writeUInt32LE buf value offset = Throw RangeError.
Proof. intros Hv. unfold Buffer.writeUInt32LE. unfold isU32 in Hv. now rewrite Hv. Qed.

Lemma writeUInt16LE_app pre mid value offset :
  List.length pre = offset -> List.length mid = 2%nat -> isU16 value = true ->
  Buffer.writeUInt16LE (pre ++ mid) value offset =
    Ok (pre ++ [value mod 256; value / 256]).
Proof.
  intros Hp Hm Hv. apply isU16_range in Hv. change (256 ^ Z.of_nat 2) with 65536 in Hv.
  rewrite writeUInt16LE_ok by (rewrite ?length_app; lia).
  rewrite firstn_exact by assumption.
  rewrite skipn_all2 by (rewrite length_app; lia). reflexivity.
Qed.

Lemma writeUInt16LE_range buf value offset :
  isU16 value = false -> Buffer.writeUInt16LE buf value offset = Throw RangeError.
Proof.
  intros Hv. unfold Buffer.writeUInt16LE.
  replace ((0 <=? value) && (value <=? 65535)) with false; [reflexivity|].
  rewrite <- Hv. unfold isU16.
  destruct (0 <=? value); cbn [andb]; [|reflexivity].
  destruct (Z.leb_spec value 65535), (Z.ltb_spec value 65536); reflexivity || lia.
Qed.

(** The bytes of a signed 64-bit number, in two's complement. *)
Lemma twos_complement value :
  isI64 value = true ->
  value mod 2 ^ 64 = if 0 <=? value then value else value + 2 ^ 64.
Proof.
  intros H. apply isI64_range in H.
  destruct (Z.leb_spec 0 value).
  - apply Z.mod_small. lia.
  - symmetry. apply (Z.mod_unique _ _ (-1)); lia.
Qed.

(** X17: [createDelegateSessionInstruction], for a 32-byte session key,
    returns an instruction exactly when the expiry fits the signed 64 bits
    and the scopes the unsigned 32 bits, and throws a RangeError otherwise.
    Its data are 45 bytes: the discriminant 51, the session key, the expiry
    (little-endian, two's complement) and the scopes (little-endian); its
    accounts are the owner (signer), the session account (writable), the
    rent payer (signer, writable) and the system program.
    [createRevokeSessionInstruction] names the session the same way: its
    data are the discriminant 52 and the session key, its accounts the owner
    (signer) and the session account (writable). *)
Theorem delegate_session_instruction_layout system program owner session expires scopes
    sessionPda rentPayer :
  List.length session = 32%nat ->
  createDelegateSessionInstruction system program owner session expires scopes
                                   sessionPda rentPayer =
    (if isI64 expires && isU32 scopes then
       Ok {| pix_keys :=
               [ {| meta_pubkey := owner; meta_isSigner := true;
                    meta_isWritable := false |};
                 {| meta_pubkey := sessionPda; meta_isSigner := false;
                    meta_isWritable := true |};
                 {| meta_pubkey := rentPayer; meta_isSigner := true;
                    meta_isWritable := true |};
                 {| meta_pubkey := system; meta_isSigner := false;
                    meta_isWritable := false |} ];
             pix_programId := program;
             pix_data :=
               [51] ++ session
               ++ Borsh.toLE 8 (if 0 <=? expires then expires else expires + 2 ^ 64)
               ++ Borsh.toLE 4 scopes |}
     else Throw RangeError) /\
  List.length ([51] ++ session
               ++ Borsh.toLE 8 (if 0 <=? expires then expires else expires + 2 ^ 64)
               ++ Borsh.toLE 4 scopes) = 45%nat /\
  createRevokeSessionInstruction program owner session sessionPda =
    Ok {| pix_keys :=
            [ {| meta_pubkey := owner; meta_isSigner := true;
                 meta_isWritable := false |};
              {| meta_pubkey := sessionPda; meta_isSigner := false;
                 meta_isWritable := true |} ];
          pix_programId := program;
          pix_data := [52] ++ session |}.
Proof.
  intros Hs. split; [|split; [rt_lengths; rewrite Hs; reflexivity|]].
  2: { unfold createRevokeSessionInstruction. cbv zeta.
       match goal with
       | |- context [Buffer.set ?buf session ?offset] =>
           change buf with ([52] ++ List.repeat 0 32 ++ [])
       end.
       rewrite Buffer_set_app by (reflexivity || now rewrite repeat_length).
       cbn [bind]. now rewrite app_nil_r. }
  unfold createDelegateSessionInstruction. cbv zeta.
  match goal with
  | |- context [Buffer.set ?buf session ?offset] =>
      change buf with ([51] ++ List.repeat 0 32 ++ List.repeat 0 8 ++ List.repeat 0 4);
      change offset with 1%nat
  end.
  rewrite Buffer_set_app by (reflexivity || now rewrite repeat_length).
  cbn [bind].
  destruct (isI64 expires) eqn:He; cbn [andb].
  - replace ([51] ++ session ++ List.repeat 0 8 ++ List.repeat 0 4)
      with (([51] ++ session) ++ List.repeat 0 8 ++ List.repeat 0 4)
      by (now rewrite <- app_assoc).
    rewrite writeBigInt64LE_app
      by (assumption || (rewrite ?length_app, ?repeat_length, ?Hs; reflexivity)).
    cbn [bind]. rewrite (twos_complement _ He).
    destruct (isU32 scopes) eqn:Hc.
    + rewrite app_assoc.
      rewrite writeUInt32LE_app
        by (assumption
            || (rewrite ?length_app, ?length_toLE, ?repeat_length, ?Hs; reflexivity)).
      cbn [bind]. now rewrite <- !app_assoc.
    + now rewrite writeUInt32LE_range.
  - now rewrite writeBigInt64LE_range.
Qed.

(** X17 (witness): every scope, for a session that expires in 2023. *)
Lemma delegate_session_instruction_layout_witness :
  exists instruction,
    createDelegateSessionInstruction (sampleKey 0) (sampleKey 7) (sampleKey 9)
      (sampleKey 8) 1700000060 SessionScope.All (sampleKey 17) (sampleKey 16)
      = Ok instruction /\
    Buffer.slice (pix_data instruction) 41 4 = [255; 255; 255; 255].
Proof.
  destruct (delegate_session_instruction_layout (sampleKey 0) (sampleKey 7) (sampleKey 9)
              (sampleKey 8) 1700000060 SessionScope.All (sampleKey 17) (sampleKey 16)
              eq_refl) as [E _].
  eexists. split; [exact E | reflexivity].
Defined.

Lemma writeBigUInt64LE_alloc value :
  Buffer.writeBigUInt64LE (Buffer.alloc 8) value 0 =
    if isU64 value then Ok (Borsh.toLE 8 value) else Throw RangeError.
Proof.
  unfold Buffer.writeBigUInt64LE, isU64.
  destruct ((0 <=? value) && (value <? 2 ^ 64)); [|reflexivity].
  cbn [andb Buffer.alloc List.repeat List.length Nat.add Nat.leb firstn skipn app].
  now rewrite app_nil_r.
Qed.

(** X18: [createAllowanceInstruction], for a 32-byte authorizer, returns an
    instruction exactly when the id fits the signed 64 bits and the number
    of uses the unsigned 16 bits, and throws a RangeError otherwise; its
    data are the discriminant 53, the authorizer, the id (little-endian,
    two's complement) and the number of uses.  [allowancePda] derives the
    address from the id's unsigned 64-bit bytes and throws a RangeError
    outside that range.  So the two agree on the eight id bytes for ids from
    0 to 2^63 - 1; a negative id has an instruction and no address, and an
    id from 2^63 on an address and no instruction. *)
Theorem allowance_instruction_and_address system find program owner signer id maxUses
    allowanceAccount rentPayer :
  List.length signer = 32%nat ->
  createAllowanceInstruction system program owner signer id maxUses allowanceAccount
                             rentPayer =
    (if isI64 id && isU16 maxUses then
       Ok {| pix_keys :=
               [ {| meta_pubkey := owner; meta_isSigner := true;
                    meta_isWritable := false |};
                 {| meta_pubkey := allowanceAccount; meta_isSigner := false;
                    meta_isWritable := true |};
                 {| meta_pubkey := rentPayer; meta_isSigner := true;
                    meta_isWritable := true |};
                 {| meta_pubkey := system; meta_isSigner := false;
                    meta_isWritable := false |} ];
             pix_programId := program;
             pix_data :=
               [53] ++ signer
               ++ Borsh.toLE 8 (if 0 <=? id then id else id + 2 ^ 64)
               ++ [maxUses mod 256; maxUses / 256] |}
     else Throw RangeError) /\
  PermitPdas.allowancePda find program owner signer id =
    (if isU64 id then
       find [Buffer.fromString "allowance_v1.0"; owner; signer; Borsh.toLE 8 id] program
     else Throw RangeError).
Proof.
  intros Hs. split.
  - unfold createAllowanceInstruction. cbv zeta.
    match goal with
    | |- context [Buffer.set ?buf signer ?offset] =>
        change buf with ([53] ++ List.repeat 0 32 ++ List.repeat 0 8 ++ List.repeat 0 2);
        change offset with 1%nat
    end.
    rewrite Buffer_set_app by (reflexivity || now rewrite repeat_length).
    cbn [bind].
    destruct (isI64 id) eqn:He; cbn [andb].
    + replace ([53] ++ signer ++ List.repeat 0 8 ++ List.repeat 0 2)
        with (([53] ++ signer) ++ List.repeat 0 8 ++ List.repeat 0 2)
        by (now rewrite <- app_assoc).
      rewrite writeBigInt64LE_app
        by (assumption || (rewrite ?length_app, ?repeat_length, ?Hs; reflexivity)).
      cbn [bind]. rewrite (twos_complement _ He).
      destruct (isU16 maxUses) eqn:Hc.
      * rewrite app_assoc.
        rewrite writeUInt16LE_app
          by (assumption
              || (rewrite ?length_app, ?length_toLE, ?repeat_length, ?Hs; reflexivity)).
        cbn [bind]. now rewrite <- !app_assoc.
      * now rewrite writeUInt16LE_range.
    + now rewrite writeBigInt64LE_range.
  - unfold PermitPdas.allowancePda. cbv zeta. rewrite writeBigUInt64LE_alloc.
    now destruct (isU64 id).
Qed.

(** X18 (witness): the allowance 7 with three uses. *)
Lemma allowance_instruction_and_address_witness :
  exists instruction,
    createAllowanceInstruction (sampleKey 0) (sampleKey 7) (sampleKey 9) (sampleKey 8)
                               7 3 (sampleKey 17) (sampleKey 16) = Ok instruction /\
    PermitPdas.allowancePda (fun seeds _ => Ok (lengthPrefixed seeds, 255))
                            (sampleKey 7) (sampleKey 9) (sampleKey 8) 7 =
      Ok (lengthPrefixed [Buffer.fromString "allowance_v1.0"; sampleKey 9; sampleKey 8;
                          Buffer.slice (pix_data instruction) 33 8], 255).
Proof.
  destruct (allowance_instruction_and_address (sampleKey 0)
              (fun seeds _ => Ok (lengthPrefixed seeds, 255))
              (sampleKey 7) (sampleKey 9) (sampleKey 8) 7 3 (sampleKey 17) (sampleKey 16)
              eq_refl) as [E A].
  eexists. split; [exact E | exact A].
Defined.

(** ** Derived addresses *)

Lemma app_same_length {A : Type} (a b x y : list A) :
  List.length a = List.length b -> a ++ x = b ++ y -> a = b /\ x = y.
Proof.
  intros L E. split.
  - apply (f_equal (firstn (List.length a))) in E.
    now rewrite (firstn_exact a x _ eq_refl), (firstn_exact b y _ (eq_sym L)) in E.
  - apply (f_equal (skipn (List.length a))) in E.
    now rewrite (skipn_exact a x _ eq_refl), (skipn_exact b y _ (eq_sym L)) in E.
Qed.

Lemma toLE_injective span a b :
  0 <= a < 256 ^ Z.of_nat span -> 0 <= b < 256 ^ Z.of_nat span ->
  Borsh.toLE span a = Borsh.toLE span b -> a = b.
Proof.
  intros Ha Hb E. rewrite <- (fromLE_toLE span a Ha), <- (fromLE_toLE span b Hb).
  now rewrite E.
Qed.

(** The address that the search returns is the hash of the seeds, the bump
    returned with it and the program id. *)
Lemma findProgramAddressFrom_hash sha256 isOnCurve seeds program address found :
  forall bump,
  findProgramAddressFrom sha256 isOnCurve bump seeds program = Ok (address, found) ->
  address = sha256 (Buffer.concat seeds ++ [found] ++ program) /\
  0 <= found <= Z.of_nat bump /\
  isOnCurve address = false.
Proof.
  induction bump as [|bump IH]; cbn [findProgramAddressFrom];
    destruct (isOnCurve (sha256 (Buffer.concat seeds ++ [Z.of_nat _] ++ program)))
      eqn:C; try discriminate.
  - intros [= <- <-]. repeat split; [lia | lia | exact C].
  - intros E. destruct (IH E) as (A & B & D). repeat split; [exact A | lia | lia | exact D].
  - intros [= <- <-]. repeat split; [lia | lia | exact C].
Qed.

(** The bytes that [perOrderPda] hashes determine the order: the label and the
    8, 32 and 8 bytes of market, user and order have fixed widths. *)
Lemma perOrder_seeds_injective market1 user1 order1 bump1 market2 user2 order2 bump2
    program :
  isU64 market1 = true -> isU64 order1 = true ->
  isU64 market2 = true -> isU64 order2 = true ->
  List.length user1 = 32%nat -> List.length user2 = 32%nat ->
  Buffer.concat [Buffer.fromString "order_v1.0"; Borsh.toLE 8 market1; user1;
                 Borsh.toLE 8 order1] ++ [bump1] ++ program =
  Buffer.concat [Buffer.fromString "order_v1.0"; Borsh.toLE 8 market2; user2;
                 Borsh.toLE 8 order2] ++ [bump2] ++ program ->
  market1 = market2 /\ user1 = user2 /\ order1 = order2 /\ bump1 = bump2.
Proof.
  intros M1 O1 M2 O2 U1 U2. unfold Buffer.concat. cbn [List.concat].
  rewrite <- !app_assoc. intros E. apply app_inv_head in E.
  apply app_same_length in E as [Em E]; [|now rewrite !length_toLE].
  apply app_same_length in E as [Eu E]; [|congruence].
  apply app_same_length in E as [Eo E]; [|now rewrite !length_toLE].
  cbn [app] in E. injection E as Eb.
  apply isU64_range in M1, M2, O1, O2.
  repeat split; try assumption; now apply (toLE_injective 8).
Qed.

(** X19: different orders have different derived addresses, unless the hash
    of the derivation collides.  When [perOrderPda], with the address search
    of the specification, returns an address for each of two different
    triples of market, 32-byte user and order id, then the two addresses
    differ, or else the hash has the same value on two different byte
    strings. *)
Theorem perOrderPda_distinct_orders sha256 isOnCurve program market1 user1 order1
    market2 user2 order2 derived1 derived2 :
  List.length user1 = 32%nat -> List.length user2 = 32%nat ->
  PermitPdas.perOrderPda (findProgramAddressSync sha256 isOnCurve) program
                         market1 user1 order1 = Ok derived1 ->
  PermitPdas.perOrderPda (findProgramAddressSync sha256 isOnCurve) program
                         market2 user2 order2 = Ok derived2 ->
  (market1, user1, order1) <> (market2, user2, order2) ->
  fst derived1 <> fst derived2 \/
  exists x y, x <> y /\ sha256 x = sha256 y.
Proof.
  intros U1 U2. unfold PermitPdas.perOrderPda. cbv zeta.
  rewrite !writeBigUInt64LE_alloc.
  destruct (isU64 market1) eqn:M1; cbn [bind]; [|discriminate].
  destruct (isU64 order1) eqn:O1; cbn [bind]; [|discriminate].
  destruct (isU64 market2) eqn:M2; cbn [bind]; [|discriminate].
  destruct (isU64 order2) eqn:O2; cbn [bind]; [|discriminate].
  destruct derived1 as [address1 bump1], derived2 as [address2 bump2].
  unfold findProgramAddressSync. intros A1 A2 D. cbn [fst].
  apply findProgramAddressFrom_hash in A1 as (A1 & _), A2 as (A2 & _).
  destruct (list_eq_dec Z.eq_dec address1 address2) as [E|N]; [|now left].
  right. eexists. eexists. split; [|rewrite <- A1, <- A2; exact E].
  intros P. apply D.
  destruct (perOrder_seeds_injective _ _ _ _ _ _ _ _ _ M1 O1 M2 O2 U1 U2 P)
    as (-> & -> & -> & _).
  reflexivity.
Qed.

(** X19 (witness): the orders 5 and 6 of one user on market 64, with the
    hashed bytes themselves as the hash. *)
Lemma perOrderPda_distinct_orders_witness :
  exists derived1 derived2,
    PermitPdas.perOrderPda (findProgramAddressSync (fun bytes => bytes) (fun _ => false))
                           (sampleKey 7) 64 (sampleKey 9) 5 = Ok derived1 /\
    PermitPdas.perOrderPda (findProgramAddressSync (fun bytes => bytes) (fun _ => false))
                           (sampleKey 7) 64 (sampleKey 9) 6 = Ok derived2 /\
    (fst derived1 <> fst derived2 \/
     exists x y : Bytes, x <> y /\ (fun bytes : Bytes => bytes) x = (fun bytes => bytes) y).
Proof.
  eexists. eexists. split; [reflexivity|]. split; [reflexivity|].
  apply (perOrderPda_distinct_orders (fun bytes => bytes) (fun _ => false)
           (sampleKey 7) 64 (sampleKey 9) 5 64 (sampleKey 9) 6);
    [reflexivity | reflexivity | reflexivity | reflexivity | discriminate].
Defined.

(** ** The bytes and the envelope *)

(** A valid envelope encodes, and its bytes decode to it. *)
Lemma encode_then_decode envelope :
  validEnvelope envelope = true ->
  exists bytes,
    encodePermitEnvelope envelope = Ok bytes /\
    (List.length bytes <= 238)%nat /\
    forall rest,
      Borsh.decode permitEnvelopeSchema (bytes ++ rest) = Some (serializable envelope, rest).
Proof.
  intros H. destruct (RoundTrip_envelope envelope H) as (a & m & _ & _ & [E D] & L).
  exists (envelopeBytes envelope a m). split; [|split; [exact L | exact D]].
  unfold encodePermitEnvelope. rewrite E.
  replace (List.length (envelopeBytes envelope a m) <=? 512)%nat with true;
    [reflexivity|]. symmetry. apply Nat.leb_le. lia.
Qed.

(** X20: the canonical bytes determine the envelope.  Two valid envelopes
    with the same encoding are equal, and the encoding of a valid envelope
    is never a proper prefix of the encoding of another: a signature over
    the bytes is a signature over one envelope and no other. *)
Theorem encodePermitEnvelope_injective envelope1 envelope2 bytes rest :
  validEnvelope envelope1 = true ->
  validEnvelope envelope2 = true ->
  encodePermitEnvelope envelope1 = Ok bytes ->
  encodePermitEnvelope envelope2 = Ok (bytes ++ rest) ->
  envelope1 = envelope2 /\ rest = [].
Proof.
  intros H1 H2 E1 E2.
  destruct (encode_then_decode envelope1 H1) as (b1 & E1' & _ & D1).
  destruct (encode_then_decode envelope2 H2) as (b2 & E2' & _ & D2).
  rewrite E1 in E1'. injection E1' as <-. rewrite E2 in E2'. injection E2' as <-.
  specialize (D1 rest). specialize (D2 []). rewrite app_nil_r in D2.
  assert (P : (serializable envelope1, rest) = (serializable envelope2, []))
    by congruence.
  pose proof (f_equal fst P) as S. pose proof (f_equal snd P) as R.
  cbn [fst snd] in S, R. split; [|exact R].
  assert (V : forall envelope,
            validEnvelope envelope = true -> validAction (action envelope) = true)
    by (intros envelope V; unfold validEnvelope in V; now split_valid).
  pose proof (fromBorshEnvelope_serializable envelope1 (V _ H1)) as F1.
  pose proof (fromBorshEnvelope_serializable envelope2 (V _ H2)) as F2.
  rewrite S in F1. congruence.
Qed.

(** X20 (witness): the Noop envelope against itself. *)
Lemma encodePermitEnvelope_injective_witness :
  exists bytes,
    encodePermitEnvelope (sampleEnvelope Noop (HlWindow 128) None) = Ok bytes /\
    sampleEnvelope Noop (HlWindow 128) None = sampleEnvelope Noop (HlWindow 128) None.
Proof.
  destruct (encodePermitEnvelope (sampleEnvelope Noop (HlWindow 128) None))
    as [bytes|e] eqn:E; [|vm_compute in E; discriminate E].
  exists bytes. split; [reflexivity|].
  apply (encodePermitEnvelope_injective
           (sampleEnvelope Noop (HlWindow 128) None)
           (sampleEnvelope Noop (HlWindow 128) None) bytes [] eq_refl eq_refl E).
  now rewrite app_nil_r.
Defined.



Lemma nth_app_exact {A : Type} (pre post : list A) n d :
  List.length pre = n -> nth n (pre ++ post) d = nth 0 post d.
Proof. intros <-. now rewrite app_nth2, Nat.sub_diag by lia. Qed.



(** ** A request within range is signed *)

Lemma nonceRange_In base k n :
  In n (nonceRange base k) -> base <= n < base + Z.of_nat k.
Proof.
  unfold nonceRange. intros H. apply in_map_iff in H as (i & <- & Hi).
  apply in_seq in Hi. lia.
Qed.

(** X22: nothing but the conversion can fail.  When the context's fields are
    within their widths, the nonces stay within 64 bits and the adapter
    returns envelopes whose actions are within their widths, then
    [signHyperliquidRequest] returns: it yields those envelopes, one
    signature for each, and raw messages of at most 238 bytes that decode to
    the envelopes. *)
Theorem valid_request_is_signed pk nacl now request context keypair encoding envelopes
    base :
  validContext now context = true ->
  Js.BigIntOfNumeric (req_nonce request) = Ok base ->
  0 <= base ->
  base + Z.of_nat (List.length envelopes) <= 2 ^ 64 ->
  fst (buildPermitEnvelopesFromExchangeRequest pk now request context) = Ok envelopes ->
  forallb (fun envelope => validAction (action envelope)) envelopes = true ->
  exists result,
    fst (signHyperliquidRequest pk nacl now request context keypair encoding)
      = Ok result /\
    hl_envelopes result = envelopes /\
    List.length (sr_signatureList (hl_signatureResult result)) = List.length envelopes /\
    Forall2 (fun envelope message =>
               decodePermitEnvelope message = inl envelope /\
               (List.length message <= 238)%nat)
            envelopes (sr_rawMessages (hl_signatureResult result)).
Proof.
  intros Hc Hb Hn0 Hn1 B Ha.
  assert (V : forall envelope, In envelope envelopes -> validEnvelope envelope = true).
  { intros envelope Hin.
    pose proof (buildPermitEnvelopes_fields pk now request context envelopes B) as D.
    rewrite Forall_forall in D.
    destruct (D envelope Hin) as (D1 & D2 & D3 & D4 & D5 & D6 & D7).
    destruct (buildPermitEnvelopes_nonceRange pk now request context envelopes B)
      as (base' & Hb' & Q).
    rewrite Hb in Hb'. injection Hb' as <-.
    assert (Hin' : In (nonce envelope) (map nonce envelopes)) by now apply in_map.
    rewrite Q in Hin'. apply nonceRange_In in Hin'.
    rewrite forallb_forall in Ha. specialize (Ha envelope Hin).
    unfold validContext in Hc. split_valid.
    unfold validEnvelope. rewrite D1, D2, D4, D5, D6, D7.
    cbn [programId version validMode]. rewrite !andb_true_iff.
    repeat split; try assumption.
    unfold isU64. apply andb_true_iff. rewrite Z.leb_le, Z.ltb_lt. lia. }
  unfold signHyperliquidRequest.
  destruct (buildPermitEnvelopesFromExchangeRequest pk now request context)
    as [r request']. cbn [fst] in B. subst r. cbn [fst bind].
  set (enc := match encoding with Some e => e | None => hex end).
  pose proof (signPermits_array nacl envelopes keypair enc) as S.
  destruct (signPermits nacl (Envelopes envelopes) keypair enc) as [result|e].
  - destruct S as (F & Rs & Sl & _). cbn [bind]. eexists. split; [reflexivity|].
    cbn [hl_envelopes hl_signatureResult]. split; [reflexivity|]. split.
    + rewrite Sl, Rs, !length_map. symmetry. exact (Forall2_length F).
    + clear - F V. induction F as [|envelope message envelopes messages E F IH];
        constructor.
      * destruct (encode_then_decode envelope (V envelope (or_introl eq_refl)))
          as (bytes & E' & L & D).
        rewrite E in E'. injection E' as <-. split; [|exact L].
        unfold decodePermitEnvelope. specialize (D []). rewrite app_nil_r in D.
        rewrite D, fromBorshEnvelope_serializable; [reflexivity|].
        pose proof (V envelope (or_introl eq_refl)) as Ve.
        unfold validEnvelope in Ve. now split_valid.
      * apply IH. intros x Hx. apply V. now right.
  - exfalso. destruct S as (bad & Hin & Hbad).
    destruct (encode_then_decode bad (V bad Hin)) as (bytes & E & _). congruence.
Qed.

(** X22 (witness): a batch of two orders through the sample context. *)
Lemma valid_request_is_signed_witness :
  exists result,
    fst (signHyperliquidRequest noPublicKey (fun _ _ => List.repeat 0 64) 1700000000123
           {| req_action :=
                set_action_orders (bareAction "batchOrder")
                  (Some [sampleOrder None "Ioc"; sampleOrder (Some "7") "Gtc"]);
              req_nonce := ABigInt 1700000000123 |} sampleContext
           {| publicKey := sampleKey 9; secretKey := List.repeat 1 64 |} None)
      = Ok result /\
    List.length (sr_signatureList (hl_signatureResult result)) = 2%nat.
Proof.
  destruct (fst (buildPermitEnvelopesFromExchangeRequest noPublicKey 1700000000123
                   {| req_action :=
                        set_action_orders (bareAction "batchOrder")
                          (Some [sampleOrder None "Ioc"; sampleOrder (Some "7") "Gtc"]);
                      req_nonce := ABigInt 1700000000123 |} sampleContext))
    as [envelopes|e] eqn:B; [|vm_compute in B; discriminate B].
  assert (L : List.length envelopes = 2%nat /\
              forallb (fun envelope => validAction (action envelope)) envelopes = true).
  { vm_compute in B. injection B as <-. split; reflexivity. }
  destruct L as [L A].
  destruct (valid_request_is_signed noPublicKey (fun _ _ => List.repeat 0 64)
              1700000000123
              {| req_action :=
                   set_action_orders (bareAction "batchOrder")
                     (Some [sampleOrder None "Ioc"; sampleOrder (Some "7") "Gtc"]);
                 req_nonce := ABigInt 1700000000123 |} sampleContext
              {| publicKey := sampleKey 9; secretKey := List.repeat 1 64 |} None
              envelopes 1700000000123 eq_refl eq_refl)
    as (result & S & _ & N & _);
    [lia | rewrite L; vm_compute; discriminate | exact B | exact A |].
  exists result. split; [exact S | now rewrite N].
Defined.

(** ** Fixed-point conversion within the precision *)

(** X23: [decimalToFixed] loses nothing when the decimal has no more
    fraction digits than the asset has decimals: the result is the
    decimal's numerator times 10 to the number of missing digits.  The
    result for a negative decimal is the negated result for the same digits
    without sign, and a leading plus sign changes nothing. *)
Theorem decimalToFixed_exact_within_precision sign whole fraction decimals :
  allDigits whole = true -> allDigits (fractionDigits fraction) = true ->
  (String.length (fractionDigits fraction) <= decimals)%nat ->
  decimalToFixed (decimalString sign whole fraction) decimals =
    Ok (decimalNumerator sign whole fraction
        * 10 ^ Z.of_nat (decimals - String.length (fractionDigits fraction))) /\
  decimalToFixed (decimalString Plus whole fraction) decimals =
    decimalToFixed (decimalString NoSign whole fraction) decimals /\
  decimalToFixed (decimalString Minus whole fraction) decimals =
    Ok (- (decimalNumerator NoSign whole fraction
           * 10 ^ Z.of_nat (decimals - String.length (fractionDigits fraction)))).
Proof.
  intros Hw Hf Hl.
  assert (X : forall s,
            decimalToFixed (decimalString s whole fraction) decimals =
              Ok (decimalNumerator s whole fraction
                  * 10 ^ Z.of_nat (decimals - String.length (fractionDigits fraction)))).
  { intros s. rewrite (decimalToFixed_value s whole fraction decimals Hw Hf).
    f_equal.
    replace (Z.of_nat decimals)
      with (Z.of_nat (decimals - String.length (fractionDigits fraction))
            + Z.of_nat (String.length (fractionDigits fraction))) by lia.
    rewrite Z.pow_add_r by lia. rewrite Z.mul_assoc.
    apply Z.quot_mul. pose proof (pow10_pos (String.length (fractionDigits fraction))).
    lia. }
  split; [apply X|]. split; [now rewrite !X|].
  rewrite X. unfold decimalNumerator. f_equal. lia.
Qed.

(** X23 (witness): the size of the README, 0.00021 at 8 decimals. *)
Lemma decimalToFixed_exact_within_precision_witness :
  decimalToFixed "0.00021" 8 = Ok 21000.
Proof.
  apply (decimalToFixed_exact_within_precision NoSign "0" (Some "00021") 8);
    [reflexivity | reflexivity | cbn; lia].
Defined.

(** ** A decimal with more than one point *)

Lemma append_assoc (a b c : string) : ((a ++ b) ++ c = a ++ b ++ c)%string.
Proof. induction a as [|x a IH]; cbn [append]; [reflexivity | now rewrite IH]. Qed.

Lemma split_digits_point f rest :
  allDigits f = true -> Js.split "." (f ++ "." ++ rest) = f :: Js.split "." rest.
Proof.
  intros Hf. induction f as [|c r IH]; simpl in *; [reflexivity|].
  apply andb_true_iff in Hf as [Hc Hr].
  rewrite (isDigit_neq c "." Hc eq_refl), (IH Hr). reflexivity.
Qed.

Lemma split_points w f rest :
  allDigits w = true -> allDigits f = true ->
  Js.split "." (w ++ "." ++ f ++ "." ++ rest) = w :: f :: Js.split "." rest.
Proof.
  intros Hw Hf. induction w as [|c r IH]; simpl in *.
  - f_equal. exact (split_digits_point f rest Hf).
  - apply andb_true_iff in Hw as [Hc Hr].
    rewrite (isDigit_neq c "." Hc eq_refl), (IH Hr). reflexivity.
Qed.

(** X24: [decimalToFixed] reads the digits before the first point and those
    between the first and the second point only: whatever follows a second
    point is ignored, without an error, so that "1.2.3" is read as 1.2. *)
Theorem decimalToFixed_ignores_after_second_point sign whole fraction rest decimals :
  allDigits whole = true -> allDigits fraction = true ->
  decimalToFixed (decimalString sign whole (Some fraction) ++ "." ++ rest) decimals =
    decimalToFixed (decimalString sign whole (Some fraction)) decimals.
Proof.
  intros Hw Hf.
  assert (A : forall s, ((s ++ whole ++ "." ++ fraction) ++ "." ++ rest
                         = s ++ whole ++ "." ++ fraction ++ "." ++ rest)%string)
    by (intros s; now rewrite !append_assoc).
  unfold decimalToFixed, decimalString. rewrite A.
  assert (P : forall tail x, isDigit x = false -> Ascii.eqb x "." = false ->
                Js.startsWith (whole ++ "." ++ tail) (String x EmptyString) = false).
  { intros tail x Hx Hp.
    apply (startsWith_digits_tail whole ("." ++ tail) x Hw Hx); [|exact Hp].
    right. now exists tail. }
  destruct sign.
  - change ("" ++ ?s)%string with s.
    rewrite !(P _ "-"%char eq_refl eq_refl), !(P _ "+"%char eq_refl eq_refl).
    cbn [orb]. rewrite split_points, split_point by assumption. reflexivity.
  - change ("+" ++ ?s)%string with (String "+" s).
    change (Js.startsWith (String "+" ?s) "-") with false.
    rewrite !startsWith_same. cbn [orb Js.slice1].
    rewrite split_points, split_point by assumption. reflexivity.
  - change ("-" ++ ?s)%string with (String "-" s).
    rewrite !startsWith_same. cbn [orb Js.slice1].
    rewrite split_points, split_point by assumption. reflexivity.
Qed.

(** X24 (witness): "1.2.3" at two decimals is 120. *)
Lemma decimalToFixed_ignores_after_second_point_witness :
  decimalToFixed "1.2.3" 2 = Ok 120.
Proof.
  exact (eq_trans
           (decimalToFixed_ignores_after_second_point NoSign "1" "2" "3" 2
              eq_refl eq_refl)
           eq_refl).
Defined.

(** X25: the adapter makes plain limit orders only.  Every action that
    [buildPermitActions] returns, for whatever request, is an order with a
    price, a side 0 or 1, a time in force among GTC, IOC and ALO, no trigger
    price, trigger type 0 and no health floor, or a cancel, withdraw,
    leverage, faucet or noop action without health floor; a CancelAll is
    never made.  The trigger part of an order's type is not read: an order
    converts to the same Place action whatever its trigger is. *)
Theorem adapter_makes_plain_actions pk now request context :
  match fst (buildPermitActions pk now request context) with
  | Ok infos => forallb (fun info => adapterAction (permitAction info)) infos = true
  | Throw _ => True
  end /\
  forall order market trigger',
    fst (buildPlaceAction now (withTrigger order trigger') market) =
    fst (buildPlaceAction now order market).
Proof.
  split.
  - destruct (fst (buildPermitActions pk now request context)) as [infos|e] eqn:B;
      [|exact I].
    apply forallb_forall. apply Forall_forall.
    destruct (Js.BigIntOfNumeric (req_nonce request)) as [base|err] eqn:Hn.
    + rewrite (buildPermitActions_read _ _ _ _ _ Hn) in B.
      exact (buildPermitActions_plain pk now _ context infos B).
    + rewrite (buildPermitActions_unread _ _ _ _ _ Hn) in B. discriminate B.
  - intros order market trigger'. unfold buildPlaceAction.
    assert (E : ensureClientId now (withTrigger order trigger') =
                (fst (ensureClientId now order),
                 withTrigger (snd (ensureClientId now order)) trigger')).
    { destruct order as [oa ob op os or ot oc].
      unfold ensureClientId, withTrigger, set_order_c.
      cbn [order_a order_b order_p order_s order_r order_t order_c].
      destruct (falsy oc);
        cbn [order_a order_b order_p order_s order_r order_t order_c];
        repeat match goal with
               | |- context [match ?r with Ok _ => _ | Throw _ => _ end] => destruct r
               end; reflexivity. }
    rewrite E. destruct (ensureClientId now order) as [r order']. cbn [fst snd].
    now rewrite orderTif_withTrigger.
Qed.

(** ** The size of the message in a verification instruction *)

(** X26: [createEd25519Instruction], for a 64-byte signature and a 32-byte
    key, returns an instruction exactly when the message has at most 65535
    bytes, the largest length that the 16-bit field holds; a longer message
    throws a RangeError.  The messages of [sign], at most 512 bytes, are
    always within the limit. *)
Theorem createEd25519Instruction_message_limit pid S P M :
  List.length S = 64%nat -> List.length P = 32%nat ->
  createEd25519Instruction pid S P M =
    if Z.of_nat (List.length M) <=? 65535
    then Ok {| ix_keys := []; ix_programId := pid;
               ix_data := ed25519Header (Z.of_nat (List.length M)) ++ S ++ P ++ M |}
    else Throw RangeError.
Proof.
  intros Hs Hp. destruct (Z.leb_spec (Z.of_nat (List.length M)) 65535) as [Hm|Hm].
  - now apply createEd25519Instruction_data.
  - unfold createEd25519Instruction, Buffer.alloc. cbv zeta. unfold Buffer.setIndex.
    cbn [List.repeat app List.length firstn skipn Nat.ltb Nat.leb Nat.add].
    repeat (rewrite writeUInt16LE_ok by (cbn [List.length Z.of_nat]; lia);
            cbn [bind firstn skipn app Nat.add]).
    rewrite writeUInt16LE_range; [reflexivity|].
    unfold isU16. apply andb_false_iff. right. apply Z.ltb_ge. lia.
Qed.

(** X26 (witness): a message of three bytes. *)
Lemma createEd25519Instruction_message_limit_witness :
  exists instruction,
    createEd25519Instruction (sampleKey 0) (List.repeat 5 64) (sampleKey 8) [1; 2; 3]
      = Ok instruction /\
    List.length (ix_data instruction) = 115%nat.
Proof.
  eexists. split.
  - exact (createEd25519Instruction_message_limit (sampleKey 0) (List.repeat 5 64)
             (sampleKey 8) [1; 2; 3] eq_refl eq_refl).
  - reflexivity.
Defined.

(** ** Cancelling by the client id that was written *)

(** X27: an order can be cancelled by the client id that the adapter left on
    it.  When an order of a batch converts to a Place action, the cancel
    item made of the order's asset and of the client id found on the order
    afterwards converts, under cancelByCloid, to the CancelByClientId action
    of the same market and the same client id, also when the id was
    generated from the clock or hashed from a text that is no number. *)
Theorem cancel_by_written_client_id now context order permit :
  fst (batchOrderItem now context order) = Ok permit ->
  exists market clientId cloid,
    resolveMarket (order_a order) context = Ok market /\
    order_c (snd (batchOrderItem now context order)) = Some cloid /\
    match permit with
    | Place marketId' clientId' _ _ _ _ _ _ _ _ =>
        marketId' = marketId market /\ clientId' = clientId
    | _ => False
    end /\
    fst (cancelByCloidItem context
           {| cancel_a := None; cancel_o := None;
              cancel_asset := order_a order; cancel_cloid := Some cloid |})
      = Ok (CancelByClientId (marketId market) clientId).
Proof.
  unfold batchOrderItem.
  destruct (resolveMarket (order_a order) context) as [market|e] eqn:M;
    [|discriminate].
  unfold buildPlaceAction.
  pose proof (ensureClientId_returns_id now order) as (n & c & En & Ec & _ & Eb & _).
  destruct (ensureClientId now order) as [r order']. cbn [fst snd] in *. subst r.
  cbn [bind].
  destruct (decimalToFixed (order_p order') _); cbn [bind]; [|discriminate].
  destruct (decimalToFixed (order_s order') _); cbn [bind]; [|discriminate].
  destruct (toTimeInForceValue (orderTif order')); cbn [bind]; [|discriminate].
  intros [= <-]. exists market, n, c.
  split; [reflexivity|]. split; [exact Ec|]. split; [split; reflexivity|].
  unfold cancelByCloidItem, isCancelByCloidRequest.
  cbn [fst cancel_cloid cancel_asset option_map Js.BigIntOf]. rewrite M, Eb.
  reflexivity.
Qed.

(** X27 (witness): an order whose client id is a word. *)
Lemma cancel_by_written_client_id_witness :
  exists cloid,
    order_c (snd (batchOrderItem 1700000000123 sampleContext
                    (sampleOrder (Some "abc") "Gtc"))) = Some cloid /\
    fst (cancelByCloidItem sampleContext
           {| cancel_a := None; cancel_o := None;
              cancel_asset := Some (Num 0); cancel_cloid := Some cloid |})
      = Ok (CancelByClientId 64 6382179).
Proof.
  destruct (fst (batchOrderItem 1700000000123 sampleContext
                   (sampleOrder (Some "abc") "Gtc"))) as [permit|e] eqn:B;
    [|vm_compute in B; discriminate B].
  destruct (cancel_by_written_client_id 1700000000123 sampleContext
              (sampleOrder (Some "abc") "Gtc") permit B)
    as (market & clientId & cloid & M & C & P & K).
  exists cloid. split; [exact C|].
  vm_compute in M. injection M as <-.
  vm_compute in B. injection B as <-. destruct P as [_ <-]. exact K.
Defined.
